(** * synth_Playtune: score sequencer, tone generators and mixer

    A shallow embedding of [synth_Playtune.cpp] / [synth_Playtune.h]
    (Len Shustek's Playtune audio object for the Teensy Audio Library),
    followed by the properties of the engine.

    Conventions of the embedding:
    - C integers are [Z] with the conversions of their type written out
      ([uint8], [int16], [int32], ...);
    - the object's member variables and the file-level [seed] form the record
      [AudioSynthPlaytune], threaded through every member function;
    - member functions live in the error monad [result]: [Undefined] marks
      behaviour that C++ leaves undefined (integer division by zero, an index
      outside a table), [OutOfFuel] marks a [while (1)] loop that was cut off;
    - what the sources take from the Teensy core and from the waveform file
      (sample rate, flash contents, drum sizes) is gathered in [Platform]. *)

From Stdlib Require Import ZArith QArith Qround Lia Bool List.
From stdpp Require Import base list.
Import ListNotations.
Local Open Scope Z_scope.

(** ** Fixed-width integers *)

Definition uint (w x : Z) : Z := x mod 2 ^ w.
Definition sint (w x : Z) : Z := (x + 2 ^ (w - 1)) mod 2 ^ w - 2 ^ (w - 1).

Definition uint8 : Z -> Z := uint 8.
Definition uint16 : Z -> Z := uint 16.
Definition uint32 : Z -> Z := uint 32.
Definition uint64 : Z -> Z := uint 64.
Definition int16 : Z -> Z := sint 16.
Definition int32 : Z -> Z := sint 32.

Definition INT_MAX : Z := 0x7FFFFFFF.

(** Conversion of a floating-point value to an integer type truncates
    towards zero; the floating-point expressions of the source are evaluated
    over the rationals. *)
Definition Qtrunc (q : Q) : Z := Z.quot (Qnum q) (Zpos (Qden q)).
Definition QofZ (z : Z) : Q := inject_Z z.

(** ** The error monad *)

Inductive result (A : Type) : Type :=
| Ret (a : A)
| Undefined
| OutOfFuel.
Arguments Ret {A} a.
Arguments Undefined {A}.
Arguments OutOfFuel {A}.

Definition bind {A B : Type} (m : result A) (k : A -> result B) : result B :=
  match m with
  | Ret a => k a
  | Undefined => Undefined
  | OutOfFuel => OutOfFuel
  end.

Notation "'do' x <- m ; k" := (bind m (fun x => k))
  (at level 10, x name, m at level 100, k at level 200).
Notation "'do' ' p <- m ; k" := (bind m (fun x => match x with p => k end))
  (at level 10, p pattern, m at level 100, k at level 200).

(** Integer division, [a / b] in C: truncating, undefined for a zero divisor. *)
Definition c_div (a b : Z) : result Z :=
  if b =? 0 then Undefined else Ret (Z.quot a b).

(** Indexing a C array of known length; an index outside it is undefined. *)
Definition index {A : Type} (table : list A) (i : Z) : result A :=
  if i <? 0 then Undefined
  else match table !! Z.to_nat i with
       | Some a => Ret a
       | None => Undefined
       end.

(** ** synth_Playtune.h *)

Definition MAX_TGENS : Z := 16.
Definition ASSUME_VOLUME : bool := false.
Definition BOOST_PERCUSSION : bool := false.

Record file_hdr_t : Type := {
  id1 : Z;
  id2 : Z;
  hdr_length : Z;
  f1 : Z;
  f2 : Z;
  num_tgens : Z
}.

Definition HDR_F1_VOLUME_PRESENT : Z := 0x80.

Definition CMD_PLAYNOTE : Z := 0x90.
Definition CMD_STOPNOTE : Z := 0x80.
Definition CMD_INSTRUMENT : Z := 0xc0.
Definition CMD_RESTART : Z := 0xe0.
Definition CMD_STOP : Z := 0xf0.

Inductive env_state_t : Type :=
| ENV_IDLE | ENV_DELAY | ENV_ATTACK | ENV_HOLD | ENV_DECAY | ENV_SUSTAIN
| ENV_RELEASE.

(** The waveform arrays the source declares [extern]; their contents are in
    synth_Playtune_waves.c. *)
Inductive waveform : Type :=
| waveform_aguitar_0033 | waveform_altosax_0001 | waveform_birds_0011
| waveform_cello_0005 | waveform_clarinett_0001 | waveform_clavinet_0021
| waveform_dbass_0015 | waveform_ebass_0037 | waveform_eguitar_0002
| waveform_eorgan_0064 | waveform_epiano_0044 | waveform_flute_0001
| waveform_oboe_0002 | waveform_piano_0013 | waveform_violin_0003
| waveform_base_drum_04 | waveform_snare_drum_1 | waveform_mid_high_tom
| waveform_cymbal_2 | waveform_hi_bongo | waveform_steel_bell_c6.

Record tone_gen_t : Type := {
  tone_phase : Z;
  tone_incr : Z;
  volume_frac : Z;
  drum_ending_sample_index : Z;
  instrument_index : Z;
  playing : bool;
  percussion : bool;
  env_state : env_state_t;
  env_mult : Z;
  env_incr : Z;
  env_count : Z;
  waveform_array : waveform
}.

Record AudioSynthPlaytune : Type := {
  tune_playing : bool;
  num_tgens_used : Z;
  amplitude_fraction : Z;
  volume_present : bool;
  num_tgens_playing_last : Z;
  score_start : Z;
  score_cursor : Z;
  scorewait_samples : Z;
  tone_gen : list tone_gen_t;
  file_header : file_hdr_t;
  seed : Z
}.

(** Field updates. *)

Definition set_tone_gen (tgs : list tone_gen_t) (st : AudioSynthPlaytune) :=
  {| tune_playing := tune_playing st; num_tgens_used := num_tgens_used st;
     amplitude_fraction := amplitude_fraction st;
     volume_present := volume_present st;
     num_tgens_playing_last := num_tgens_playing_last st;
     score_start := score_start st; score_cursor := score_cursor st;
     scorewait_samples := scorewait_samples st; tone_gen := tgs;
     file_header := file_header st; seed := seed st |}.

Definition set_seed (s : Z) (st : AudioSynthPlaytune) :=
  {| tune_playing := tune_playing st; num_tgens_used := num_tgens_used st;
     amplitude_fraction := amplitude_fraction st;
     volume_present := volume_present st;
     num_tgens_playing_last := num_tgens_playing_last st;
     score_start := score_start st; score_cursor := score_cursor st;
     scorewait_samples := scorewait_samples st; tone_gen := tone_gen st;
     file_header := file_header st; seed := s |}.

Definition set_tune_playing (b : bool) (st : AudioSynthPlaytune) :=
  {| tune_playing := b; num_tgens_used := num_tgens_used st;
     amplitude_fraction := amplitude_fraction st;
     volume_present := volume_present st;
     num_tgens_playing_last := num_tgens_playing_last st;
     score_start := score_start st; score_cursor := score_cursor st;
     scorewait_samples := scorewait_samples st; tone_gen := tone_gen st;
     file_header := file_header st; seed := seed st |}.

Definition set_num_tgens_used (n : Z) (st : AudioSynthPlaytune) :=
  {| tune_playing := tune_playing st; num_tgens_used := n;
     amplitude_fraction := amplitude_fraction st;
     volume_present := volume_present st;
     num_tgens_playing_last := num_tgens_playing_last st;
     score_start := score_start st; score_cursor := score_cursor st;
     scorewait_samples := scorewait_samples st; tone_gen := tone_gen st;
     file_header := file_header st; seed := seed st |}.

Definition set_amplitude_fraction (a : Z) (st : AudioSynthPlaytune) :=
  {| tune_playing := tune_playing st; num_tgens_used := num_tgens_used st;
     amplitude_fraction := a;
     volume_present := volume_present st;
     num_tgens_playing_last := num_tgens_playing_last st;
     score_start := score_start st; score_cursor := score_cursor st;
     scorewait_samples := scorewait_samples st; tone_gen := tone_gen st;
     file_header := file_header st; seed := seed st |}.

Definition set_volume_present (b : bool) (st : AudioSynthPlaytune) :=
  {| tune_playing := tune_playing st; num_tgens_used := num_tgens_used st;
     amplitude_fraction := amplitude_fraction st;
     volume_present := b;
     num_tgens_playing_last := num_tgens_playing_last st;
     score_start := score_start st; score_cursor := score_cursor st;
     scorewait_samples := scorewait_samples st; tone_gen := tone_gen st;
     file_header := file_header st; seed := seed st |}.

Definition set_score_start (p : Z) (st : AudioSynthPlaytune) :=
  {| tune_playing := tune_playing st; num_tgens_used := num_tgens_used st;
     amplitude_fraction := amplitude_fraction st;
     volume_present := volume_present st;
     num_tgens_playing_last := num_tgens_playing_last st;
     score_start := p; score_cursor := score_cursor st;
     scorewait_samples := scorewait_samples st; tone_gen := tone_gen st;
     file_header := file_header st; seed := seed st |}.

Definition set_score_cursor (p : Z) (st : AudioSynthPlaytune) :=
  {| tune_playing := tune_playing st; num_tgens_used := num_tgens_used st;
     amplitude_fraction := amplitude_fraction st;
     volume_present := volume_present st;
     num_tgens_playing_last := num_tgens_playing_last st;
     score_start := score_start st; score_cursor := p;
     scorewait_samples := scorewait_samples st; tone_gen := tone_gen st;
     file_header := file_header st; seed := seed st |}.

Definition set_scorewait_samples (n : Z) (st : AudioSynthPlaytune) :=
  {| tune_playing := tune_playing st; num_tgens_used := num_tgens_used st;
     amplitude_fraction := amplitude_fraction st;
     volume_present := volume_present st;
     num_tgens_playing_last := num_tgens_playing_last st;
     score_start := score_start st; score_cursor := score_cursor st;
     scorewait_samples := n; tone_gen := tone_gen st;
     file_header := file_header st; seed := seed st |}.

Definition set_file_header (h : file_hdr_t) (st : AudioSynthPlaytune) :=
  {| tune_playing := tune_playing st; num_tgens_used := num_tgens_used st;
     amplitude_fraction := amplitude_fraction st;
     volume_present := volume_present st;
     num_tgens_playing_last := num_tgens_playing_last st;
     score_start := score_start st; score_cursor := score_cursor st;
     scorewait_samples := scorewait_samples st; tone_gen := tone_gen st;
     file_header := h; seed := seed st |}.

Definition set_playing (b : bool) (tg : tone_gen_t) : tone_gen_t :=
  {| tone_phase := tone_phase tg; tone_incr := tone_incr tg;
     volume_frac := volume_frac tg;
     drum_ending_sample_index := drum_ending_sample_index tg;
     instrument_index := instrument_index tg; playing := b;
     percussion := percussion tg; env_state := env_state tg;
     env_mult := env_mult tg; env_incr := env_incr tg;
     env_count := env_count tg; waveform_array := waveform_array tg |}.

Definition set_instrument_index (i : Z) (tg : tone_gen_t) : tone_gen_t :=
  {| tone_phase := tone_phase tg; tone_incr := tone_incr tg;
     volume_frac := volume_frac tg;
     drum_ending_sample_index := drum_ending_sample_index tg;
     instrument_index := i; playing := playing tg;
     percussion := percussion tg; env_state := env_state tg;
     env_mult := env_mult tg; env_incr := env_incr tg;
     env_count := env_count tg; waveform_array := waveform_array tg |}.

Definition set_tone_phase (p : Z) (tg : tone_gen_t) : tone_gen_t :=
  {| tone_phase := p; tone_incr := tone_incr tg;
     volume_frac := volume_frac tg;
     drum_ending_sample_index := drum_ending_sample_index tg;
     instrument_index := instrument_index tg; playing := playing tg;
     percussion := percussion tg; env_state := env_state tg;
     env_mult := env_mult tg; env_incr := env_incr tg;
     env_count := env_count tg; waveform_array := waveform_array tg |}.

Definition set_volume_frac (v : Z) (tg : tone_gen_t) : tone_gen_t :=
  {| tone_phase := tone_phase tg; tone_incr := tone_incr tg;
     volume_frac := v;
     drum_ending_sample_index := drum_ending_sample_index tg;
     instrument_index := instrument_index tg; playing := playing tg;
     percussion := percussion tg; env_state := env_state tg;
     env_mult := env_mult tg; env_incr := env_incr tg;
     env_count := env_count tg; waveform_array := waveform_array tg |}.

(** The four envelope variables are always written together. *)
Definition set_env (s : env_state_t) (mult incr count : Z) (tg : tone_gen_t)
  : tone_gen_t :=
  {| tone_phase := tone_phase tg; tone_incr := tone_incr tg;
     volume_frac := volume_frac tg;
     drum_ending_sample_index := drum_ending_sample_index tg;
     instrument_index := instrument_index tg; playing := playing tg;
     percussion := percussion tg; env_state := s;
     env_mult := mult; env_incr := incr;
     env_count := count; waveform_array := waveform_array tg |}.

(** ** synth_Playtune.cpp: tables *)

Definition MIN_NOTE : Z := 21.
Definition MAX_NOTE : Z := 108.

(** Well-tempered MIDI note frequencies * 4096, notes 21..108. *)
Definition freq4096 : list Z := [
  112640; 119338; 126434; 133952; 141918; 150356; 159297; 168769;
  178805; 189437; 200702; 212636; 225280; 238676; 252868; 267905;
  283835; 300713; 318594; 337539; 357610; 378874; 401403; 425272;
  450560; 477352; 505737; 535809; 567670; 601425; 637188; 675077;
  715219; 757749; 802807; 850544; 901120; 954703; 1011473; 1071618;
  1135340; 1202851; 1274376; 1350154; 1430439; 1515497; 1605613; 1701088;
  1802240; 1909407; 2022946; 2143237; 2270680; 2405702; 2548752; 2700309;
  2860878; 3030994; 3211227; 3402176; 3604480; 3818814; 4045892; 4286473;
  4541360; 4811404; 5097505; 5400618; 5721755; 6061989; 6422453; 6804352;
  7208960; 7637627; 8091784; 8572947; 9082720; 9622807; 10195009; 10801236;
  11443511; 12123977; 12844906; 13608704; 14417920; 15275254; 16183568;
  17145893 ].

(** 16-channel mixer levels, [fract16(x) = (int32_t)(x*65536.0)]. *)
Definition fract16 (x : Q) : Z := int32 (Qtrunc (x * 65536)).

Definition mixer_amplitude_fractions : list Z := [
  fract16 1;
  fract16 1; fract16 (60 # 100); fract16 (50 # 100); fract16 (40 # 100);
  fract16 (30 # 100); fract16 (25 # 100); fract16 (23 # 100);
  fract16 (20 # 100);
  fract16 (18 # 100); fract16 (16 # 100); fract16 (15 # 100);
  fract16 (14 # 100); fract16 (13 # 100); fract16 (12 # 100);
  fract16 (11 # 100); fract16 (10 # 100) ].

Record instrument_waveform_t : Type := {
  waveforms : waveform;
  delay : Z;
  attack : Z;
  hold : Z;
  decay : Z;
  release : Z;
  sustain_level : Z
}.

Definition ms2cnt (rate : Q) (ms : Q) : Z := int32 (Qtrunc (ms * rate / 1000)).
Definition lv2fr (lv : Q) : Z := int32 (Qtrunc (lv * 65536)).
Definition DF_DL : Q := 0.
Definition DF_AT : Q := 10.
Definition DF_HL : Q := 2.
Definition DF_DC : Q := 30.
Definition DF_RL : Q := 30.
Definition DF_LV : Q := 60 # 100.

(** An initializer of the source's [instrument_waveforms[]]; all of them
    share the default envelope except for the release time. *)
Definition instrument_entry (rate : Q) (w : waveform) (release_ms : Q)
  : instrument_waveform_t :=
  {| waveforms := w; delay := ms2cnt rate DF_DL; attack := ms2cnt rate DF_AT;
     hold := ms2cnt rate DF_HL; decay := ms2cnt rate DF_DC;
     release := ms2cnt rate release_ms; sustain_level := lv2fr DF_LV |}.

(** The table as the source initializes it, for a given [AUDIO_SAMPLE_RATE]. *)
Definition shipped_instrument_waveforms (rate : Q)
  : list instrument_waveform_t := [
  instrument_entry rate waveform_aguitar_0033 DF_RL;
  instrument_entry rate waveform_altosax_0001 DF_RL;
  instrument_entry rate waveform_birds_0011 DF_RL;
  instrument_entry rate waveform_cello_0005 DF_RL;
  instrument_entry rate waveform_clarinett_0001 DF_RL;
  instrument_entry rate waveform_clavinet_0021 DF_RL;
  instrument_entry rate waveform_dbass_0015 DF_RL;
  instrument_entry rate waveform_ebass_0037 DF_RL;
  instrument_entry rate waveform_eguitar_0002 DF_RL;
  instrument_entry rate waveform_eorgan_0064 DF_RL;
  instrument_entry rate waveform_epiano_0044 DF_RL;
  instrument_entry rate waveform_flute_0001 DF_RL;
  instrument_entry rate waveform_oboe_0002 DF_RL;
  instrument_entry rate waveform_piano_0013 60;
  instrument_entry rate waveform_violin_0003 DF_RL ].

Definition I_AGUITAR : Z := 0.
Definition I_SAX : Z := 1.
Definition I_BIRDS : Z := 2.
Definition I_CELLO : Z := 3.
Definition I_CLARINET : Z := 4.
Definition I_CLAVINET : Z := 5.
Definition I_DBASS : Z := 6.
Definition I_EBASS : Z := 7.
Definition I_EGUITAR : Z := 8.
Definition I_ORGAN : Z := 9.
Definition I_EPIANO : Z := 10.
Definition I_FLUTE : Z := 11.
Definition I_OBOE : Z := 12.
Definition I_PIANO : Z := 13.
Definition I_VIOLIN : Z := 14.

Definition instrument_patch_map : list Z := [
  I_DBASS; I_DBASS; I_EBASS; I_DBASS; I_EBASS; I_EBASS; I_EBASS; I_EBASS;
  I_CLAVINET; I_CLAVINET; I_CLAVINET; I_CLAVINET; I_CLAVINET; I_CLAVINET; I_CLAVINET; I_CLAVINET;
  I_ORGAN; I_ORGAN; I_ORGAN; I_ORGAN; I_ORGAN; I_ORGAN; I_ORGAN; I_ORGAN;
  I_AGUITAR; I_EGUITAR; I_EGUITAR; I_EGUITAR; I_EGUITAR; I_EGUITAR; I_EGUITAR; I_AGUITAR;
  I_DBASS; I_EBASS; I_EBASS; I_DBASS; I_DBASS; I_DBASS; I_EBASS; I_EBASS;
  I_VIOLIN; I_VIOLIN; I_CELLO; I_CELLO; I_VIOLIN; I_VIOLIN; I_VIOLIN; I_VIOLIN;
  I_VIOLIN; I_VIOLIN; I_VIOLIN; I_VIOLIN; I_VIOLIN; I_VIOLIN; I_VIOLIN; I_VIOLIN;
  I_DBASS; I_DBASS; I_DBASS; I_DBASS; I_DBASS; I_DBASS; I_DBASS; I_DBASS;
  I_SAX; I_SAX; I_SAX; I_OBOE; I_OBOE; I_SAX; I_SAX; I_OBOE;
  I_FLUTE; I_FLUTE; I_FLUTE; I_FLUTE; I_FLUTE; I_FLUTE; I_FLUTE; I_FLUTE;
  I_EGUITAR; I_EGUITAR; I_EGUITAR; I_EGUITAR; I_EGUITAR; I_EGUITAR; I_EGUITAR; I_EGUITAR;
  I_VIOLIN; I_VIOLIN; I_VIOLIN; I_VIOLIN; I_VIOLIN; I_VIOLIN; I_VIOLIN; I_VIOLIN;
  I_BIRDS; I_BIRDS; I_BIRDS; I_BIRDS; I_BIRDS; I_BIRDS; I_BIRDS; I_BIRDS;
  I_ORGAN; I_ORGAN; I_ORGAN; I_ORGAN; I_ORGAN; I_ORGAN; I_ORGAN; I_ORGAN;
  I_EBASS; I_EBASS; I_EBASS; I_EBASS; I_EBASS; I_EBASS; I_EBASS; I_EBASS;
  I_BIRDS; I_BIRDS; I_BIRDS; I_BIRDS; I_BIRDS; I_BIRDS; I_BIRDS; I_BIRDS ].

(** The drum waveform pointers, with the [NULL] stopper. *)
Definition drum_waveforms : list (option waveform) := [
  Some waveform_base_drum_04; Some waveform_snare_drum_1;
  Some waveform_mid_high_tom; Some waveform_cymbal_2; Some waveform_hi_bongo;
  Some waveform_steel_bell_c6; None ].

Definition drum_waveform_frequencies : list Z :=
  [ 4000; 8000; 8000; 8000; 4000; 4000 ].

Definition D_BASS : Z := 0.
Definition D_SNARE : Z := 1.
Definition D_TOM : Z := 2.
Definition D_CYMBAL : Z := 3.
Definition D_BONGO : Z := 4.
Definition D_BELL : Z := 5.

Definition drum_patch_map : list Z := [
  D_BASS; D_SNARE; D_TOM; D_CYMBAL; D_BONGO; D_BELL; D_BASS; D_BASS; D_BASS; D_BASS; D_BASS; D_BASS; D_BASS; D_BASS; D_BASS; D_BASS;
  D_BASS; D_BASS; D_BASS; D_BASS; D_BASS; D_BASS; D_BASS; D_BASS; D_BASS; D_BASS; D_BASS; D_BASS; D_BASS; D_BASS; D_BASS; D_BASS;
  D_BASS; D_BASS; D_BASS; D_BASS; D_BASS; D_SNARE; D_SNARE; D_SNARE; D_TOM; D_CYMBAL; D_TOM; D_CYMBAL; D_TOM; D_CYMBAL; D_TOM; D_TOM;
  D_CYMBAL; D_TOM; D_CYMBAL; D_CYMBAL; D_BELL; D_SNARE; D_CYMBAL; D_BELL; D_CYMBAL; D_CYMBAL; D_CYMBAL; D_BONGO; D_BONGO; D_BONGO; D_BONGO; D_BONGO;
  D_TOM; D_TOM; D_BELL; D_BELL; D_CYMBAL; D_CYMBAL; D_BELL; D_BELL; D_BONGO; D_BONGO; D_BONGO; D_BONGO; D_BONGO; D_TOM; D_TOM; D_BELL;
  D_BELL; D_BASS; D_BASS; D_BASS; D_BASS; D_BASS; D_BASS; D_BASS; D_BASS; D_BASS; D_BASS; D_BASS; D_BASS; D_BASS; D_BASS; D_BASS;
  D_BASS; D_BASS; D_BASS; D_BASS; D_BASS; D_BASS; D_BASS; D_BASS; D_BASS; D_BASS; D_BASS; D_BASS; D_BASS; D_BASS; D_BASS; D_BASS;
  D_BASS; D_BASS; D_BASS; D_BASS; D_BASS; D_BASS; D_BASS; D_BASS; D_BASS; D_BASS; D_BASS; D_BASS; D_BASS; D_BASS; D_BASS; D_BASS ].

(** ** What the source takes from outside

    - [AUDIO_SAMPLE_RATE], [AUDIO_BLOCK_SAMPLES]: AudioStream.h of the Teensy
      audio library (a floating-point constant, here a rational);
    - [signed_multiply_32x16b]: utility/dspinst.h of that library;
    - [flash_byte], [flash_word]: the contents of PROGMEM, by address for the
      score and by array and element for the waveforms;
    - [drum_waveform_size]: synth_Playtune_waves.c;
    - [instrument_waveforms]: initialized in the source from
      [AUDIO_SAMPLE_RATE] ([shipped_instrument_waveforms]) and meant to be
      edited per instrument. *)
Class Platform : Type := {
  AUDIO_SAMPLE_RATE : Q;
  AUDIO_BLOCK_SAMPLES : nat;
  signed_multiply_32x16b : Z -> Z -> Z;
  flash_byte : Z -> Z;
  flash_word : waveform -> Z -> Z;
  drum_waveform_size : list Z;
  instrument_waveforms : list instrument_waveform_t
}.

(** The multiply of dspinst.h as that header documents it:
    [(((int64_t)a[31:0] * (int64_t)b[15:0]) >> 16)]. *)
Definition smulwb (a b : Z) : Z := int32 (Z.shiftr (int32 a * int16 b) 16).

(** ** Random byte generator *)

Definition random_byte (seed : Z) : Z :=
  let seed := uint8 (Z.lxor seed (uint8 (Z.shiftl seed 7))) in
  let seed := uint8 (Z.lxor seed (uint8 (Z.shiftr seed 5))) in
  let seed := uint8 (Z.lxor seed (uint8 (Z.shiftl seed 3))) in
  seed.

Section Engine.
Context `{P : Platform}.

Definition pgm_read_byte (addr : Z) : Z := uint8 (flash_byte addr).
Definition pgm_read_word (w : waveform) (i : Z) : Z := uint16 (flash_word w i).

(** ** tune_playnote *)

Definition tune_playnote (tgen note vol : Z) (st : AudioSynthPlaytune)
  : result AudioSynthPlaytune :=
  if tgen <? MAX_TGENS then
    do tg <- index (tone_gen st) tgen;
    do '(tg, vol, seed') <-
      (if 128 <=? note then
         (* percussion instrument *)
         do drum_enum <- index drum_patch_map (note - 128);
         do wopt <- index drum_waveforms drum_enum;
         do w <- match wopt with Some w => Ret w | None => Undefined end;
         do freq <- index drum_waveform_frequencies drum_enum;
         do incr <- (if Qeq_bool AUDIO_SAMPLE_RATE 0 then Undefined
                     else Ret (int32 (Qtrunc (QofZ (freq * 0x20000)
                                              / AUDIO_SAMPLE_RATE))));
         do size <- index drum_waveform_size drum_enum;
         let vol := if BOOST_PERCUSSION
                    then (if 63 <? vol then 127 else uint8 (Z.shiftl vol 1))
                    else vol in
         Ret ({| tone_phase := 0; tone_incr := incr;
                 volume_frac := volume_frac tg;
                 drum_ending_sample_index := uint16 (size - 1);
                 instrument_index := instrument_index tg;
                 playing := playing tg; percussion := true;
                 env_state := env_state tg; env_mult := 0x10000;
                 env_incr := 0; env_count := env_count tg;
                 waveform_array := w |}, vol, seed st)
       else
         (* regular instrument *)
         let note := if note <? MIN_NOTE then MIN_NOTE else note in
         let note := if MAX_NOTE <? note then MAX_NOTE else note in
         do iw <- index instrument_waveforms (instrument_index tg);
         do freq <- index freq4096 (note - MIN_NOTE);
         do incr <- c_div (uint64 (freq * 0x80000))
                          (uint64 (Qtrunc AUDIO_SAMPLE_RATE));
         let r := random_byte (seed st) in
         Ret ({| tone_phase := int32 (Z.shiftl r 23); tone_incr := int32 incr;
                 volume_frac := volume_frac tg;
                 drum_ending_sample_index := drum_ending_sample_index tg;
                 instrument_index := instrument_index tg;
                 playing := playing tg; percussion := false;
                 env_state := ENV_DELAY; env_mult := 0;
                 env_incr := 0; env_count := delay iw;
                 waveform_array := waveforms iw |}, vol, r));
    let tg := set_volume_frac (int32 (Z.shiftl (Z.land vol 0x7f + 1) 9)) tg in
    let tg := set_playing true tg in
    Ret (set_seed seed'
           (set_tone_gen (<[Z.to_nat tgen := tg]> (tone_gen st)) st))
  else Ret st.

(** ** tune_stopnote *)

(** The body of [tune_stopnote] on the generator [*tg]. *)
Definition stop_tone_gen (tg : tone_gen_t) : result tone_gen_t :=
  if playing tg then
    if negb (percussion tg) then
      (* start release phase of a normal instrument note *)
      do iw <- index instrument_waveforms (instrument_index tg);
      let count := release iw in
      let mult := sustain_level iw in
      do incr <- c_div (int32 (- mult)) count;
      Ret (set_env ENV_RELEASE mult (int32 incr) count tg)
    else Ret (set_playing false tg)
  else Ret tg.

Definition tune_stopnote (tgen : Z) (st : AudioSynthPlaytune)
  : result AudioSynthPlaytune :=
  if tgen <? MAX_TGENS then
    do tg <- index (tone_gen st) tgen;
    do tg' <- stop_tone_gen tg;
    Ret (set_tone_gen (<[Z.to_nat tgen := tg']> (tone_gen st)) st)
  else Ret st.

(** ** tune_stopscore, stop, isPlaying *)

(** [for (i = from; i < from + n; ++i) body(i);] *)
Fixpoint for_each (n : nat) (i : Z)
    (body : Z -> AudioSynthPlaytune -> result AudioSynthPlaytune)
    (st : AudioSynthPlaytune) : result AudioSynthPlaytune :=
  match n with
  | O => Ret st
  | S n' => do st' <- body i st; for_each n' (i + 1) body st'
  end.

Definition tune_stopscore (st : AudioSynthPlaytune)
  : result AudioSynthPlaytune :=
  do st' <- for_each (Z.to_nat MAX_TGENS) 0 tune_stopnote st;
  Ret (set_tune_playing false st').

Definition stop (st : AudioSynthPlaytune) : result AudioSynthPlaytune :=
  tune_stopscore st.

Definition isPlaying (st : AudioSynthPlaytune) : bool := tune_playing st.

(** ** tune_stepscore *)

Definition tune_setinstrument (tgen instrument_index : Z)
    (st : AudioSynthPlaytune) : result AudioSynthPlaytune :=
  do tg <- index (tone_gen st) tgen;
  Ret (set_tone_gen
         (<[Z.to_nat tgen := set_instrument_index instrument_index tg]>
            (tone_gen st)) st).

(** One round of the [while (1)] loop of [tune_stepscore]: the state after
    the command at the cursor, and whether the loop goes on. *)
Definition tune_stepscore_cmd (st : AudioSynthPlaytune)
  : result (AudioSynthPlaytune * bool) :=
  let cmd := pgm_read_byte (score_cursor st) in
  let st := set_score_cursor (score_cursor st + 1) st in
  if cmd <? 0x80 then
    (* wait count in msec. *)
    let lo := pgm_read_byte (score_cursor st) in
    let st := set_score_cursor (score_cursor st + 1) st in
    let scorewait_msec := int32 (Z.lor (uint32 (Z.shiftl cmd 8)) lo) in
    let samples :=
      Z.quot (uint64 (uint64 (int32 (scorewait_msec * 1000))
                      * uint64 (Qtrunc (AUDIO_SAMPLE_RATE + (1 # 2)))))
             1000000 in
    Ret (set_scorewait_samples (uint32 samples) st, false)
  else
    let opcode := Z.land cmd 0xf0 in
    let tgen := Z.land cmd 0x0f in
    if opcode =? CMD_STOPNOTE then
      do st <- tune_stopnote tgen st; Ret (st, true)
    else if opcode =? CMD_PLAYNOTE then
      let note := pgm_read_byte (score_cursor st) in
      let st := set_score_cursor (score_cursor st + 1) st in
      let vol := if volume_present st then pgm_read_byte (score_cursor st)
                 else 127 in
      let st := if volume_present st
                then set_score_cursor (score_cursor st + 1) st else st in
      do st <- tune_playnote tgen note vol st; Ret (st, true)
    else if opcode =? CMD_INSTRUMENT then
      let i := pgm_read_byte (score_cursor st) in
      let st := set_score_cursor (score_cursor st + 1) st in
      do instrument <- index instrument_patch_map i;
      do st <- tune_setinstrument tgen instrument st; Ret (st, true)
    else if opcode =? CMD_RESTART then
      Ret (set_score_cursor (score_start st) st, true)
    else if opcode =? CMD_STOP then
      do st <- stop st; Ret (st, false)
    else Ret (st, true).

Fixpoint tune_stepscore (fuel : nat) (st : AudioSynthPlaytune)
  : result AudioSynthPlaytune :=
  match fuel with
  | O => OutOfFuel
  | S fuel' =>
      do '(st', again) <- tune_stepscore_cmd st;
      if again then tune_stepscore fuel' st' else Ret st'
  end.

(** ** tune_playscore, play *)

(** [tune_playscore] up to the call of [tune_stepscore]: the previous score
    is stopped, the defaults are set and the optional header is read. *)
Definition tune_playscore_header (score : Z) (st : AudioSynthPlaytune)
  : result AudioSynthPlaytune :=
  do st <- (if tune_playing st then stop st else Ret st);
  let st := set_score_start score st in
  let st := set_volume_present ASSUME_VOLUME st in
  let st := set_num_tgens_used MAX_TGENS st in
  do st <- for_each (Z.to_nat MAX_TGENS) 0
             (fun tgen st => tune_setinstrument tgen I_PIANO st) st;
  (* look for the optional file header *)
  let hdr := {| id1 := pgm_read_byte score; id2 := pgm_read_byte (score + 1);
                hdr_length := pgm_read_byte (score + 2);
                f1 := pgm_read_byte (score + 3);
                f2 := pgm_read_byte (score + 4);
                num_tgens := pgm_read_byte (score + 5) |} in
  let st := set_file_header hdr st in
  let st :=
    if (id1 hdr =? 0x50) && (id2 hdr =? 0x74) then (* 'P', 't' *)
      let st := set_volume_present
                  (negb (Z.land (f1 hdr) HDR_F1_VOLUME_PRESENT =? 0)) st in
      let st := set_num_tgens_used
                  (Z.max 1 (Z.min MAX_TGENS (num_tgens hdr))) st in
      set_score_start (score_start st + hdr_length hdr) st
    else st in
  do amplitude <- index mixer_amplitude_fractions (num_tgens_used st);
  let st := set_amplitude_fraction amplitude st in
  Ret (set_score_cursor (score_start st) st).

Definition tune_playscore (fuel : nat) (score : Z) (st : AudioSynthPlaytune)
  : result AudioSynthPlaytune :=
  do st <- tune_playscore_header score st;
  do st <- tune_stepscore fuel st;
  Ret (set_tune_playing true st).

Definition play2 (fuel : nat) (score : Z) (num_tgens : Z)
    (st : AudioSynthPlaytune) : result AudioSynthPlaytune :=
  let st := set_num_tgens_used (uint8 num_tgens) st in
  tune_playscore fuel score st.

Definition play (fuel : nat) (score : Z) (st : AudioSynthPlaytune)
  : result AudioSynthPlaytune :=
  play2 fuel score MAX_TGENS st.

(** ** update *)

Definition set_env_count (count : Z) (tg : tone_gen_t) : tone_gen_t :=
  set_env (env_state tg) (env_mult tg) (env_incr tg) count tg.

Definition set_env_mult (mult : Z) (tg : tone_gen_t) : tone_gen_t :=
  set_env (env_state tg) mult (env_incr tg) (env_count tg) tg.

(** One round of [while (tg->env_count == 0) switch (tg->env_state)]. *)
Definition envelope_switch (tg : tone_gen_t) : result tone_gen_t :=
  match env_state tg with
  | ENV_IDLE => Ret (set_env_count INT_MAX tg)
  | ENV_DELAY =>
      do iw <- index instrument_waveforms (instrument_index tg);
      let count := attack iw in
      do incr <- c_div 0x10000 count; (* ratchet up to maximum volume *)
      Ret (set_env ENV_ATTACK (env_mult tg) incr count tg)
  | ENV_ATTACK =>
      do iw <- index instrument_waveforms (instrument_index tg);
      Ret (set_env ENV_HOLD 0x10000 0 (hold iw) tg)
  | ENV_HOLD =>
      do iw <- index instrument_waveforms (instrument_index tg);
      let count := decay iw in
      (* count down to the sustain volume level *)
      do incr <- c_div (int32 (sustain_level iw - 0x10000)) count;
      Ret (set_env ENV_DECAY 0x10000 (int32 incr) count tg)
  | ENV_DECAY =>
      do iw <- index instrument_waveforms (instrument_index tg);
      Ret (set_env ENV_SUSTAIN (sustain_level iw) 0 INT_MAX tg)
  | ENV_SUSTAIN => Ret (set_env_count INT_MAX tg)
  | ENV_RELEASE =>
      Ret (set_playing false
             (set_env ENV_IDLE (env_mult tg) (env_incr tg) (env_count tg) tg))
  end.

(** The loop: change to a state with a non-zero count. *)
Fixpoint envelope (fuel : nat) (tg : tone_gen_t) : result tone_gen_t :=
  if env_count tg =? 0 then
    match fuel with
    | O => OutOfFuel
    | S fuel' => do tg' <- envelope_switch tg; envelope fuel' tg'
    end
  else Ret tg.

(** The indices [index1], [index2] into the waveform array and the
    interpolation weight [scale] of a generator for the current sample. *)
Definition wave_index (tg : tone_gen_t) : Z * Z * Z :=
  if percussion tg then
    let index1 := uint32 (Z.shiftr (tone_phase tg) 17) in
    let index2 := uint32 (index1 + 1) in
    let scale := uint32 (Z.land (Z.shiftr (tone_phase tg) 1) 0xFFFF) in
    (index1, index2, scale)
  else
    let index1 := uint32 (Z.shiftr (tone_phase tg) 23) in
    let index2 := uint32 (Z.land (index1 + 1) 0xff) in
    let scale := uint32 (Z.land (Z.shiftr (tone_phase tg) 7) 0xFFFF) in
    (index1, index2, scale).

(** The body of the loop over the tone generators, for one generator that is
    playing: the generator afterwards and what it adds to [level]. *)
Definition update_tgen (fuel : nat) (amplitude_fraction : Z) (tg : tone_gen_t)
  : result (tone_gen_t * Z) :=
  if playing tg then
    let '(index1, index2, scale) := wave_index tg in
    do tg <-
      (if percussion tg then
         (* end of percussion waveform; stop playing soon *)
         Ret (if drum_ending_sample_index tg <=? index2
              then set_playing false tg else tg)
       else
         do tg <- envelope fuel tg;
         (* count towards the next envelope state *)
         Ret (set_env_count (int32 (env_count tg - 1)) tg));
    (* linear interpolation between the samples that bracket the point *)
    let val1 := int16 (pgm_read_word (waveform_array tg) index1) in
    let val1 := int32 (val1 * uint32 (0xFFFF - scale)) in
    let val2 := int16 (pgm_read_word (waveform_array tg) index2) in
    let val2 := int32 (val2 * scale) in
    let our_level := Z.shiftr (int32 (val1 + val2)) 16 in
    let tg := set_tone_phase
                (Z.land (int32 (tone_phase tg + tone_incr tg)) 0x7fffffff)
                tg in
    let our_level := signed_multiply_32x16b (env_mult tg) our_level in
    let tg := set_env_mult (int32 (env_mult tg + env_incr tg)) tg in
    Ret (tg, signed_multiply_32x16b (volume_frac tg)
               (signed_multiply_32x16b amplitude_fraction our_level))
  else Ret (tg, 0).

(** [for (byte tgen = from; tgen < from + n; ++tgen)] over the generators,
    accumulating [level]. *)
Fixpoint mix (fuel : nat) (amplitude_fraction : Z) (n : nat) (tgen : Z)
    (tgs : list tone_gen_t) (level : Z) : result (list tone_gen_t * Z) :=
  match n with
  | O => Ret (tgs, level)
  | S n' =>
      do tg <- index tgs tgen;
      do '(tg', our) <- update_tgen fuel amplitude_fraction tg;
      mix fuel amplitude_fraction n' (tgen + 1)
          (<[Z.to_nat tgen := tg']> tgs) (int32 (level + our))
  end.

(** One round of the loop over the samples of a block: the state afterwards
    and the value stored in [block->data[sample]]. *)
Definition update_sample (fuel : nat) (st : AudioSynthPlaytune)
  : result (AudioSynthPlaytune * Z) :=
  do st <-
    (if tune_playing st && negb (scorewait_samples st =? 0) then
       let st := set_scorewait_samples
                   (uint32 (scorewait_samples st - 1)) st in
       if scorewait_samples st =? 0
       then tune_stepscore fuel st (* end of a score wait *)
       else Ret st
     else Ret st);
  do '(tgs, level) <- mix fuel (amplitude_fraction st)
                          (Z.to_nat (num_tgens_used st)) 0 (tone_gen st) 0;
  Ret (set_tone_gen tgs st, int16 level).

(** [n] samples in a row, with the values stored. *)
Fixpoint render (fuel : nat) (n : nat) (st : AudioSynthPlaytune)
  : result (AudioSynthPlaytune * list Z) :=
  match n with
  | O => Ret (st, [])
  | S n' =>
      do '(st, x) <- update_sample fuel st;
      do '(st, xs) <- render fuel n' st;
      Ret (st, x :: xs)
  end.

(** [update]. [block] tells whether [allocate()] returned a block; the
    result holds the samples transmitted in it, if any. *)
Definition update (fuel : nat) (block : bool) (st : AudioSynthPlaytune)
  : result (AudioSynthPlaytune * option (list Z)) :=
  if block then
    do '(st, xs) <- render fuel AUDIO_BLOCK_SAMPLES st;
    Ret (st, Some xs)
  else Ret (st, None).

(** [n] samples of a single generator in a row. *)
Fixpoint update_tgen_n (fuel : nat) (amplitude_fraction : Z) (n : nat)
    (tg : tone_gen_t) : result tone_gen_t :=
  match n with
  | O => Ret tg
  | S n' =>
      do '(tg', _) <- update_tgen fuel amplitude_fraction tg;
      update_tgen_n fuel amplitude_fraction n' tg'
  end.

End Engine.

(** ** Well-formed engines *)

Section Ready.
Context `{P : Platform}.

(** An instrument whose attack, decay and release counts can be divided by. *)
Definition instrument_ready (iw : instrument_waveform_t) : bool :=
  negb (attack iw =? 0) && negb (decay iw =? 0) && negb (release iw =? 0).

Definition voice_ready (tg : tone_gen_t) : bool :=
  match index instrument_waveforms (instrument_index tg) with
  | Ret iw => instrument_ready iw
  | _ => false
  end.

(** All [MAX_TGENS] generators exist and refer to such an instrument. *)
Definition engine_ready (st : AudioSynthPlaytune) : bool :=
  (length (tone_gen st) =? 16)%nat && forallb voice_ready (tone_gen st).

(** The values [seed] takes: 23 and what [random_byte] makes of it. *)
Inductive seed_reachable : Z -> Prop :=
| seed_initial : seed_reachable 23
| seed_next (s : Z) : seed_reachable s -> seed_reachable (random_byte s).

(** The states of one generator from a note-on onwards: samples, note-offs
    and instrument changes. *)
Inductive sounding : tone_gen_t -> Prop :=
| sounding_playnote (tgen note vol : Z) (st st' : AudioSynthPlaytune)
    (tg : tone_gen_t) :
    0 <= tgen < MAX_TGENS ->
    tune_playnote tgen note vol st = Ret st' ->
    tone_gen st' !! Z.to_nat tgen = Some tg ->
    sounding tg
| sounding_update (fuel : nat) (amplitude : Z) (tg tg' : tone_gen_t)
    (our : Z) :
    sounding tg ->
    update_tgen fuel amplitude tg = Ret (tg', our) ->
    sounding tg'
| sounding_stopnote (tg tg' : tone_gen_t) :
    sounding tg ->
    stop_tone_gen tg = Ret tg' ->
    sounding tg'
| sounding_setinstrument (tg : tone_gen_t) (i : Z) :
    sounding tg ->
    sounding (set_instrument_index i tg).

(** The drum a percussion generator plays and the size of its table. *)
Definition plays_drum (tg : tone_gen_t) (size : Z) : Prop :=
  exists drum_enum : Z,
    index drum_waveforms drum_enum = Ret (Some (waveform_array tg)) /\
    index drum_waveform_size drum_enum = Ret size /\
    drum_ending_sample_index tg = size - 1.

(** The loop of [tune_stopscore]: after [k] rounds the generators below [k]
    have been through [stop_tone_gen], the others are as before. *)
Definition stopped_below (st : AudioSynthPlaytune) (k : nat)
    (s : AudioSynthPlaytune) : Prop :=
  s = set_tone_gen (tone_gen s) st /\
  length (tone_gen s) = 16%nat /\
  forall j tg, tone_gen st !! j = Some tg ->
    exists tg', tone_gen s !! j = Some tg' /\ voice_ready tg' = true /\
      if (j <? k)%nat then stop_tone_gen tg = Ret tg' else tg' = tg.

(** What the commands of a score leave alone: the settings taken from the
    header. *)
Definition same_config (st st' : AudioSynthPlaytune) : Prop :=
  volume_present st' = volume_present st /\
  num_tgens_used st' = num_tgens_used st /\
  amplitude_fraction st' = amplitude_fraction st /\
  score_start st' = score_start st.

(** A melodic generator in its release phase: multiplier [m], [c] samples
    to go, [d] taken off the multiplier with each sample. *)
Definition releasing (d : Z) (tg : tone_gen_t) (m c : Z) : Prop :=
  playing tg = true /\ percussion tg = false /\
  env_state tg = ENV_RELEASE /\ env_mult tg = m /\ env_incr tg = - d /\
  env_count tg = c.

(** What the waveform file and AudioStream.h have to provide for the drums:
    tables of 2 to 65536 samples, and an output rate no slower than the
    fastest drum recording (8000 Hz). *)
Definition drums_fit : bool :=
  forallb (fun size => (2 <=? size) && (size <=? 65536)) drum_waveform_size
  && Qle_bool 8000 AUDIO_SAMPLE_RATE.

(** A generator whose next sample stays inside its waveform table. *)
Definition in_table (tg : tone_gen_t) : Prop :=
  0 <= tone_phase tg < 2 ^ 31 /\
  (percussion tg = true -> playing tg = true ->
   0 <= tone_incr tg <= 2 ^ 17 /\
   exists size : Z,
     plays_drum tg size /\ 2 <= size <= 65536 /\
     Z.shiftr (tone_phase tg) 17 + 1 <= size - 1).

(** The envelope states whose round of the envelope loop ends the loop. *)
Definition settles (s : env_state_t) : bool :=
  match s with
  | ENV_ATTACK | ENV_RELEASE => false
  | _ => true
  end.

(** [tg'] is a later state of the generator [tg] in which a melodic note
    that was sounding and not released is still so. *)
Definition persists (tg tg' : tone_gen_t) : Prop :=
  voice_ready tg' = true /\
  (playing tg = true -> percussion tg = false ->
   env_state tg <> ENV_RELEASE ->
   playing tg' = true /\ percussion tg' = false /\
   env_state tg' <> ENV_RELEASE).

(** The test that opens a sample of [update],
    [tune_playing && scorewait_samples && --scorewait_samples == 0]:
    whether this sample steps the score. *)
Definition decodes_now (st : AudioSynthPlaytune) : bool :=
  tune_playing st && negb (scorewait_samples st =? 0)
  && (uint32 (scorewait_samples st - 1) =? 0).

(** [scorewait_samples] after that test. *)
Definition scorewait_after (st : AudioSynthPlaytune) : Z :=
  if tune_playing st && negb (scorewait_samples st =? 0)
  then uint32 (scorewait_samples st - 1)
  else scorewait_samples st.

(** Every instrument releases within [rmax] samples, from a sustain level
    that fits 32 bits. *)
Definition releases_within (rmax : Z) : bool :=
  forallb (fun iw => (0 <? release iw) && (release iw <=? rmax)
                     && (0 <=? sustain_level iw)
                     && (sustain_level iw <? 2 ^ 31))
    instrument_waveforms.

(** What the decoder needs of the platform: a sample rate that does not
    truncate to 0, sizes for the six drums, and at least the fifteen
    instruments of the patch map, each with nonzero attack, decay and
    release counts. *)
Definition platform_ready : bool :=
  negb (Qeq_bool AUDIO_SAMPLE_RATE 0)
  && negb (uint64 (Qtrunc AUDIO_SAMPLE_RATE) =? 0)
  && (6 <=? length drum_waveform_size)%nat
  && (15 <=? length instrument_waveforms)%nat
  && forallb instrument_ready (take 15 instrument_waveforms).

(** A melodic generator in envelope state [s] with multiplier [m], increment
    [i] and [c] samples left of the state. *)
Definition ramping (s : env_state_t) (i : Z) (tg : tone_gen_t) (m c : Z)
  : Prop :=
  playing tg = true /\ percussion tg = false /\
  env_state tg = s /\ env_mult tg = m /\ env_incr tg = i /\
  env_count tg = c.

End Ready.

(** ** Concrete platforms and engines *)

(** The sample rate and block size of the Teensy 3 audio library. *)
Definition teensy_rate : Q := 4411764706 # 100000.

(** A score stored from address 0 on. *)
Definition flash_of (bytes : list Z) (addr : Z) : Z :=
  if addr <? 0 then 0 else nth (Z.to_nat addr) bytes 0.

(** A full-scale square wave in every table. *)
Definition square_wave (_ : waveform) (i : Z) : Z :=
  if i <? 128 then 32767 else -32767.

Definition teensy (score : list Z) (instruments : list instrument_waveform_t)
  : Platform :=
  {| AUDIO_SAMPLE_RATE := teensy_rate; AUDIO_BLOCK_SAMPLES := 128;
     signed_multiply_32x16b := smulwb; flash_byte := flash_of score;
     flash_word := square_wave;
     drum_waveform_size := [200; 200; 200; 200; 200; 200];
     instrument_waveforms := instruments |}.

Definition teensy_shipped (score : list Z) : Platform :=
  teensy score (shipped_instrument_waveforms teensy_rate).

(** The object as its member initializers leave it, in zeroed storage. *)
Definition idle_tone_gen : tone_gen_t :=
  {| tone_phase := 0; tone_incr := 0; volume_frac := 0;
     drum_ending_sample_index := 0; instrument_index := 0; playing := false;
     percussion := false; env_state := ENV_IDLE; env_mult := 0;
     env_incr := 0; env_count := 0; waveform_array := waveform_aguitar_0033 |}.

Definition idle_engine : AudioSynthPlaytune :=
  {| tune_playing := false; num_tgens_used := MAX_TGENS;
     amplitude_fraction := 0x10000; volume_present := ASSUME_VOLUME;
     num_tgens_playing_last := 0; score_start := 0; score_cursor := 0;
     scorewait_samples := 0; tone_gen := replicate 16 idle_tone_gen;
     file_header := {| id1 := 0; id2 := 0; hdr_length := 0; f1 := 0; f2 := 0;
                       num_tgens := 0 |};
     seed := 23 |}.

(** What a [result] holds, with a default. *)
Definition result_get {A : Type} (d : A) (m : result A) : A :=
  match m with Ret a => a | _ => d end.

(** The generator [tgen] of an engine. *)
Definition tgen_of (tgen : nat) (st : AudioSynthPlaytune) : tone_gen_t :=
  default idle_tone_gen (tone_gen st !! tgen).

(** *** Example scores and the engines they lead to *)

(** A headerless score: note 60 on generator 0, a wait of 100 ms, stop. *)
Definition one_note_score : list Z := [0x90; 60; 0x00; 0x64; 0xf0].
Definition one_note_platform : Platform := teensy_shipped one_note_score.

(** The engine after [play(one_note_score)], after 100 more samples (the
    note is in its attack), and after [stop()] at that point. *)
Definition one_note_engine : AudioSynthPlaytune :=
  result_get idle_engine (@play one_note_platform 10 0 idle_engine).
Definition one_note_attack_engine : AudioSynthPlaytune :=
  fst (result_get (idle_engine, [])
         (@render one_note_platform 10 100 one_note_engine)).
Definition one_note_stopped_engine : AudioSynthPlaytune :=
  result_get idle_engine (@stop one_note_platform one_note_attack_engine).

(** The generator of that note after its note-off and the 2647 samples of
    the piano's release. *)
Definition one_note_released : tone_gen_t :=
  result_get idle_tone_gen
    (@update_tgen_n one_note_platform 10 6553 2647
       (tgen_of 0 one_note_stopped_engine)).

(** A score with a header for two generators and no velocity bytes: the
    bass drum on generators 0 and 1 at once, a wait of 100 ms, stop. *)
Definition two_drums_score : list Z :=
  [0x50; 0x74; 6; 0; 0; 2; 0x90; 128; 0x91; 128; 0x00; 0x64; 0xf0].
Definition two_drums_platform : Platform := teensy_shipped two_drums_score.
Definition two_drums_engine : AudioSynthPlaytune :=
  result_get idle_engine (@play two_drums_platform 10 0 idle_engine).

(** A score with the header 'P','t',6,0x80,0,4. *)
Definition header_score : list Z :=
  [0x50; 0x74; 6; 0x80; 0; 4; 0x90; 60; 100; 0x00; 0x64; 0xf0].
Definition header_platform : Platform := teensy_shipped header_score.

(** A score that repeats: after the wait comes a restart command. *)
Definition restart_score : list Z := [0x90; 60; 0x00; 0x64; 0xe0].
Definition restart_platform : Platform := teensy_shipped restart_score.
Definition restart_engine : AudioSynthPlaytune :=
  result_get idle_engine (@play restart_platform 10 0 idle_engine).

(** A score with a wait of 0 ms after a note and a drum. *)
Definition zero_wait_score : list Z :=
  [0x90; 60; 0x91; 128; 0x00; 0x00; 0x80; 0x00; 0x64; 0xf0].
Definition zero_wait_platform : Platform := teensy_shipped zero_wait_score.
Definition zero_wait_engine : AudioSynthPlaytune :=
  result_get idle_engine (@play zero_wait_platform 10 0 idle_engine).
Definition zero_wait_later_engine : AudioSynthPlaytune :=
  fst (result_get (idle_engine, [])
         (@render zero_wait_platform 10 2400 zero_wait_engine)).


(** A melodic and a percussion note-on on the idle engine. *)
Definition note_on_engine : AudioSynthPlaytune :=
  result_get idle_engine (@tune_playnote one_note_platform 0 60 127 idle_engine).
Definition drum_on_engine : AudioSynthPlaytune :=
  result_get idle_engine
    (@tune_playnote one_note_platform 1 128 127 idle_engine).

(** The same note on generator 1 right after that on generator 0: a chord
    of two voices of the same pitch. *)
Definition chord_engine : AudioSynthPlaytune :=
  result_get idle_engine
    (@tune_playnote one_note_platform 1 60 127 note_on_engine).

(** The bytes that [n] successive calls of [random_byte()] return, from a
    given value of [seed]. *)
Fixpoint random_bytes (n : nat) (seed : Z) : list Z :=
  match n with
  | O => []
  | S n' => let r := random_byte seed in r :: random_bytes n' r
  end.

(** A score that changes generator 0 to MIDI patch 41 (a violin) before
    its note. *)
Definition instrument_score : list Z :=
  [0xc0; 40; 0x90; 60; 0x00; 0x64; 0xf0].
Definition instrument_platform : Platform := teensy_shipped instrument_score.

(** A score that is over before its first wait: nothing but a stop. *)
Definition no_wait_score : list Z := [0xf0].
Definition no_wait_platform : Platform := teensy_shipped no_wait_score.

(** * Properties *)

(** ** Fixed-width arithmetic *)

Lemma sint_small (w x : Z) :
  0 < w -> - 2 ^ (w - 1) <= x < 2 ^ (w - 1) -> sint w x = x.
Proof.
  intros Hw Hx. unfold sint.
  assert (E : 2 ^ w = 2 * 2 ^ (w - 1)).
  { rewrite <- Z.pow_succ_r by lia. f_equal. lia. }
  rewrite Z.mod_small by lia. lia.
Qed.

Lemma int32_small (x : Z) : - 2 ^ 31 <= x < 2 ^ 31 -> int32 x = x.
Proof. intros. apply sint_small; [lia | assumption]. Qed.

Lemma int16_small (x : Z) : - 2 ^ 15 <= x < 2 ^ 15 -> int16 x = x.
Proof. intros. apply sint_small; [lia | assumption]. Qed.

Lemma uint_small (w x : Z) : 0 <= x < 2 ^ w -> uint w x = x.
Proof. intros. unfold uint. apply Z.mod_small. assumption. Qed.

Lemma uint_range (w x : Z) : 0 <= w -> 0 <= uint w x < 2 ^ w.
Proof. intros. unfold uint. apply Z.mod_pos_bound. apply Z.pow_pos_nonneg; lia. Qed.

Lemma uint8_range (x : Z) : 0 <= uint8 x < 256.
Proof. apply (uint_range 8). lia. Qed.

Lemma sint_range (w x : Z) :
  0 < w -> - 2 ^ (w - 1) <= sint w x < 2 ^ (w - 1).
Proof.
  intros Hw. unfold sint.
  assert (E : 2 ^ w = 2 * 2 ^ (w - 1)).
  { rewrite <- Z.pow_succ_r by lia. f_equal. lia. }
  assert (0 < 2 ^ (w - 1)) by (apply Z.pow_pos_nonneg; lia).
  pose proof (Z.mod_pos_bound (x + 2 ^ (w - 1)) (2 ^ w)). lia.
Qed.

(** [int32] changes its argument by a multiple of 2^32 only. *)
Lemma int32_mod_pow2_31 (x : Z) : int32 x mod 2 ^ 31 = x mod 2 ^ 31.
Proof.
  unfold int32, sint. change (32 - 1) with 31.
  rewrite (Z.mod_eq (x + 2 ^ 31) (2 ^ 32)) by lia.
  replace (x + 2 ^ 31 - 2 ^ 32 * ((x + 2 ^ 31) / 2 ^ 32) - 2 ^ 31)
    with (x + (- 2 * ((x + 2 ^ 31) / 2 ^ 32)) * 2 ^ 31) by lia.
  apply Z.mod_add. lia.
Qed.

Lemma land_phase_mask (x : Z) : Z.land x 0x7fffffff = x mod 2 ^ 31.
Proof. change 0x7fffffff with (Z.ones 31). apply Z.land_ones. lia. Qed.

(** ** Indexing *)

Lemma index_lookup {A : Type} (l : list A) (i : Z) (a : A) :
  0 <= i -> l !! Z.to_nat i = Some a -> index l i = Ret a.
Proof.
  intros Hi Hl. unfold index.
  destruct (Z.ltb_spec i 0); [lia |]. rewrite Hl. reflexivity.
Qed.

Lemma index_Ret {A : Type} (l : list A) (i : Z) (a : A) :
  index l i = Ret a -> 0 <= i /\ l !! Z.to_nat i = Some a.
Proof.
  unfold index. destruct (Z.ltb_spec i 0); [discriminate |].
  destruct (l !! Z.to_nat i); [| discriminate].
  intros [= ->]. split; [assumption | reflexivity].
Qed.

Lemma index_in_range {A : Type} (l : list A) (i : Z) :
  0 <= i < Z.of_nat (length l) -> exists a, index l i = Ret a.
Proof.
  intros Hi. destruct (lookup_lt_is_Some_2 l (Z.to_nat i)) as [a Ha]; [lia |].
  exists a. apply index_lookup; [lia | assumption].
Qed.

(** ** The random byte generator (claim C8) *)

Lemma random_byte_nonzero (s : Z) : 0 < s < 256 -> 0 < random_byte s < 256.
Proof.
  intros Hs.
  assert (H : forallb (fun n => let r := random_byte (Z.of_nat n) in
                                (0 <? r) && (r <? 256)) (seq 1 255) = true)
    by (vm_compute; reflexivity).
  rewrite forallb_forall in H. specialize (H (Z.to_nat s)).
  rewrite Z2Nat.id in H by lia. cbv zeta in H.
  assert (Hin : In (Z.to_nat s) (seq 1 255)) by (apply in_seq; lia).
  apply H in Hin. apply andb_prop in Hin as [H1 H2]. lia.
Qed.

Lemma random_byte_range (s : Z) : 0 <= random_byte s < 256.
Proof. unfold random_byte. apply uint8_range. Qed.

Lemma seed_reachable_nonzero (s : Z) : seed_reachable s -> 0 < s < 256.
Proof.
  induction 1 as [| s _ IH]; [lia | apply random_byte_nonzero; exact IH].
Qed.

Lemma clamped_note_frequency (note : Z) :
  let note1 := if note <? MIN_NOTE then MIN_NOTE else note in
  let note2 := if MAX_NOTE <? note1 then MAX_NOTE else note1 in
  exists freq, index freq4096 (note2 - MIN_NOTE) = Ret freq.
Proof.
  cbv zeta. apply index_in_range.
  change (Z.of_nat (length freq4096)) with 88. unfold MIN_NOTE, MAX_NOTE.
  destruct (Z.ltb_spec note 21); destruct (Z.ltb_spec 108 21);
    try destruct (Z.ltb_spec 108 note); lia.
Qed.

Section NoteOn.
Context `{P : Platform}.

(** A melodic note-on on a generator with a valid instrument succeeds,
    draws the next random byte [r] and leaves the phase at [r << 23]. *)
Lemma melodic_note_on_draws_phase
    (st : AudioSynthPlaytune) (tgen note vol : Z) (tg : tone_gen_t)
    (iw : instrument_waveform_t) :
  seed_reachable (seed st) ->
  0 <= tgen < MAX_TGENS -> note < 128 ->
  tone_gen st !! Z.to_nat tgen = Some tg ->
  index instrument_waveforms (instrument_index tg) = Ret iw ->
  uint64 (Qtrunc AUDIO_SAMPLE_RATE) <> 0 ->
  exists (st' : AudioSynthPlaytune) (tg' : tone_gen_t),
    tune_playnote tgen note vol st = Ret st' /\
    tone_gen st' !! Z.to_nat tgen = Some tg' /\
    seed st' = random_byte (seed st) /\
    seed_reachable (seed st') /\
    tone_phase tg' = Z.shiftl (seed st') 23 /\
    0 < tone_phase tg' < 2 ^ 31 /\
    playing tg' = true /\ percussion tg' = false.
Proof.
  intros Hseed Htgen Hnote Htg Hiw Hrate.
  pose proof (seed_reachable_nonzero _ (seed_next _ Hseed)) as Hr.
  destruct (clamped_note_frequency note) as [freq Hfreq]. cbv zeta in Hfreq.
  unfold tune_playnote.
  destruct (Z.ltb_spec tgen MAX_TGENS) as [_ | ?]; [| lia].
  rewrite (index_lookup _ _ _ (proj1 Htgen) Htg). cbn [bind].
  destruct (Z.leb_spec 128 note) as [? | _]; [lia |].
  rewrite Hiw. cbn [bind]. rewrite Hfreq. cbn [bind].
  unfold c_div. destruct (Z.eqb_spec (uint64 (Qtrunc AUDIO_SAMPLE_RATE)) 0)
    as [? | _]; [contradiction |].
  cbn [bind].
  assert (Hphase : int32 (Z.shiftl (random_byte (seed st)) 23)
                   = Z.shiftl (random_byte (seed st)) 23).
  { apply int32_small. rewrite Z.shiftl_mul_pow2 by lia. lia. }
  eexists _, _. split; [reflexivity |]. split.
  { cbn [tone_gen set_seed set_tone_gen].
    apply list_lookup_insert_eq. eapply lookup_lt_Some. exact Htg. }
  cbn [seed set_seed tone_phase percussion playing set_playing
       set_volume_frac].
  rewrite Hphase.
  repeat split; try reflexivity.
  - constructor. exact Hseed.
  - rewrite Z.shiftl_mul_pow2 by lia. lia.
  - rewrite Z.shiftl_mul_pow2 by lia. lia.
Qed.

End NoteOn.

(** ** Bytes *)

Lemma byte_cases (f : Z -> bool) :
  forallb (fun n => f (Z.of_nat n)) (seq 0 256) = true ->
  forall c, 0 <= c < 256 -> f c = true.
Proof.
  intros H c Hc. rewrite forallb_forall in H.
  specialize (H (Z.to_nat c)). rewrite Z2Nat.id in H by lia.
  apply H. apply in_seq. lia.
Qed.

Lemma command_byte_high_bit (c op : Z) :
  0 <= c < 256 -> 0x80 <= op -> Z.land c 0xf0 = op -> (c <? 0x80) = false.
Proof.
  intros Hc Hop <-.
  pose proof (byte_cases
                (fun c => negb ((c <? 0x80) && (0x80 <=? Z.land c 0xf0)))
                ltac:(vm_compute; reflexivity) c Hc) as H.
  cbv beta in H.
  destruct (Z.ltb_spec c 0x80); [| reflexivity].
  destruct (Z.leb_spec 0x80 (Z.land c 0xf0)); [discriminate H | lia].
Qed.

Section Sequencer.
Context `{P : Platform}.

Lemma pgm_read_byte_range (addr : Z) : 0 <= pgm_read_byte addr < 256.
Proof. apply uint8_range. Qed.

(** ** Loops over the generators *)

Lemma for_each_invariant (Inv : nat -> AudioSynthPlaytune -> Prop)
    (body : Z -> AudioSynthPlaytune -> result AudioSynthPlaytune)
    (n : nat) (i0 : Z) (st : AudioSynthPlaytune) :
  Inv 0%nat st ->
  (forall k s, (k < n)%nat -> Inv k s ->
     exists s', body (i0 + Z.of_nat k) s = Ret s' /\ Inv (S k) s') ->
  exists st', for_each n i0 body st = Ret st' /\ Inv n st'.
Proof.
  revert Inv i0 st. induction n as [| n IH]; intros Inv i0 st H0 Hstep.
  - exists st. split; [reflexivity | exact H0].
  - destruct (Hstep 0%nat st) as (s' & Hb & Hi); [lia | exact H0 |].
    rewrite Z.add_0_r in Hb. cbn [for_each]. rewrite Hb. cbn [bind].
    apply (IH (fun k => Inv (S k))); [exact Hi |].
    intros k s Hk HI. destruct (Hstep (S k) s) as (s2 & Hb2 & Hi2);
      [lia | exact HI |].
    exists s2. split; [| exact Hi2].
    rewrite <- Hb2. f_equal. lia.
Qed.

(** ** Ready engines *)

Lemma engine_ready_length (st : AudioSynthPlaytune) :
  engine_ready st = true -> length (tone_gen st) = 16%nat.
Proof.
  unfold engine_ready. intros H. apply andb_prop in H as [H _].
  apply Nat.eqb_eq. exact H.
Qed.

Lemma engine_ready_voice (st : AudioSynthPlaytune) (i : nat) (tg : tone_gen_t) :
  engine_ready st = true -> tone_gen st !! i = Some tg -> voice_ready tg = true.
Proof.
  unfold engine_ready. intros H Hi. apply andb_prop in H as [_ H].
  rewrite forallb_forall in H. apply H.
  apply list_elem_of_In. eapply list_elem_of_lookup_2. exact Hi.
Qed.

Lemma engine_ready_intro (st : AudioSynthPlaytune) :
  length (tone_gen st) = 16%nat ->
  (forall i tg, tone_gen st !! i = Some tg -> voice_ready tg = true) ->
  engine_ready st = true.
Proof.
  intros Hlen Hall. unfold engine_ready. apply andb_true_intro. split.
  - apply Nat.eqb_eq. exact Hlen.
  - apply forallb_forall. intros tg Hin.
    apply list_elem_of_In in Hin. apply list_elem_of_lookup_1 in Hin as [i Hi].
    eapply Hall. exact Hi.
Qed.

Lemma voice_ready_instrument (tg : tone_gen_t) :
  voice_ready tg = true ->
  exists iw, index instrument_waveforms (instrument_index tg) = Ret iw /\
             attack iw <> 0 /\ decay iw <> 0 /\ release iw <> 0.
Proof.
  unfold voice_ready, instrument_ready.
  destruct (index instrument_waveforms (instrument_index tg)) as [iw | |];
    try discriminate.
  intros H. apply andb_prop in H as [H H3]. apply andb_prop in H as [H1 H2].
  exists iw. repeat split; try reflexivity; intros E; rewrite E in *;
    discriminate.
Qed.

(** ** tune_stopnote on one generator *)

(** What [stop_tone_gen] makes of a generator with a usable instrument. *)
Lemma stop_tone_gen_ready (tg : tone_gen_t) :
  voice_ready tg = true ->
  exists tg', stop_tone_gen tg = Ret tg' /\
    voice_ready tg' = true /\
    if playing tg then
      if percussion tg then tg' = set_playing false tg
      else exists iw,
          index instrument_waveforms (instrument_index tg) = Ret iw /\
          tg' = set_env ENV_RELEASE (sustain_level iw)
                  (int32 (Z.quot (int32 (- sustain_level iw)) (release iw)))
                  (release iw) tg
    else tg' = tg.
Proof.
  intros Hr. pose proof Hr as Hr'.
  apply voice_ready_instrument in Hr' as (iw & Hiw & _ & _ & Hrel).
  unfold stop_tone_gen. destruct (playing tg); [| eauto].
  destruct (percussion tg); cbn [negb].
  - eexists. split; [reflexivity |]. split; [exact Hr | reflexivity].
  - rewrite Hiw. cbn [bind]. unfold c_div.
    destruct (Z.eqb_spec (release iw) 0) as [? | _]; [contradiction |].
    cbn [bind]. eexists. split; [reflexivity |]. split; [exact Hr |].
    exists iw. split; reflexivity.
Qed.

End Sequencer.

Section Stop.
Context `{P : Platform}.

Lemma tune_stopnote_at (st : AudioSynthPlaytune) (tgen : Z)
    (tg tg' : tone_gen_t) :
  0 <= tgen < MAX_TGENS ->
  tone_gen st !! Z.to_nat tgen = Some tg ->
  stop_tone_gen tg = Ret tg' ->
  tune_stopnote tgen st
  = Ret (set_tone_gen (<[Z.to_nat tgen := tg']> (tone_gen st)) st).
Proof.
  intros Htgen Htg Hstop. unfold tune_stopnote.
  destruct (Z.ltb_spec tgen MAX_TGENS); [| lia].
  rewrite (index_lookup _ _ _ (proj1 Htgen) Htg). cbn [bind].
  rewrite Hstop. reflexivity.
Qed.

Lemma stopped_below_step (st : AudioSynthPlaytune) (k : nat)
    (s : AudioSynthPlaytune) :
  engine_ready st = true -> (k < 16)%nat -> stopped_below st k s ->
  exists s', tune_stopnote (0 + Z.of_nat k) s = Ret s' /\
             stopped_below st (S k) s'.
Proof.
  intros Hst Hk (Hs & Hlen & Hall).
  pose proof (engine_ready_length _ Hst) as Hlen0.
  destruct (lookup_lt_is_Some_2 (tone_gen st) k) as [tg Htg]; [lia |].
  destruct (Hall k tg Htg) as (tg1 & Htg1 & Hr1 & Hsame).
  rewrite Nat.ltb_irrefl in Hsame. subst tg1.
  destruct (stop_tone_gen_ready tg Hr1) as (tg' & Hstop & Hr' & _).
  rewrite Z.add_0_l.
  eexists. split.
  { apply tune_stopnote_at with (tg := tg); [unfold MAX_TGENS; lia | |
                                             exact Hstop].
    rewrite Nat2Z.id. exact Htg1. }
  rewrite Nat2Z.id. split; [| split].
  - cbn [tone_gen set_tone_gen]. rewrite Hs at 2. reflexivity.
  - cbn [tone_gen set_tone_gen]. rewrite length_insert. exact Hlen.
  - intros j tgj Htgj. cbn [tone_gen set_tone_gen].
    destruct (Nat.eq_dec j k) as [-> | Hne].
    + exists tg'. rewrite list_lookup_insert_eq by lia.
      split; [reflexivity |]. split; [exact Hr' |].
      assert (tgj = tg) by congruence. subst tgj.
      destruct (Nat.ltb_spec k (S k)); [exact Hstop | lia].
    + rewrite list_lookup_insert_ne by congruence.
      destruct (Hall j tgj Htgj) as (tg2 & Htg2 & Hr2 & Hcase).
      exists tg2. split; [exact Htg2 |]. split; [exact Hr2 |].
      destruct (Nat.ltb_spec j k); destruct (Nat.ltb_spec j (S k));
        try lia; exact Hcase.
Qed.

Lemma stopped_below_start (st : AudioSynthPlaytune) :
  engine_ready st = true -> stopped_below st 0 st.
Proof.
  intros Hst. split; [destruct st; reflexivity |].
  split; [apply engine_ready_length; exact Hst |].
  intros j tg Htg. exists tg. split; [exact Htg |].
  split; [eapply engine_ready_voice; eassumption | reflexivity].
Qed.

(** [stop()] on a well-formed engine. *)
Lemma stop_ready (st : AudioSynthPlaytune) :
  engine_ready st = true ->
  exists st' : AudioSynthPlaytune,
    stop st = Ret st' /\ isPlaying st' = false /\
    st' = set_tune_playing false (set_tone_gen (tone_gen st') st) /\
    engine_ready st' = true /\
    forall (i : nat) (tg : tone_gen_t),
      tone_gen st !! i = Some tg ->
      exists tg' : tone_gen_t,
        tone_gen st' !! i = Some tg' /\ stop_tone_gen tg = Ret tg'.
Proof.
  intros Hst. unfold stop, tune_stopscore.
  destruct (for_each_invariant (stopped_below st) tune_stopnote
              (Z.to_nat MAX_TGENS) 0 st) as (s & Hloop & Hs & Hlen & Hall).
  { apply stopped_below_start. exact Hst. }
  { intros k s Hk. apply stopped_below_step; [exact Hst |].
    change (Z.to_nat MAX_TGENS) with 16%nat in Hk. exact Hk. }
  rewrite Hloop. cbn [bind]. eexists. split; [reflexivity |].
  split; [reflexivity |]. split.
  { cbn [tone_gen set_tune_playing]. rewrite Hs at 1. reflexivity. }
  split.
  { apply engine_ready_intro; cbn [tone_gen set_tune_playing];
      [exact Hlen |].
    intros i tg' Htg'.
    destruct (lookup_lt_is_Some_2 (tone_gen st) i) as [tg Htg].
    { rewrite (engine_ready_length _ Hst), <- Hlen.
      eapply lookup_lt_Some. exact Htg'. }
    destruct (Hall i tg Htg) as (tg2 & Htg2 & Hr2 & _). congruence. }
  intros i tg Htg. cbn [tone_gen set_tune_playing].
  destruct (Hall i tg Htg) as (tg' & Htg' & _ & Hcase).
  exists tg'. split; [exact Htg' |].
  assert (Hi : (i < 16)%nat).
  { rewrite <- (engine_ready_length _ Hst). eapply lookup_lt_Some.
    exact Htg. }
  change (Z.to_nat MAX_TGENS) with 16%nat in Hcase.
  destruct (Nat.ltb_spec i 16); [exact Hcase | lia].
Qed.

(** C1, as amended. [stop()] on a well-formed engine returns with playback
    marked inactive and nothing but the generators changed; inactive
    generators stay as they are, percussion generators are deactivated, and
    every active melodic generator stays active, put into [ENV_RELEASE] at
    its instrument's sustain level for [release] samples. A decoded
    [CMD_STOP] is that same [stop()] and ends the decoding loop. *)
Theorem stop_halts_score_and_releases_voices :
  (forall st : AudioSynthPlaytune,
     engine_ready st = true ->
     exists st' : AudioSynthPlaytune,
       stop st = Ret st' /\ isPlaying st' = false /\
       st' = set_tune_playing false (set_tone_gen (tone_gen st') st) /\
       forall (i : nat) (tg : tone_gen_t),
         tone_gen st !! i = Some tg ->
         exists tg' : tone_gen_t,
           tone_gen st' !! i = Some tg' /\
           if playing tg then
             if percussion tg then tg' = set_playing false tg
             else exists iw : instrument_waveform_t,
                 index instrument_waveforms (instrument_index tg) = Ret iw /\
                 playing tg' = true /\
                 tg' = set_env ENV_RELEASE (sustain_level iw)
                         (int32 (Z.quot (int32 (- sustain_level iw))
                                        (release iw)))
                         (release iw) tg
           else tg' = tg) /\
  (forall st : AudioSynthPlaytune,
     Z.land (pgm_read_byte (score_cursor st)) 0xf0 = CMD_STOP ->
     tune_stepscore_cmd st
     = (do st' <- stop (set_score_cursor (score_cursor st + 1) st);
        Ret (st', false))).
Proof.
  split.
  - intros st Hst.
    destruct (stop_ready st Hst) as (st' & Hstop & Hplay & Hframe & _ & Hall).
    exists st'. split; [exact Hstop |]. split; [exact Hplay |].
    split; [exact Hframe |].
    intros i tg Htg. destruct (Hall i tg Htg) as (tg' & Htg' & Hstop').
    exists tg'. split; [exact Htg' |].
    destruct (stop_tone_gen_ready tg (engine_ready_voice _ _ _ Hst Htg))
      as (tg2 & Hstop2 & _ & Hdesc).
    assert (tg2 = tg') by congruence. subst tg2.
    destruct (playing tg) eqn:Hplaying; [| exact Hdesc].
    destruct (percussion tg); [exact Hdesc |].
    destruct Hdesc as (iw & Hiw & ->). exists iw.
    split; [exact Hiw |]. split; [exact Hplaying | reflexivity].
  - intros st Hcmd. unfold tune_stepscore_cmd.
    rewrite (command_byte_high_bit _ CMD_STOP (pgm_read_byte_range _)
               ltac:(unfold CMD_STOP; lia) Hcmd).
    rewrite Hcmd. reflexivity.
Qed.

End Stop.

(** ** What the score commands leave alone *)

Ltac bind_inv H :=
  repeat match type of H with
    | bind ?m _ = Ret _ =>
        let E := fresh "E" in
        destruct m eqn:E; cbn [bind] in H;
        [| discriminate H | discriminate H]
    | (let '(_, _) := ?p in _) = Ret _ => destruct p
    end.

Section Frame.
Context `{P : Platform}.

Lemma same_config_refl (st : AudioSynthPlaytune) : same_config st st.
Proof. repeat split. Qed.

Lemma same_config_trans (a b c : AudioSynthPlaytune) :
  same_config a b -> same_config b c -> same_config a c.
Proof.
  unfold same_config. intros (H1 & H2 & H3 & H4) (H5 & H6 & H7 & H8).
  repeat split; congruence.
Qed.

Lemma tune_stopnote_config (tgen : Z) (st st' : AudioSynthPlaytune) :
  tune_stopnote tgen st = Ret st' -> same_config st st'.
Proof.
  unfold tune_stopnote. intros H.
  destruct (tgen <? MAX_TGENS); [| injection H as <-; repeat split].
  bind_inv H. injection H as <-. repeat split.
Qed.

Lemma tune_playnote_config (tgen note vol : Z) (st st' : AudioSynthPlaytune) :
  tune_playnote tgen note vol st = Ret st' -> same_config st st'.
Proof.
  unfold tune_playnote. intros H.
  destruct (tgen <? MAX_TGENS); [| injection H as <-; repeat split].
  bind_inv H. injection H as <-. repeat split.
Qed.

Lemma tune_setinstrument_config (tgen i : Z) (st st' : AudioSynthPlaytune) :
  tune_setinstrument tgen i st = Ret st' -> same_config st st'.
Proof.
  unfold tune_setinstrument. intros H. bind_inv H.
  injection H as <-. repeat split.
Qed.

Lemma for_each_config
    (body : Z -> AudioSynthPlaytune -> result AudioSynthPlaytune) :
  (forall i s s', body i s = Ret s' -> same_config s s') ->
  forall n i st st', for_each n i body st = Ret st' -> same_config st st'.
Proof.
  intros Hbody. induction n as [| n IH]; intros i st st' H; cbn [for_each] in H.
  - injection H as <-. apply same_config_refl.
  - bind_inv H. eapply same_config_trans; [eapply Hbody | eapply IH];
      eassumption.
Qed.

Lemma stop_config (st st' : AudioSynthPlaytune) :
  stop st = Ret st' -> same_config st st'.
Proof.
  unfold stop, tune_stopscore. intros H. bind_inv H. injection H as <-.
  apply (for_each_config _ tune_stopnote_config) in E.
  destruct E as (H1 & H2 & H3 & H4). repeat split; assumption.
Qed.

Lemma tune_stepscore_cmd_config (st st' : AudioSynthPlaytune) (again : bool) :
  tune_stepscore_cmd st = Ret (st', again) -> same_config st st'.
Proof.
  unfold tune_stepscore_cmd. intros H.
  destruct (_ <? 0x80). { injection H as <- _. repeat split. }
  destruct (_ =? CMD_STOPNOTE).
  { bind_inv H. injection H as <- _. apply tune_stopnote_config in E.
    exact E. }
  destruct (_ =? CMD_PLAYNOTE).
  { bind_inv H. injection H as <- _. apply tune_playnote_config in E.
    destruct E as (H1 & H2 & H3 & H4).
    cbn [volume_present set_score_cursor] in *.
    destruct (volume_present st); repeat split; assumption. }
  destruct (_ =? CMD_INSTRUMENT).
  { bind_inv H. injection H as <- _. apply tune_setinstrument_config in E0.
    exact E0. }
  destruct (_ =? CMD_RESTART). { injection H as <- _. repeat split. }
  destruct (_ =? CMD_STOP).
  { bind_inv H. injection H as <- _. apply stop_config in E. exact E. }
  injection H as <- _. repeat split.
Qed.

Lemma tune_stepscore_config (fuel : nat) (st st' : AudioSynthPlaytune) :
  tune_stepscore fuel st = Ret st' -> same_config st st'.
Proof.
  revert st. induction fuel as [| fuel IH]; intros st H;
    cbn [tune_stepscore] in H; [discriminate |].
  destruct (tune_stepscore_cmd st) as [[s again] | |] eqn:E;
    cbn [bind] in H; try discriminate.
  apply tune_stepscore_cmd_config in E. destruct again.
  - eapply same_config_trans; [exact E | apply IH; exact H].
  - injection H as <-. exact E.
Qed.

Lemma update_sample_config (fuel : nat) (st st' : AudioSynthPlaytune)
    (x : Z) :
  update_sample fuel st = Ret (st', x) -> same_config st st'.
Proof.
  unfold update_sample. intros H.
  match type of H with bind ?m _ = _ => destruct m as [a | |] eqn:E end;
    cbn [bind] in H; try discriminate.
  bind_inv H. injection H as <- _.
  assert (Ha : same_config st a).
  { destruct (tune_playing st && negb (scorewait_samples st =? 0)).
    - cbn [scorewait_samples set_scorewait_samples] in E.
      destruct (_ =? 0).
      + apply tune_stepscore_config in E. exact E.
      + injection E as <-. repeat split.
    - injection E as <-. apply same_config_refl. }
  destruct Ha as (H1 & H2 & H3 & H4). repeat split; assumption.
Qed.

(** ** play with a generator count (claim C10) *)

Lemma tune_stopnote_num_tgens_used (tgen n : Z) (st : AudioSynthPlaytune) :
  tune_stopnote tgen (set_num_tgens_used n st)
  = (do st' <- tune_stopnote tgen st; Ret (set_num_tgens_used n st')).
Proof.
  unfold tune_stopnote. destruct (tgen <? MAX_TGENS); [| reflexivity].
  cbn [tone_gen set_num_tgens_used].
  destruct (index (tone_gen st) tgen) as [tg | |]; cbn [bind];
    try reflexivity.
  destruct (stop_tone_gen tg); reflexivity.
Qed.

Lemma for_each_stopnote_num_tgens_used (k : nat) (i n : Z)
    (st : AudioSynthPlaytune) :
  for_each k i tune_stopnote (set_num_tgens_used n st)
  = (do st' <- for_each k i tune_stopnote st; Ret (set_num_tgens_used n st')).
Proof.
  revert i st. induction k as [| k IH]; intros i st; [reflexivity |].
  cbn [for_each]. rewrite tune_stopnote_num_tgens_used.
  destruct (tune_stopnote i st) as [s | |]; cbn [bind]; try reflexivity.
  apply IH.
Qed.

Lemma tune_playscore_header_num_tgens_used (score n : Z)
    (st : AudioSynthPlaytune) :
  tune_playscore_header score (set_num_tgens_used n st)
  = tune_playscore_header score st.
Proof.
  unfold tune_playscore_header. cbn [tune_playing set_num_tgens_used].
  destruct (tune_playing st); [| reflexivity].
  unfold stop, tune_stopscore. rewrite for_each_stopnote_num_tgens_used.
  destruct (for_each (Z.to_nat MAX_TGENS) 0 tune_stopnote st);
    reflexivity.
Qed.

(** C10. [play(score, n)] and [play(score)] leave the engine in the same
    state, or fail alike, whatever [n] is: [tune_playscore] overwrites
    [num_tgens_used] before anything reads it. *)
Theorem play_ignores_generator_count :
  forall (fuel : nat) (score n : Z) (st : AudioSynthPlaytune),
    play2 fuel score n st = play fuel score st.
Proof.
  intros fuel score n st. unfold play, play2, tune_playscore.
  rewrite !tune_playscore_header_num_tgens_used. reflexivity.
Qed.

End Frame.

(** ** The score header (claim C3) and the restart command (claim C7) *)

Section Header.
Context `{P : Platform}.

Lemma setinstrument_loop (i : Z) (st : AudioSynthPlaytune) :
  length (tone_gen st) = 16%nat ->
  exists st', for_each (Z.to_nat MAX_TGENS) 0
                (fun tgen s => tune_setinstrument tgen i s) st = Ret st' /\
              st' = set_tone_gen (tone_gen st') st.
Proof.
  intros Hlen.
  destruct (for_each_invariant
              (fun _ s => s = set_tone_gen (tone_gen s) st /\
                          length (tone_gen s) = 16%nat)
              (fun tgen s => tune_setinstrument tgen i s)
              (Z.to_nat MAX_TGENS) 0 st) as (st' & Hloop & Hst' & _).
  - split; [destruct st; reflexivity | exact Hlen].
  - intros k s Hk [Hs Hlens].
    change (Z.to_nat MAX_TGENS) with 16%nat in Hk.
    unfold tune_setinstrument.
    destruct (index_in_range (tone_gen s) (0 + Z.of_nat k)) as [tg Htg];
      [lia |].
    rewrite Htg. cbn [bind]. eexists. split; [reflexivity |].
    cbn [tone_gen set_tone_gen]. split.
    + rewrite Hs at 2. reflexivity.
    + rewrite length_insert. exact Hlens.
  - exists st'. split; [exact Hloop | exact Hst'].
Qed.

Lemma mixer_level_exists (n : Z) :
  exists a, index mixer_amplitude_fractions (Z.max 1 (Z.min MAX_TGENS n))
            = Ret a.
Proof.
  apply index_in_range.
  change (Z.of_nat (length mixer_amplitude_fractions)) with 17.
  unfold MAX_TGENS. lia.
Qed.

(** The header part of [tune_playscore] on a well-formed engine. *)
Lemma tune_playscore_header_ready (score : Z) (st : AudioSynthPlaytune) :
  engine_ready st = true ->
  exists h : AudioSynthPlaytune,
    tune_playscore_header score st = Ret h /\
    score_cursor h = score_start h /\
    index mixer_amplitude_fractions (num_tgens_used h)
    = Ret (amplitude_fraction h) /\
    if (pgm_read_byte score =? 0x50) && (pgm_read_byte (score + 1) =? 0x74)
    then
      volume_present h
      = negb (Z.land (pgm_read_byte (score + 3)) HDR_F1_VOLUME_PRESENT =? 0) /\
      num_tgens_used h
      = Z.max 1 (Z.min MAX_TGENS (pgm_read_byte (score + 5))) /\
      score_start h = score + pgm_read_byte (score + 2)
    else
      volume_present h = false /\ num_tgens_used h = MAX_TGENS /\
      score_start h = score.
Proof.
  intros Hst. unfold tune_playscore_header.
  assert (Hstop : exists st1,
             (if tune_playing st then stop st else Ret st) = Ret st1 /\
             length (tone_gen st1) = 16%nat).
  { destruct (tune_playing st).
    - destruct (stop_ready st Hst) as (st1 & H1 & _ & _ & Hr & _).
      exists st1. split; [exact H1 | apply engine_ready_length; exact Hr].
    - exists st. split; [reflexivity | apply engine_ready_length; exact Hst]. }
  destruct Hstop as (st1 & -> & Hlen1). cbn [bind].
  match goal with
  | |- context [for_each _ _ _ ?s] =>
      destruct (setinstrument_loop I_PIANO s Hlen1) as (st3 & -> & Hst3)
  end.
  cbn [bind]. cbn [id1 id2 f1 hdr_length num_tgens].
  destruct ((pgm_read_byte score =? 0x50) && (pgm_read_byte (score + 1) =? 0x74)).
  - cbn [num_tgens_used set_num_tgens_used set_score_start
         set_volume_present set_file_header].
    destruct (mixer_level_exists (pgm_read_byte (score + 5))) as [a Ha].
    rewrite Ha. cbn [bind]. eexists. split; [reflexivity |].
    cbn. rewrite Hst3. cbn. repeat split; try reflexivity. exact Ha.
  - rewrite Hst3.
    cbn [num_tgens_used set_num_tgens_used set_score_start
         set_volume_present set_file_header set_tone_gen].
    destruct (mixer_level_exists 16) as [a Ha].
    change (Z.max 1 (Z.min MAX_TGENS 16)) with MAX_TGENS in Ha.
    rewrite Ha. cbn [bind]. eexists. split; [reflexivity |].
    cbn. repeat split; try reflexivity. exact Ha.
Qed.

(** A note-on command reads a note byte and, if the header said so, a
    velocity byte. *)
Lemma playnote_command (st : AudioSynthPlaytune) :
  Z.land (pgm_read_byte (score_cursor st)) 0xf0 = CMD_PLAYNOTE ->
  tune_stepscore_cmd st
  = if volume_present st then
      do st' <- tune_playnote (Z.land (pgm_read_byte (score_cursor st)) 0x0f)
                  (pgm_read_byte (score_cursor st + 1))
                  (pgm_read_byte (score_cursor st + 2))
                  (set_score_cursor (score_cursor st + 3) st);
      Ret (st', true)
    else
      do st' <- tune_playnote (Z.land (pgm_read_byte (score_cursor st)) 0x0f)
                  (pgm_read_byte (score_cursor st + 1)) 127
                  (set_score_cursor (score_cursor st + 2) st);
      Ret (st', true).
Proof.
  intros Hcmd. unfold tune_stepscore_cmd.
  rewrite (command_byte_high_bit _ CMD_PLAYNOTE (pgm_read_byte_range _)
             ltac:(unfold CMD_PLAYNOTE; lia) Hcmd).
  rewrite Hcmd. cbn [Z.eqb CMD_PLAYNOTE CMD_STOPNOTE Pos.eqb].
  cbn [score_cursor volume_present set_score_cursor].
  replace (score_cursor st + 1 + 1) with (score_cursor st + 2) by lia.
  destruct (volume_present st); cbn [score_cursor set_score_cursor].
  - replace (score_cursor st + 2 + 1) with (score_cursor st + 3) by lia.
    reflexivity.
  - reflexivity.
Qed.

(** C3. Starting a score on a well-formed engine reads the header: with the
    signature 'P','t' the velocity flag is bit 0x80 of the fourth byte, the
    generator count is the sixth byte clamped into 1..16, and decoding starts
    [hdr_length] bytes in; otherwise velocity is absent, the count is 16 and
    decoding starts at the first byte. The mixer level is the table entry of
    the count. For the header 'P','t',6,0x80,_,4 this gives 4 generators,
    velocity bytes, the level of .40 and a start 6 bytes in. A note-on reads
    a velocity byte exactly when the flag is set, and neither decoding nor
    rendering changes these settings afterwards. *)
Theorem play_reads_header :
  (forall (fuel : nat) (score n : Z) (st : AudioSynthPlaytune),
     engine_ready st = true ->
     exists h : AudioSynthPlaytune,
       tune_playscore_header score st = Ret h /\
       play2 fuel score n st
       = (do st' <- tune_stepscore fuel h; Ret (set_tune_playing true st')) /\
       score_cursor h = score_start h /\
       index mixer_amplitude_fractions (num_tgens_used h)
       = Ret (amplitude_fraction h) /\
       (if (pgm_read_byte score =? 0x50) && (pgm_read_byte (score + 1) =? 0x74)
        then
          volume_present h
          = negb (Z.land (pgm_read_byte (score + 3)) 0x80 =? 0) /\
          num_tgens_used h = Z.max 1 (Z.min 16 (pgm_read_byte (score + 5))) /\
          score_start h = score + pgm_read_byte (score + 2)
        else
          volume_present h = false /\ num_tgens_used h = 16 /\
          score_start h = score) /\
       (pgm_read_byte score = 0x50 -> pgm_read_byte (score + 1) = 0x74 ->
        pgm_read_byte (score + 2) = 6 -> pgm_read_byte (score + 3) = 0x80 ->
        pgm_read_byte (score + 5) = 4 ->
        num_tgens_used h = 4 /\ volume_present h = true /\
        amplitude_fraction h = 26214 /\ score_cursor h = score + 6)) /\
  (forall st : AudioSynthPlaytune,
     Z.land (pgm_read_byte (score_cursor st)) 0xf0 = CMD_PLAYNOTE ->
     tune_stepscore_cmd st
     = if volume_present st then
         do st' <- tune_playnote
                     (Z.land (pgm_read_byte (score_cursor st)) 0x0f)
                     (pgm_read_byte (score_cursor st + 1))
                     (pgm_read_byte (score_cursor st + 2))
                     (set_score_cursor (score_cursor st + 3) st);
         Ret (st', true)
       else
         do st' <- tune_playnote
                     (Z.land (pgm_read_byte (score_cursor st)) 0x0f)
                     (pgm_read_byte (score_cursor st + 1)) 127
                     (set_score_cursor (score_cursor st + 2) st);
         Ret (st', true)) /\
  (forall (fuel : nat) (st st' : AudioSynthPlaytune),
     tune_stepscore fuel st = Ret st' -> same_config st st') /\
  (forall (fuel : nat) (st st' : AudioSynthPlaytune) (x : Z),
     update_sample fuel st = Ret (st', x) -> same_config st st').
Proof.
  split; [| split; [exact playnote_command |
                    split; [exact tune_stepscore_config |
                            exact update_sample_config]]].
  intros fuel score n st Hst.
  destruct (tune_playscore_header_ready score st Hst)
    as (h & Hh & Hcursor & Hlevel & Hcase).
  exists h. split; [exact Hh |]. split.
  { unfold play2, tune_playscore.
    rewrite tune_playscore_header_num_tgens_used, Hh. reflexivity. }
  split; [exact Hcursor |]. split; [exact Hlevel |].
  split; [exact Hcase |].
  intros H0 H1 H2 H3 H5. rewrite H0, H1, H2, H3, H5 in Hcase.
  cbn [Z.eqb Pos.eqb andb] in Hcase. destruct Hcase as (Hv & Hn & Hs).
  change (Z.max 1 (Z.min MAX_TGENS 4)) with 4 in Hn.
  rewrite Hn in Hlevel. vm_compute in Hlevel. injection Hlevel as Hlevel.
  split; [exact Hn |]. split; [rewrite Hv; reflexivity |].
  split; [symmetry; exact Hlevel | congruence].
Qed.

(** C7. A restart command puts the cursor back to [score_start] and changes
    nothing else in the engine; the decoding loop goes on from there.
    [score_start] is where [tune_playscore] started decoding and is never
    changed by decoding or rendering. *)
Theorem restart_only_resets_cursor :
  forall st : AudioSynthPlaytune,
    Z.land (pgm_read_byte (score_cursor st)) 0xf0 = CMD_RESTART ->
    tune_stepscore_cmd st = Ret (set_score_cursor (score_start st) st, true) /\
    tone_gen (set_score_cursor (score_start st) st) = tone_gen st /\
    tune_playing (set_score_cursor (score_start st) st) = tune_playing st /\
    (forall fuel : nat,
       tune_stepscore (S fuel) st
       = tune_stepscore fuel (set_score_cursor (score_start st) st)) /\
    (forall (score : Z) (st0 h : AudioSynthPlaytune),
       engine_ready st0 = true ->
       tune_playscore_header score st0 = Ret h ->
       score_cursor h = score_start h /\
       score_start h
       = if (pgm_read_byte score =? 0x50)
            && (pgm_read_byte (score + 1) =? 0x74)
         then score + pgm_read_byte (score + 2) else score) /\
    (forall (fuel : nat) (s s' : AudioSynthPlaytune),
       tune_stepscore fuel s = Ret s' -> score_start s' = score_start s) /\
    (forall (fuel : nat) (s s' : AudioSynthPlaytune) (x : Z),
       update_sample fuel s = Ret (s', x) -> score_start s' = score_start s).
Proof.
  intros st Hcmd.
  assert (Hstep : tune_stepscore_cmd st
                  = Ret (set_score_cursor (score_start st) st, true)).
  { unfold tune_stepscore_cmd.
    rewrite (command_byte_high_bit _ CMD_RESTART (pgm_read_byte_range _)
               ltac:(unfold CMD_RESTART; lia) Hcmd).
    rewrite Hcmd. reflexivity. }
  split; [exact Hstep |]. split; [reflexivity |]. split; [reflexivity |].
  split; [| split; [| split]].
  - intros fuel. cbn [tune_stepscore]. rewrite Hstep. reflexivity.
  - intros score st0 h Hst0 Hh.
    destruct (tune_playscore_header_ready score st0 Hst0)
      as (h' & Hh' & Hcursor & _ & Hcase).
    assert (h' = h) by congruence. subst h'. split; [exact Hcursor |].
    destruct ((pgm_read_byte score =? 0x50)
              && (pgm_read_byte (score + 1) =? 0x74));
      destruct Hcase as (_ & _ & Hs); exact Hs.
  - intros fuel s s' H. apply tune_stepscore_config in H.
    destruct H as (_ & _ & _ & H). exact H.
  - intros fuel s s' x H. apply update_sample_config in H.
    destruct H as (_ & _ & _ & H). exact H.
Qed.

End Header.

(** ** The envelope of a melodic generator (claims C4 and C5) *)

Section Envelope.
Context `{P : Platform}.

Lemma envelope_counting (fuel : nat) (tg : tone_gen_t) :
  env_count tg <> 0 -> envelope fuel tg = Ret tg.
Proof.
  intros H. destruct fuel; cbn [envelope];
    (destruct (Z.eqb_spec (env_count tg) 0); [contradiction | reflexivity]).
Qed.

(** A sample of a melodic generator whose count has not run out: the
    envelope only counts down and adds its increment. *)
Lemma update_tgen_counting (fuel : nat) (amplitude : Z) (tg : tone_gen_t) :
  playing tg = true -> percussion tg = false -> env_count tg <> 0 ->
  exists (tg' : tone_gen_t) (our : Z),
    update_tgen fuel amplitude tg = Ret (tg', our) /\
    playing tg' = true /\ percussion tg' = false /\
    env_state tg' = env_state tg /\
    env_mult tg' = int32 (env_mult tg + env_incr tg) /\
    env_incr tg' = env_incr tg /\
    env_count tg' = int32 (env_count tg - 1) /\
    instrument_index tg' = instrument_index tg.
Proof.
  intros Hplay Hperc Hcount. unfold update_tgen, wave_index.
  rewrite Hplay, Hperc. rewrite (envelope_counting _ _ Hcount). cbn [bind].
  eexists _, _. split; [reflexivity |].
  cbn. repeat split; try assumption; reflexivity.
Qed.

Lemma releasing_samples (fuel : nat) (amplitude d : Z) (k : nat) :
  forall (tg : tone_gen_t) (m c : Z),
    releasing d tg m c ->
    0 <= d -> Z.of_nat k <= c -> c < 2 ^ 31 ->
    0 <= m - c * d -> m < 2 ^ 31 ->
    exists tgk : tone_gen_t,
      update_tgen_n fuel amplitude k tg = Ret tgk /\
      releasing d tgk (m - Z.of_nat k * d) (c - Z.of_nat k).
Proof.
  induction k as [| k IH]; intros tg m c Hrel Hd Hk Hc Hm Hm'.
  - exists tg. split; [reflexivity |].
    replace (m - Z.of_nat 0 * d) with m by lia.
    replace (c - Z.of_nat 0) with c by lia. exact Hrel.
  - destruct Hrel as (Hplay & Hperc & Hstate & Hmult & Hincr & Hcount).
    destruct (update_tgen_counting fuel amplitude tg Hplay Hperc)
      as (tg' & our & Hupd & Hplay' & Hperc' & Hstate' & Hmult' & Hincr'
          & Hcount' & _); [lia |].
    cbn [update_tgen_n]. rewrite Hupd. cbn [bind].
    assert (Hcd : 0 <= (c - 1) * d) by nia.
    destruct (IH tg' (m - d) (c - 1)) as (tgk & Hk' & Hrel'); try lia.
    { repeat split; try assumption; try congruence.
      - rewrite Hmult', Hmult, Hincr. apply int32_small. nia.
      - rewrite Hcount', Hcount. apply int32_small. lia. }
    exists tgk. split; [exact Hk' |].
    replace (m - Z.of_nat (S k) * d) with (m - d - Z.of_nat k * d) by lia.
    replace (c - Z.of_nat (S k)) with (c - 1 - Z.of_nat k) by lia.
    exact Hrel'.
Qed.

(** The sample after the release count has run out. *)
Lemma release_ends (fuel : nat) (amplitude d m : Z) (tg : tone_gen_t) :
  (2 <= fuel)%nat -> releasing d tg m 0 ->
  exists (tg' : tone_gen_t) (our : Z),
    update_tgen fuel amplitude tg = Ret (tg', our) /\
    playing tg' = false /\ env_state tg' = ENV_IDLE.
Proof.
  intros Hfuel (Hplay & Hperc & Hstate & Hmult & Hincr & Hcount).
  destruct fuel as [| [| fuel]]; try lia.
  unfold update_tgen, wave_index. rewrite Hplay, Hperc.
  cbn [envelope]. rewrite Hcount. cbn [Z.eqb].
  unfold envelope_switch at 1. rewrite Hstate. cbn [bind].
  cbn [env_count set_playing set_env]. rewrite Hcount. cbn [Z.eqb].
  unfold envelope_switch at 1. cbn [env_state set_playing set_env bind].
  rewrite envelope_counting by (cbn; unfold INT_MAX; lia).
  cbn [bind]. eexists _, _. split; [reflexivity |].
  cbn. split; reflexivity.
Qed.

Lemma stop_tone_gen_release (tg : tone_gen_t) (iw : instrument_waveform_t) :
  playing tg = true -> percussion tg = false ->
  index instrument_waveforms (instrument_index tg) = Ret iw ->
  0 < release iw -> 0 <= sustain_level iw < 2 ^ 31 ->
  exists tg1 : tone_gen_t,
    stop_tone_gen tg = Ret tg1 /\
    releasing (sustain_level iw / release iw) tg1
      (sustain_level iw) (release iw).
Proof.
  intros Hplay Hperc Hiw HR HS. unfold stop_tone_gen.
  rewrite Hplay, Hperc, Hiw. cbn [negb bind]. unfold c_div.
  destruct (Z.eqb_spec (release iw) 0); [lia |]. cbn [bind].
  eexists. split; [reflexivity |].
  repeat split; try reflexivity; try assumption.
  cbn [env_incr set_env].
  rewrite (int32_small (- sustain_level iw)) by lia.
  rewrite Z.quot_opp_l by lia. rewrite Z.quot_div_nonneg by lia.
  apply int32_small.
  assert (0 <= sustain_level iw / release iw <= sustain_level iw).
  { split; [apply Z.div_pos; lia |]. apply Z.div_le_upper_bound; nia. }
  lia.
Qed.

(** C4, as amended. A note-off on an active melodic generator whose
    instrument has a release count [R > 0] and sustain level [S] puts the
    envelope into [ENV_RELEASE] with the multiplier set to [S] (whatever it
    was before) and a decrement of [S / R] per sample. The generator stays
    active through the next [R] samples; after [k] of them the multiplier
    is [S - k * (S / R)], so after all [R] it is [S mod R]. The sample that
    follows deactivates the generator. *)
Theorem note_off_release_ramp :
  forall (fuel : nat) (amplitude : Z) (tg : tone_gen_t)
         (iw : instrument_waveform_t),
    (2 <= fuel)%nat ->
    playing tg = true -> percussion tg = false ->
    index instrument_waveforms (instrument_index tg) = Ret iw ->
    0 < release iw < 2 ^ 31 -> 0 <= sustain_level iw < 2 ^ 31 ->
    exists tg1 : tone_gen_t,
      stop_tone_gen tg = Ret tg1 /\
      playing tg1 = true /\ env_state tg1 = ENV_RELEASE /\
      env_mult tg1 = sustain_level iw /\
      env_incr tg1 = - (sustain_level iw / release iw) /\
      env_count tg1 = release iw /\
      (forall k : nat,
         Z.of_nat k <= release iw ->
         exists tgk : tone_gen_t,
           update_tgen_n fuel amplitude k tg1 = Ret tgk /\
           playing tgk = true /\ env_state tgk = ENV_RELEASE /\
           env_mult tgk
           = sustain_level iw - Z.of_nat k * (sustain_level iw / release iw) /\
           env_count tgk = release iw - Z.of_nat k) /\
      exists (tgR tgE : tone_gen_t) (our : Z),
        update_tgen_n fuel amplitude (Z.to_nat (release iw)) tg1 = Ret tgR /\
        playing tgR = true /\
        env_mult tgR = sustain_level iw mod release iw /\
        update_tgen fuel amplitude tgR = Ret (tgE, our) /\
        playing tgE = false /\ env_state tgE = ENV_IDLE.
Proof.
  intros fuel amplitude tg iw Hfuel Hplay Hperc Hiw HR HS.
  destruct (stop_tone_gen_release tg iw Hplay Hperc Hiw) as (tg1 & Hstop & Hrel);
    [lia | lia |].
  set (sus := sustain_level iw) in *. set (rel := release iw) in *.
  assert (Hd : 0 <= sus / rel) by (apply Z.div_pos; lia).
  assert (Hmod : sus = rel * (sus / rel) + sus mod rel)
    by (apply Z.div_mod; lia).
  assert (Hmodr : 0 <= sus mod rel < rel) by (apply Z.mod_pos_bound; lia).
  assert (Hsteps : forall k : nat, Z.of_nat k <= rel ->
            exists tgk, update_tgen_n fuel amplitude k tg1 = Ret tgk /\
                        releasing (sus / rel) tgk
                          (sus - Z.of_nat k * (sus / rel))
                          (rel - Z.of_nat k)).
  { intros k Hk. apply releasing_samples; try lia; try exact Hrel; nia. }
  exists tg1. pose proof Hrel as (H1 & H2 & H3 & H4 & H5 & H6).
  repeat (split; [assumption |]). split.
  - intros k Hk. destruct (Hsteps k Hk) as (tgk & Hupd & Hk1 & _ & Hk3 & Hk4
                                            & _ & Hk6).
    exists tgk. repeat split; assumption.
  - destruct (Hsteps (Z.to_nat rel)) as (tgR & Hupd & HrelR); [lia |].
    rewrite Z2Nat.id in HrelR by lia.
    replace (rel - rel) with 0 in HrelR by lia.
    destruct (release_ends fuel amplitude _ _ tgR Hfuel HrelR)
      as (tgE & our & HupdE & HplayE & HstateE).
    exists tgR, tgE, our. split; [exact Hupd |].
    destruct HrelR as (Hp & _ & _ & Hm & _).
    split; [exact Hp |]. split; [rewrite Hm; lia |].
    split; [exact HupdE |]. split; assumption.
Qed.


(** Where the cascade through zero-length phases does work: a zero delay
    leads into the attack within the first sample, and a zero hold leads
    from the end of the attack into the decay within one sample, at full
    scale. *)
Lemma zero_delay_enters_attack (fuel : nat) (amplitude : Z)
    (tg : tone_gen_t) (iw : instrument_waveform_t) :
  (0 < fuel)%nat ->
  playing tg = true -> percussion tg = false ->
  env_state tg = ENV_DELAY -> env_count tg = 0 ->
  index instrument_waveforms (instrument_index tg) = Ret iw ->
  attack iw <> 0 ->
  exists (tg' : tone_gen_t) (our : Z),
    update_tgen fuel amplitude tg = Ret (tg', our) /\
    env_state tg' = ENV_ATTACK /\
    env_incr tg' = Z.quot 0x10000 (attack iw) /\
    env_mult tg' = int32 (env_mult tg + Z.quot 0x10000 (attack iw)) /\
    env_count tg' = int32 (attack iw - 1).
Proof.
  intros Hfuel Hplay Hperc Hstate Hcount Hiw Hattack.
  destruct fuel as [| fuel]; [lia |].
  unfold update_tgen, wave_index. rewrite Hplay, Hperc.
  cbn [envelope]. rewrite Hcount. cbn [Z.eqb].
  unfold envelope_switch, c_div. rewrite Hstate, Hiw. cbn [bind].
  destruct (Z.eqb_spec (attack iw) 0); [contradiction |]. cbn [bind].
  rewrite envelope_counting by (cbn; assumption).
  cbn [bind]. eexists _, _. split; [reflexivity |].
  cbn. repeat split; reflexivity.
Qed.

Lemma zero_hold_enters_decay (fuel : nat) (amplitude : Z)
    (tg : tone_gen_t) (iw : instrument_waveform_t) :
  (2 <= fuel)%nat ->
  playing tg = true -> percussion tg = false ->
  env_state tg = ENV_ATTACK -> env_count tg = 0 ->
  index instrument_waveforms (instrument_index tg) = Ret iw ->
  hold iw = 0 -> decay iw <> 0 ->
  exists (tg' : tone_gen_t) (our : Z),
    update_tgen fuel amplitude tg = Ret (tg', our) /\
    env_state tg' = ENV_DECAY /\
    env_mult tg' = int32 (0x10000 + env_incr tg') /\
    env_count tg' = int32 (decay iw - 1).
Proof.
  intros Hfuel Hplay Hperc Hstate Hcount Hiw Hhold Hdecay.
  destruct fuel as [| [| fuel]]; try lia.
  unfold update_tgen, wave_index. rewrite Hplay, Hperc.
  cbn [envelope]. rewrite Hcount. cbn [Z.eqb].
  unfold envelope_switch at 1. rewrite Hstate, Hiw. cbn [bind].
  cbn [env_count set_env]. rewrite Hhold. cbn [Z.eqb].
  unfold envelope_switch at 1, c_div.
  cbn [env_state instrument_index set_env]. rewrite Hiw. cbn [bind].
  destruct (Z.eqb_spec (decay iw) 0); [contradiction |]. cbn [bind].
  rewrite envelope_counting by (cbn; assumption).
  cbn [bind]. eexists _, _. split; [reflexivity |].
  cbn. repeat split; reflexivity.
Qed.

End Envelope.

(** ** Waveform table bounds (claim C6) *)

Lemma Qtrunc_floor (q : Q) : (0 <= q)%Q -> Qtrunc q = Qfloor q.
Proof.
  destruct q as [n d]. unfold Qle, Qtrunc, Qfloor. cbn [Qnum Qden].
  intros H. apply Z.quot_div_nonneg; lia.
Qed.

Lemma drum_incr_bound (freq : Z) (rate : Q) :
  0 <= freq <= 8000 -> (8000 <= rate)%Q ->
  0 <= Qtrunc (QofZ (freq * 0x20000) / rate) <= 2 ^ 17.
Proof.
  intros Hfreq Hrate. unfold QofZ.
  assert (Hpos : (0 < rate)%Q).
  { eapply Qlt_le_trans; [| exact Hrate]. reflexivity. }
  assert (Hlo : (0 <= inject_Z (freq * 0x20000) / rate)%Q).
  { apply Qle_shift_div_l; [exact Hpos |]. rewrite Qmult_0_l.
    change 0%Q with (inject_Z 0). rewrite <- Zle_Qle. lia. }
  assert (Hhi : (inject_Z (freq * 0x20000) / rate <= inject_Z (2 ^ 17))%Q).
  { apply Qle_shift_div_r; [exact Hpos |].
    apply Qle_trans with (y := (inject_Z (2 ^ 17) * 8000)%Q).
    - change 8000%Q with (inject_Z 8000). rewrite <- inject_Z_mult.
      rewrite <- Zle_Qle. lia.
    - apply Qmult_le_l; [reflexivity | exact Hrate]. }
  rewrite Qtrunc_floor by exact Hlo. split.
  - change 0 with (Qfloor (inject_Z 0)). apply Qfloor_resp_le. exact Hlo.
  - rewrite <- (Qfloor_Z (2 ^ 17)). apply Qfloor_resp_le. exact Hhi.
Qed.

Lemma drum_frequency_bound (drum_enum freq : Z) :
  index drum_waveform_frequencies drum_enum = Ret freq -> 0 <= freq <= 8000.
Proof.
  intros H. apply index_Ret in H as [_ H].
  apply list_elem_of_lookup_2 in H. apply list_elem_of_In in H.
  assert (Hall : forallb (fun f => (0 <=? f) && (f <=? 8000))
                   drum_waveform_frequencies = true) by reflexivity.
  rewrite forallb_forall in Hall. apply Hall in H.
  apply andb_prop in H as [H1 H2]. lia.
Qed.

Section Tables.
Context `{P : Platform}.

Lemma drum_size_bound (drum_enum size : Z) :
  drums_fit = true ->
  index drum_waveform_size drum_enum = Ret size -> 2 <= size <= 65536.
Proof.
  unfold drums_fit. intros Hfit H. apply andb_prop in Hfit as [Hall _].
  apply index_Ret in H as [_ H].
  apply list_elem_of_lookup_2 in H. apply list_elem_of_In in H.
  rewrite forallb_forall in Hall. apply Hall in H.
  apply andb_prop in H as [H1 H2]. lia.
Qed.

Lemma envelope_switch_fields (tg tg' : tone_gen_t) :
  envelope_switch tg = Ret tg' ->
  tone_phase tg' = tone_phase tg /\ tone_incr tg' = tone_incr tg /\
  percussion tg' = percussion tg /\
  waveform_array tg' = waveform_array tg /\
  drum_ending_sample_index tg' = drum_ending_sample_index tg /\
  instrument_index tg' = instrument_index tg.
Proof.
  unfold envelope_switch. intros H.
  destruct (env_state tg); bind_inv H; injection H as <-;
    repeat split; reflexivity.
Qed.

Lemma envelope_fields (fuel : nat) (tg tg' : tone_gen_t) :
  envelope fuel tg = Ret tg' ->
  tone_phase tg' = tone_phase tg /\ tone_incr tg' = tone_incr tg /\
  percussion tg' = percussion tg /\
  waveform_array tg' = waveform_array tg /\
  drum_ending_sample_index tg' = drum_ending_sample_index tg /\
  instrument_index tg' = instrument_index tg.
Proof.
  revert tg. induction fuel as [| fuel IH]; intros tg H; cbn [envelope] in H.
  - destruct (env_count tg =? 0); [discriminate |]. injection H as <-.
    repeat split; reflexivity.
  - destruct (env_count tg =? 0).
    + bind_inv H. apply envelope_switch_fields in E. apply IH in H.
      destruct E as (E1 & E2 & E3 & E4 & E5 & E6).
      destruct H as (H1 & H2 & H3 & H4 & H5 & H6).
      repeat split; congruence.
    + injection H as <-. repeat split; reflexivity.
Qed.

Lemma next_phase_range (phase incr : Z) :
  0 <= Z.land (int32 (phase + incr)) 0x7fffffff < 2 ^ 31.
Proof.
  rewrite land_phase_mask. apply Z.mod_pos_bound. lia.
Qed.

Lemma next_phase_index (phase incr : Z) :
  0 <= phase -> 0 <= incr <= 2 ^ 17 ->
  Z.shiftr (Z.land (int32 (phase + incr)) 0x7fffffff) 17
  <= Z.shiftr phase 17 + 1.
Proof.
  intros Hphase Hincr. rewrite land_phase_mask, int32_mod_pow2_31.
  rewrite !Z.shiftr_div_pow2 by lia.
  assert (H1 : (phase + incr) mod 2 ^ 31 <= phase + incr)
    by (apply Z.mod_le; lia).
  assert (H2 : (phase + incr) mod 2 ^ 31 / 2 ^ 17 <= (phase + incr) / 2 ^ 17)
    by (apply Z.div_le_mono; lia).
  assert (H3 : (phase + incr) / 2 ^ 17 <= (phase + 1 * 2 ^ 17) / 2 ^ 17)
    by (apply Z.div_le_mono; lia).
  rewrite Z.div_add in H3 by lia. lia.
Qed.

Lemma tune_playnote_in_table (tgen note vol : Z)
    (st st' : AudioSynthPlaytune) (tg : tone_gen_t) :
  drums_fit = true ->
  0 <= tgen < MAX_TGENS ->
  tune_playnote tgen note vol st = Ret st' ->
  tone_gen st' !! Z.to_nat tgen = Some tg ->
  in_table tg.
Proof.
  intros Hfit Htgen H Htg. unfold tune_playnote in H.
  destruct (Z.ltb_spec tgen MAX_TGENS); [| lia].
  destruct (index (tone_gen st) tgen) as [tg0 | |] eqn:Etg0;
    cbn [bind] in H; try discriminate.
  apply index_Ret in Etg0 as [_ Etg0]. apply lookup_lt_Some in Etg0.
  match type of H with
  | bind ?m _ = _ => destruct m as [[[tg1 vol1] seed1] | |] eqn:Hnote
  end; cbn [bind] in H; try discriminate.
  injection H as <-. cbn [tone_gen set_seed set_tone_gen] in Htg.
  rewrite list_lookup_insert_eq in Htg by exact Etg0.
  injection Htg as <-.
  destruct (128 <=? note).
  - bind_inv Hnote. injection Hnote as <- _ _.
    match goal with
    | H : (if Qeq_bool _ _ then _ else _) = Ret _ |- _ =>
        destruct (Qeq_bool AUDIO_SAMPLE_RATE 0); [discriminate H |];
        injection H as <-
    end.
    match goal with
    | H : match ?w with Some _ => _ | None => _ end = Ret _ |- _ =>
        destruct w eqn:Ew; [injection H as -> | discriminate H]
    end.
    pose proof Hfit as Hrate. unfold drums_fit in Hrate.
    apply andb_prop in Hrate as [_ Hrate]. apply Qle_bool_iff in Hrate.
    match goal with
    | Hf : index drum_waveform_frequencies _ = Ret ?f,
      Hs : index drum_waveform_size ?d = Ret ?size,
      Hw : index drum_waveforms ?d = Ret _ |- _ =>
        pose proof (drum_incr_bound f _ (drum_frequency_bound _ _ Hf) Hrate)
          as Hincr;
        pose proof (drum_size_bound _ _ Hfit Hs) as Hsize;
        unfold in_table, plays_drum;
        cbn [tone_phase tone_incr percussion playing set_playing
             set_volume_frac waveform_array drum_ending_sample_index];
        split; [lia |]; intros _ _; split;
        [ rewrite int32_small by lia; exact Hincr
        | exists size; split;
          [ exists d; split; [exact Hw |]; split; [exact Hs |];
            apply uint_small; lia
          | split; [exact Hsize |]; change (Z.shiftr 0 17) with 0; lia ] ]
    end.
  - bind_inv Hnote. injection Hnote as <- _ _.
    split; [| cbn; discriminate]. cbn [tone_phase set_playing set_volume_frac].
    pose proof (random_byte_range (seed st)) as Hb.
    rewrite int32_small; rewrite Z.shiftl_mul_pow2 by lia; lia.
Qed.

Lemma scale_range (x : Z) : 0 <= uint32 (Z.land x 0xFFFF) <= 0xFFFF.
Proof.
  replace (Z.land x 0xFFFF) with (x mod 2 ^ 16)
    by (symmetry; apply (Z.land_ones x 16); lia).
  pose proof (Z.mod_pos_bound x (2 ^ 16) ltac:(lia)) as H.
  unfold uint32. rewrite uint_small; lia.
Qed.

Lemma wave_index_percussion (tg : tone_gen_t) :
  percussion tg = true -> 0 <= tone_phase tg < 2 ^ 31 ->
  wave_index tg
  = (Z.shiftr (tone_phase tg) 17, Z.shiftr (tone_phase tg) 17 + 1,
     uint32 (Z.land (Z.shiftr (tone_phase tg) 1) 0xFFFF)) /\
  0 <= Z.shiftr (tone_phase tg) 17 < 2 ^ 14.
Proof.
  intros Hperc Hphase. unfold wave_index. rewrite Hperc.
  assert (H : 0 <= Z.shiftr (tone_phase tg) 17 < 2 ^ 14).
  { rewrite Z.shiftr_div_pow2 by lia. split.
    - apply Z.div_pos; lia.
    - apply Z.div_lt_upper_bound; lia. }
  split; [| exact H]. unfold uint32.
  rewrite (uint_small 32 (Z.shiftr (tone_phase tg) 17)) by lia.
  rewrite (uint_small 32 (Z.shiftr (tone_phase tg) 17 + 1)) by lia.
  reflexivity.
Qed.

Lemma wave_index_melodic (tg : tone_gen_t) :
  percussion tg = false -> 0 <= tone_phase tg < 2 ^ 31 ->
  wave_index tg
  = (Z.shiftr (tone_phase tg) 23, (Z.shiftr (tone_phase tg) 23 + 1) mod 256,
     uint32 (Z.land (Z.shiftr (tone_phase tg) 7) 0xFFFF)) /\
  0 <= Z.shiftr (tone_phase tg) 23 < 256.
Proof.
  intros Hperc Hphase. unfold wave_index. rewrite Hperc.
  assert (H : 0 <= Z.shiftr (tone_phase tg) 23 < 256).
  { rewrite Z.shiftr_div_pow2 by lia. split.
    - apply Z.div_pos; lia.
    - apply Z.div_lt_upper_bound; lia. }
  split; [| exact H]. unfold uint32.
  rewrite (uint_small 32 (Z.shiftr (tone_phase tg) 23)) by lia.
  change 0xff with (Z.ones 8). rewrite Z.land_ones by lia.
  change (2 ^ 8) with 256.
  pose proof (Z.mod_pos_bound (Z.shiftr (tone_phase tg) 23 + 1) 256
                ltac:(lia)).
  rewrite uint_small by lia. reflexivity.
Qed.

Lemma update_tgen_in_table (fuel : nat) (amplitude : Z) (tg tg' : tone_gen_t)
    (our : Z) :
  in_table tg -> update_tgen fuel amplitude tg = Ret (tg', our) ->
  in_table tg'.
Proof.
  intros [Hphase Hdrum] H. unfold update_tgen in H.
  destruct (playing tg) eqn:Hplay;
    [| injection H as <- _; split; [exact Hphase | intros; congruence]].
  destruct (percussion tg) eqn:Hperc.
  - destruct (wave_index_percussion tg Hperc Hphase) as [Hw Hindex].
    rewrite Hw in H.
    destruct (Hdrum eq_refl eq_refl) as (Hincr & size & Hplays & Hsize & Hin).
    cbn [bind] in H.
    destruct (Z.leb_spec (drum_ending_sample_index tg)
                (Z.shiftr (tone_phase tg) 17 + 1)) as [Hend | Hend];
      injection H as <- _;
      (split;
       [ cbn [tone_phase set_env_mult set_env set_tone_phase set_playing];
         apply next_phase_range |]);
      cbn [percussion playing tone_incr tone_phase set_env_mult set_env
           set_tone_phase set_playing].
    + intros _ Hfalse. rewrite Hplay in Hfalse || discriminate Hfalse.
    + intros _ _. split; [exact Hincr |]. exists size.
      split; [exact Hplays |]. split; [exact Hsize |].
      destruct Hplays as (d & _ & _ & Hlast).
      pose proof (next_phase_index (tone_phase tg) (tone_incr tg)
                    (proj1 Hphase) Hincr). lia.
  - destruct (wave_index_melodic tg Hperc Hphase) as [Hw _].
    rewrite Hw in H.
    destruct (envelope fuel tg) as [tg1 | |] eqn:Henv; cbn [bind] in H;
      try discriminate.
    apply envelope_fields in Henv as (H1 & H2 & H3 & _).
    injection H as <- _. split.
    + cbn [tone_phase set_env_mult set_env set_tone_phase set_env_count].
      apply next_phase_range.
    + cbn [percussion set_env_mult set_env set_tone_phase set_env_count].
      rewrite H3, Hperc. discriminate.
Qed.

Lemma stop_tone_gen_in_table (tg tg' : tone_gen_t) :
  in_table tg -> stop_tone_gen tg = Ret tg' -> in_table tg'.
Proof.
  intros [Hphase Hdrum] H. unfold stop_tone_gen in H.
  destruct (playing tg) eqn:Hplay;
    [| injection H as <-; split; [exact Hphase | intros; congruence]].
  destruct (percussion tg) eqn:Hperc; cbn [negb] in H.
  - injection H as <-. split; [exact Hphase |].
    cbn [playing set_playing]. intros _ Hfalse. discriminate Hfalse.
  - bind_inv H. injection H as <-. split; [exact Hphase |].
    cbn [percussion set_env]. rewrite Hperc. discriminate.
Qed.

Lemma sounding_in_table (tg : tone_gen_t) :
  drums_fit = true -> sounding tg -> in_table tg.
Proof.
  intros Hfit. induction 1 as [tgen note vol st st' tg Htgen Hnote Htg
                              | fuel amplitude tg tg' our _ IH Hupd
                              | tg tg' _ IH Hstop
                              | tg i _ IH].
  - eapply tune_playnote_in_table; eassumption.
  - eapply update_tgen_in_table; eassumption.
  - eapply stop_tone_gen_in_table; eassumption.
  - destruct IH as [Hphase Hdrum]. split; [exact Hphase | exact Hdrum].
Qed.

(** C6. Given drum tables of 2 to 65536 samples and an output rate of at
    least 8000 Hz, every generator that is playing, from its note-on
    onwards, has its phase in [0, 2^31) and reads its waveform inside the
    table: a melodic one at [index1 < 256] and [index2 = (index1 + 1) mod
    256], a percussion one at [index1] and [index2 = index1 + 1], which is at
    most the last index of its drum table. The sample leaves the phase in
    [0, 2^31), and a percussion generator with [index2] at or past
    [drum_ending_sample_index] is deactivated by that very sample. *)
Theorem waveform_reads_stay_in_table :
  drums_fit = true ->
  forall tg : tone_gen_t,
    sounding tg -> playing tg = true ->
    0 <= tone_phase tg < 2 ^ 31 /\
    exists index1 index2 scale : Z,
      wave_index tg = (index1, index2, scale) /\
      0 <= scale <= 0xFFFF /\
      (percussion tg = false ->
       0 <= index1 < 256 /\ index2 = (index1 + 1) mod 256) /\
      (percussion tg = true ->
       exists size : Z,
         plays_drum tg size /\
         0 <= index1 /\ index2 = index1 + 1 /\ index2 <= size - 1) /\
      forall (fuel : nat) (amplitude : Z) (tg' : tone_gen_t) (our : Z),
        update_tgen fuel amplitude tg = Ret (tg', our) ->
        0 <= tone_phase tg' < 2 ^ 31 /\
        (percussion tg = true -> drum_ending_sample_index tg <= index2 ->
         playing tg' = false).
Proof.
  intros Hfit tg Hs Hplay.
  pose proof (sounding_in_table tg Hfit Hs) as Hin.
  pose proof Hin as [Hphase Hdrum]. split; [exact Hphase |].
  assert (Hnext : forall fuel amplitude tg' our,
             update_tgen fuel amplitude tg = Ret (tg', our) ->
             0 <= tone_phase tg' < 2 ^ 31).
  { intros fuel amplitude tg' our Hupd.
    apply (update_tgen_in_table _ _ _ _ _ Hin Hupd). }
  destruct (percussion tg) eqn:Hperc.
  - destruct (wave_index_percussion tg Hperc Hphase) as [Hw Hindex].
    destruct (Hdrum eq_refl Hplay) as (Hincr & size & Hplays & Hsize & Hlast).
    eexists _, _, _. split; [exact Hw |].
    split; [apply scale_range |]. split; [discriminate |]. split.
    + intros _. exists size. split; [exact Hplays |].
      split; [lia |]. split; [reflexivity | exact Hlast].
    + intros fuel amplitude tg' our Hupd.
      split; [eapply Hnext; exact Hupd |]. intros _ Hend.
      unfold update_tgen in Hupd. rewrite Hplay, Hw, Hperc in Hupd.
      cbn [bind] in Hupd.
      destruct (Z.leb_spec (drum_ending_sample_index tg)
                  (Z.shiftr (tone_phase tg) 17 + 1)); [| lia].
      injection Hupd as <- _. reflexivity.
  - destruct (wave_index_melodic tg Hperc Hphase) as [Hw Hindex].
    eexists _, _, _. split; [exact Hw |].
    split; [apply scale_range |]. split.
    + intros _. split; [exact Hindex | reflexivity].
    + split; [discriminate |].
      intros fuel amplitude tg' our Hupd.
      split; [eapply Hnext; exact Hupd | discriminate].
Qed.

End Tables.

(** ** Rendering without a score event (claim C9) *)

Section Stall.
Context `{P : Platform}.

Lemma voice_ready_same_instrument (tg tg' : tone_gen_t) :
  instrument_index tg' = instrument_index tg ->
  voice_ready tg' = voice_ready tg.
Proof. unfold voice_ready. intros ->. reflexivity. Qed.

Lemma envelope_switch_ready (tg : tone_gen_t) :
  voice_ready tg = true ->
  exists tg1 : tone_gen_t,
    envelope_switch tg = Ret tg1 /\
    instrument_index tg1 = instrument_index tg /\
    percussion tg1 = percussion tg /\
    (env_state tg <> ENV_RELEASE ->
     playing tg1 = playing tg /\ env_state tg1 <> ENV_RELEASE) /\
    (settles (env_state tg) = true -> env_count tg1 <> 0) /\
    (settles (env_state tg) = false -> settles (env_state tg1) = true).
Proof.
  intros Hr. apply voice_ready_instrument in Hr
    as (iw & Hiw & Hattack & Hdecay & _).
  unfold envelope_switch, c_div. rewrite Hiw. cbn [bind].
  destruct (Z.eqb_spec (attack iw) 0); [contradiction |].
  destruct (Z.eqb_spec (decay iw) 0); [contradiction |].
  destruct (env_state tg) eqn:Hstate; cbn [bind];
    (eexists; split; [reflexivity |]);
    cbn [instrument_index percussion playing env_state env_count
         set_env set_env_count set_playing settles];
    repeat split; try reflexivity; try discriminate; try assumption;
    try (intros _; assumption); try (unfold INT_MAX; lia);
    try (intros; congruence).
Qed.

Lemma envelope_ready (fuel : nat) (tg : tone_gen_t) :
  (2 <= fuel)%nat -> voice_ready tg = true ->
  exists tg' : tone_gen_t,
    envelope fuel tg = Ret tg' /\
    instrument_index tg' = instrument_index tg /\
    percussion tg' = percussion tg /\
    (env_state tg <> ENV_RELEASE ->
     playing tg' = playing tg /\ env_state tg' <> ENV_RELEASE).
Proof.
  intros Hfuel Hr. destruct fuel as [| [| fuel]]; try lia.
  cbn [envelope]. destruct (Z.eqb_spec (env_count tg) 0) as [Hc | Hc];
    [| exists tg; do 3 (split; [reflexivity |]); intros Hs;
       split; [reflexivity | exact Hs]].
  destruct (envelope_switch_ready tg Hr)
    as (tg1 & -> & Hi1 & Hp1 & Hk1 & Hs1 & Hn1).
  cbn [bind].
  destruct (Z.eqb_spec (env_count tg1) 0) as [Hc1 | Hc1];
    [| exists tg1; split; [reflexivity |]; split; [exact Hi1 |];
       split; [exact Hp1 | exact Hk1]].
  assert (Hr1 : voice_ready tg1 = true)
    by (rewrite (voice_ready_same_instrument tg tg1 Hi1); exact Hr).
  destruct (envelope_switch_ready tg1 Hr1)
    as (tg2 & -> & Hi2 & Hp2 & Hk2 & Hs2 & _).
  cbn [bind].
  assert (Hset : settles (env_state tg1) = true).
  { destruct (settles (env_state tg)) eqn:Hset.
    - exfalso. apply (Hs1 eq_refl). exact Hc1.
    - apply Hn1. reflexivity. }
  rewrite envelope_counting by (apply Hs2; exact Hset).
  exists tg2. split; [reflexivity |]. split; [congruence |].
  split; [congruence |]. intros Hstate.
  destruct (Hk1 Hstate) as [Ha Hb]. destruct (Hk2 Hb) as [Hc2 Hd].
  split; [congruence | exact Hd].
Qed.

Lemma update_tgen_ready (fuel : nat) (amplitude : Z) (tg : tone_gen_t) :
  (2 <= fuel)%nat -> voice_ready tg = true ->
  exists (tg' : tone_gen_t) (our : Z),
    update_tgen fuel amplitude tg = Ret (tg', our) /\ persists tg tg'.
Proof.
  intros Hfuel Hr. unfold update_tgen.
  destruct (playing tg) eqn:Hplay.
  - destruct (wave_index tg) as [[index1 index2] scale].
    destruct (percussion tg) eqn:Hperc; cbn [bind].
    + eexists _, _. split; [reflexivity |].
      split; [| intros _ Hp; congruence].
      rewrite <- Hr. apply voice_ready_same_instrument.
      destruct (drum_ending_sample_index tg <=? index2); reflexivity.
    + destruct (envelope_ready fuel tg Hfuel Hr)
        as (tg1 & -> & Hi & Hp & Hk).
      cbn [bind]. eexists _, _. split; [reflexivity |]. split.
      * rewrite <- Hr. apply voice_ready_same_instrument. exact Hi.
      * intros _ _ Hstate. destruct (Hk Hstate) as [Ha Hb].
        cbn [playing percussion env_state set_env_mult set_env
             set_tone_phase set_env_count].
        repeat split; [congruence | congruence | exact Hb].
  - exists tg, 0. split; [reflexivity |]. split; [exact Hr |].
    intros Hp. congruence.
Qed.

Lemma persists_refl (tg : tone_gen_t) :
  voice_ready tg = true -> persists tg tg.
Proof. intros Hr. split; [exact Hr |]. intros; repeat split; assumption. Qed.

Lemma persists_trans (a b c : tone_gen_t) :
  persists a b -> persists b c -> persists a c.
Proof.
  intros [_ Hab] [Hc Hbc]. split; [exact Hc |].
  intros H1 H2 H3. destruct (Hab H1 H2 H3) as (H4 & H5 & H6).
  apply Hbc; assumption.
Qed.

Lemma mix_ready (fuel : nat) (amplitude : Z) (n : nat) :
  (2 <= fuel)%nat ->
  forall (i : nat) (tgs : list tone_gen_t) (level : Z),
    (i + n <= length tgs)%nat ->
    Forall (fun tg => voice_ready tg = true) tgs ->
    exists (tgs' : list tone_gen_t) (level' : Z),
      mix fuel amplitude n (Z.of_nat i) tgs level = Ret (tgs', level') /\
      Forall2 persists tgs tgs'.
Proof.
  intros Hfuel. induction n as [| n IH]; intros i tgs level Hlen Hall.
  - exists tgs, level. split; [reflexivity |].
    apply Forall_Forall2_diag. eapply Forall_impl; [exact Hall |].
    intros tg Hr. apply persists_refl. exact Hr.
  - cbn [mix].
    destruct (lookup_lt_is_Some_2 tgs i) as [tg Htg]; [lia |].
    rewrite (index_lookup tgs (Z.of_nat i) tg)
      by (first [lia | rewrite Nat2Z.id; exact Htg]).
    cbn [bind].
    assert (Hr : voice_ready tg = true).
    { rewrite Forall_forall in Hall. apply Hall.
      eapply list_elem_of_lookup_2. exact Htg. }
    destruct (update_tgen_ready fuel amplitude tg Hfuel Hr)
      as (tg' & our & -> & Hpers).
    cbn [bind]. rewrite Nat2Z.id.
    assert (Hstep : Forall2 persists tgs (<[i := tg']> tgs)).
    { rewrite <- (list_insert_id tgs i tg Htg) at 1.
      apply Forall2_insert; [| exact Hpers].
      apply Forall_Forall2_diag. eapply Forall_impl; [exact Hall |].
      intros x Hx. apply persists_refl. exact Hx. }
    destruct (IH (S i) (<[i := tg']> tgs) (int32 (level + our)))
      as (tgs' & level' & Hmix & Hrest).
    { rewrite length_insert. lia. }
    { apply Forall_forall. intros x Hx.
      apply list_elem_of_lookup_1 in Hx as [j Hj].
      destruct (Forall2_lookup_r _ _ _ _ _ Hstep Hj) as (y & _ & [Hy _]).
      exact Hy. }
    replace (Z.of_nat i + 1) with (Z.of_nat (S i)) by lia.
    exists tgs', level'. split; [exact Hmix |].
    eapply Forall2_trans; [| exact Hstep | exact Hrest].
    intros a b c. apply persists_trans.
Qed.

End Stall.

Section Stalled.
Context `{P : Platform}.

Lemma engine_ready_Forall (st : AudioSynthPlaytune) :
  engine_ready st = true ->
  Forall (fun tg => voice_ready tg = true) (tone_gen st).
Proof.
  intros Hst. apply Forall_forall. intros tg Hin.
  apply list_elem_of_lookup_1 in Hin as [i Hi].
  eapply engine_ready_voice; eassumption.
Qed.

(** A sample of an engine that waits for no count: no score command is
    decoded, only the generators move. *)
Lemma update_sample_stalled (fuel : nat) (st : AudioSynthPlaytune) :
  (2 <= fuel)%nat -> engine_ready st = true ->
  0 <= num_tgens_used st <= MAX_TGENS ->
  scorewait_samples st = 0 ->
  exists (st' : AudioSynthPlaytune) (x : Z),
    update_sample fuel st = Ret (st', x) /\
    st' = set_tone_gen (tone_gen st') st /\
    engine_ready st' = true /\
    Forall2 persists (tone_gen st) (tone_gen st').
Proof.
  intros Hfuel Hst Hn Hwait. unfold update_sample.
  rewrite Hwait. cbn [Z.eqb negb]. rewrite andb_false_r. cbn [bind].
  destruct (mix_ready fuel (amplitude_fraction st)
              (Z.to_nat (num_tgens_used st)) Hfuel 0 (tone_gen st) 0)
    as (tgs & level & Hmix & Hpers).
  { rewrite (engine_ready_length _ Hst). unfold MAX_TGENS in Hn. lia. }
  { apply engine_ready_Forall. exact Hst. }
  change (Z.of_nat 0) with 0 in Hmix. rewrite Hmix. cbn [bind].
  eexists _, _. split; [reflexivity |].
  cbn [tone_gen set_tone_gen]. split; [reflexivity |]. split; [| exact Hpers].
  apply engine_ready_intro; cbn [tone_gen set_tone_gen].
  - rewrite <- (Forall2_length _ _ _ Hpers). apply engine_ready_length.
    exact Hst.
  - intros i tg' Htg'.
    destruct (Forall2_lookup_r _ _ _ _ _ Hpers Htg') as (tg & _ & [Hr _]).
    exact Hr.
Qed.

Lemma render_stalled (fuel : nat) (n : nat) :
  (2 <= fuel)%nat ->
  forall st : AudioSynthPlaytune,
    engine_ready st = true ->
    0 <= num_tgens_used st <= MAX_TGENS ->
    scorewait_samples st = 0 ->
    exists (st' : AudioSynthPlaytune) (xs : list Z),
      render fuel n st = Ret (st', xs) /\
      st' = set_tone_gen (tone_gen st') st /\
      Forall2 persists (tone_gen st) (tone_gen st').
Proof.
  intros Hfuel. induction n as [| n IH]; intros st Hst Hn Hwait.
  - exists st, []. split; [reflexivity |]. split; [destruct st; reflexivity |].
    apply Forall_Forall2_diag.
    eapply Forall_impl; [apply engine_ready_Forall; exact Hst |].
    intros tg Hr. apply persists_refl. exact Hr.
  - destruct (update_sample_stalled fuel st Hfuel Hst Hn Hwait)
      as (st1 & x & Hupd & Hst1 & Hr1 & Hp1).
    destruct (IH st1 Hr1) as (st2 & xs & Hrender & Hst2 & Hp2).
    { rewrite Hst1. exact Hn. }
    { rewrite Hst1. exact Hwait. }
    cbn [render]. rewrite Hupd. cbn [bind]. rewrite Hrender. cbn [bind].
    exists st2, (x :: xs). split; [reflexivity |]. split.
    + rewrite Hst2 at 1. rewrite Hst1. reflexivity.
    + eapply Forall2_trans; [| exact Hp1 | exact Hp2].
      intros a b c. apply persists_trans.
Qed.

(** C9, as amended. A wait command of 0 ms (bytes 0x00 0x00) ends the
    decoding loop with [scorewait_samples] = 0. From a well-formed engine
    that is playing with [scorewait_samples] = 0, any number of samples is
    rendered without a score command being decoded: the cursor stays where
    it is, [tune_playing] stays true, [scorewait_samples] stays 0, and every
    melodic generator that was sounding and not yet released is still
    sounding. *)
Theorem zero_wait_stalls_score :
  (forall (fuel : nat) (st : AudioSynthPlaytune),
     pgm_read_byte (score_cursor st) = 0 ->
     pgm_read_byte (score_cursor st + 1) = 0 ->
     tune_stepscore (S fuel) st
     = Ret (set_scorewait_samples 0
              (set_score_cursor (score_cursor st + 2) st))) /\
  (forall (fuel n : nat) (st : AudioSynthPlaytune),
     (2 <= fuel)%nat -> engine_ready st = true ->
     0 <= num_tgens_used st <= MAX_TGENS ->
     tune_playing st = true -> scorewait_samples st = 0 ->
     exists (st' : AudioSynthPlaytune) (xs : list Z),
       render fuel n st = Ret (st', xs) /\
       tune_playing st' = true /\ scorewait_samples st' = 0 /\
       score_cursor st' = score_cursor st /\
       forall (i : nat) (tg : tone_gen_t),
         tone_gen st !! i = Some tg ->
         playing tg = true -> percussion tg = false ->
         env_state tg <> ENV_RELEASE ->
         exists tg' : tone_gen_t,
           tone_gen st' !! i = Some tg' /\
           playing tg' = true /\ env_state tg' <> ENV_RELEASE).
Proof.
  split.
  - intros fuel st Hcmd Hlo. cbn [tune_stepscore]. unfold tune_stepscore_cmd.
    rewrite Hcmd. cbn [Z.ltb Z.compare].
    cbn [score_cursor set_score_cursor]. rewrite Hlo. cbn [bind].
    replace (score_cursor st + 1 + 1) with (score_cursor st + 2) by lia.
    reflexivity.
  - intros fuel n st Hfuel Hst Hn Hplay Hwait.
    destruct (render_stalled fuel n Hfuel st Hst Hn Hwait)
      as (st' & xs & Hrender & Hst' & Hpers).
    exists st', xs. split; [exact Hrender |].
    split; [rewrite Hst'; exact Hplay |].
    split; [rewrite Hst'; exact Hwait |].
    split; [rewrite Hst'; reflexivity |].
    intros i tg Htg H1 H2 H3.
    destruct (Forall2_lookup_l _ _ _ _ _ Hpers Htg) as (tg' & Htg' & [_ Hk]).
    destruct (Hk H1 H2 H3) as (H4 & _ & H6).
    exists tg'. split; [exact Htg' |]. split; assumption.
Qed.

End Stalled.

Lemma random_bytes_lookup (n : nat) :
  forall (s : Z) (k : nat),
    (k < n)%nat ->
    random_bytes n s !! k = Some (Nat.iter (S k) random_byte s).
Proof.
  induction n as [| n IH]; intros s k Hk; [lia |].
  destruct k as [| k]; [reflexivity |].
  cbn [random_bytes]. cbv zeta. rewrite lookup_cons_ne_0 by lia.
  cbn [Nat.pred]. rewrite IH by lia. rewrite (Nat.iter_succ_r (S k)).
  reflexivity.
Qed.

Lemma random_byte_iter_nonzero (k : nat) (s : Z) :
  0 < s < 256 -> 0 < Nat.iter k random_byte s < 256.
Proof.
  intros Hs. induction k as [| k IH]; [exact Hs |].
  cbn [Nat.iter nat_rect]. apply random_byte_nonzero. exact IH.
Qed.

(** No value of 1..255 comes back in fewer than 255 calls. *)
Lemma random_byte_no_short_cycle (r : Z) (m : nat) :
  0 < r < 256 -> (0 < m < 255)%nat -> Nat.iter m random_byte r <> r.
Proof.
  intros Hr Hm Heq.
  assert (Hall : forallb
            (fun n => let s := Z.of_nat n in
                      forallb (fun x => negb (x =? s)) (random_bytes 254 s))
            (seq 1 255) = true) by (vm_compute; reflexivity).
  rewrite forallb_forall in Hall. specialize (Hall (Z.to_nat r)).
  rewrite Z2Nat.id in Hall by lia. cbv zeta in Hall.
  assert (Hin : In (Z.to_nat r) (seq 1 255)) by (apply in_seq; lia).
  apply Hall in Hin. rewrite forallb_forall in Hin.
  specialize (Hin (Nat.iter m random_byte r)).
  rewrite Heq in Hin at 2. rewrite Z.eqb_refl in Hin.
  assert (Hmem : In (Nat.iter m random_byte r) (random_bytes 254 r)).
  { apply list_elem_of_In. apply (list_elem_of_lookup_2 _ (m - 1)).
    rewrite random_bytes_lookup by lia.
    replace (S (m - 1)) with m by lia. reflexivity. }
  apply Hin in Hmem. discriminate Hmem.
Qed.

Lemma phase_offset_injective (a b : Z) :
  Z.shiftl a 23 = Z.shiftl b 23 -> a = b.
Proof. rewrite !Z.shiftl_mul_pow2 by lia. lia. Qed.

(** ** The seed through the engine (claim C8) *)

Section Seed.
Context `{P : Platform}.

Lemma tune_playnote_seed (tgen note vol : Z) (st st' : AudioSynthPlaytune) :
  tune_playnote tgen note vol st = Ret st' ->
  seed_reachable (seed st) -> seed_reachable (seed st').
Proof.
  unfold tune_playnote. intros H Hseed.
  destruct (tgen <? MAX_TGENS); [| injection H as <-; exact Hseed].
  destruct (index (tone_gen st) tgen) as [tg0 | |]; cbn [bind] in H;
    try discriminate.
  match type of H with
  | bind ?m _ = _ => destruct m as [[[tg1 vol1] seed1] | |] eqn:Hnote
  end; cbn [bind] in H; try discriminate.
  injection H as <-. cbn [seed set_seed].
  destruct (128 <=? note); bind_inv Hnote; injection Hnote as _ _ <-.
  - exact Hseed.
  - constructor. exact Hseed.
Qed.

Lemma tune_stopnote_seed (tgen : Z) (st st' : AudioSynthPlaytune) :
  tune_stopnote tgen st = Ret st' -> seed st' = seed st.
Proof.
  unfold tune_stopnote. intros H.
  destruct (tgen <? MAX_TGENS); [| injection H as <-; reflexivity].
  bind_inv H. injection H as <-. reflexivity.
Qed.

Lemma tune_setinstrument_seed (tgen i : Z) (st st' : AudioSynthPlaytune) :
  tune_setinstrument tgen i st = Ret st' -> seed st' = seed st.
Proof.
  unfold tune_setinstrument. intros H. bind_inv H. injection H as <-.
  reflexivity.
Qed.

Lemma for_each_seed
    (body : Z -> AudioSynthPlaytune -> result AudioSynthPlaytune) :
  (forall i s s', body i s = Ret s' -> seed s' = seed s) ->
  forall n i st st', for_each n i body st = Ret st' -> seed st' = seed st.
Proof.
  intros Hbody. induction n as [| n IH]; intros i st st' H;
    cbn [for_each] in H.
  - injection H as <-. reflexivity.
  - bind_inv H. apply IH in H. apply Hbody in E. congruence.
Qed.

Lemma stop_seed (st st' : AudioSynthPlaytune) :
  stop st = Ret st' -> seed st' = seed st.
Proof.
  unfold stop, tune_stopscore. intros H. bind_inv H. injection H as <-.
  apply (for_each_seed _ tune_stopnote_seed) in E. exact E.
Qed.

Lemma tune_stepscore_cmd_seed (st st' : AudioSynthPlaytune) (again : bool) :
  tune_stepscore_cmd st = Ret (st', again) ->
  seed_reachable (seed st) -> seed_reachable (seed st').
Proof.
  unfold tune_stepscore_cmd. intros H Hseed.
  destruct (_ <? 0x80). { injection H as <- _. exact Hseed. }
  destruct (_ =? CMD_STOPNOTE).
  { bind_inv H. injection H as <- _. apply tune_stopnote_seed in E.
    rewrite E. exact Hseed. }
  destruct (_ =? CMD_PLAYNOTE).
  { bind_inv H. injection H as <- _. apply tune_playnote_seed in E;
      [exact E |].
    destruct (volume_present _); exact Hseed. }
  destruct (_ =? CMD_INSTRUMENT).
  { bind_inv H. injection H as <- _. apply tune_setinstrument_seed in E0.
    rewrite E0. exact Hseed. }
  destruct (_ =? CMD_RESTART). { injection H as <- _. exact Hseed. }
  destruct (_ =? CMD_STOP).
  { bind_inv H. injection H as <- _. apply stop_seed in E. rewrite E.
    exact Hseed. }
  injection H as <- _. exact Hseed.
Qed.

Lemma tune_stepscore_seed (fuel : nat) (st st' : AudioSynthPlaytune) :
  tune_stepscore fuel st = Ret st' ->
  seed_reachable (seed st) -> seed_reachable (seed st').
Proof.
  revert st. induction fuel as [| fuel IH]; intros st H Hseed;
    cbn [tune_stepscore] in H; [discriminate |].
  destruct (tune_stepscore_cmd st) as [[s again] | |] eqn:E;
    cbn [bind] in H; try discriminate.
  apply tune_stepscore_cmd_seed in E; [| exact Hseed]. destruct again.
  - eapply IH; eassumption.
  - injection H as <-. exact E.
Qed.

Lemma update_sample_seed (fuel : nat) (st st' : AudioSynthPlaytune) (x : Z) :
  update_sample fuel st = Ret (st', x) ->
  seed_reachable (seed st) -> seed_reachable (seed st').
Proof.
  unfold update_sample. intros H Hseed.
  match type of H with bind ?m _ = _ => destruct m as [a | |] eqn:E end;
    cbn [bind] in H; try discriminate.
  bind_inv H. injection H as <- _. cbn [seed set_tone_gen].
  destruct (tune_playing st && negb (scorewait_samples st =? 0)).
  - cbn [scorewait_samples set_scorewait_samples] in E.
    destruct (_ =? 0).
    + apply tune_stepscore_seed in E; [exact E | exact Hseed].
    + injection E as <-. exact Hseed.
  - injection E as <-. exact Hseed.
Qed.

Lemma play2_seed (fuel : nat) (score n : Z) (st st' : AudioSynthPlaytune) :
  play2 fuel score n st = Ret st' ->
  seed_reachable (seed st) -> seed_reachable (seed st').
Proof.
  unfold play2, tune_playscore, tune_playscore_header.
  cbn [tune_playing set_num_tgens_used]. intros H Hseed.
  match type of H with bind ?m _ = _ => destruct m as [h | |] eqn:Eh end;
    cbn [bind] in H; try discriminate.
  bind_inv H. injection H as <-. cbn [seed set_tune_playing].
  eapply tune_stepscore_seed; [eassumption |].
  clear - Eh Hseed. bind_inv Eh. injection Eh as <-.
  cbn [seed set_score_cursor set_amplitude_fraction].
  match goal with
  | |- seed_reachable (seed (if ?c then _ else _)) => destruct c
  end; cbn [seed set_score_start set_num_tgens_used set_volume_present
            set_file_header];
    match goal with
    | H : for_each _ _ _ _ = Ret _ |- _ =>
        apply (for_each_seed _ (fun i s s' => tune_setinstrument_seed i _ s s'))
          in H; rewrite H
    end;
    cbn [seed set_score_start set_num_tgens_used set_volume_present];
    match goal with
    | H : (if tune_playing st then _ else _) = Ret _ |- _ =>
        destruct (tune_playing st);
        [apply stop_seed in H; rewrite H | injection H as <-]
    end; exact Hseed.
Qed.

Lemma melodic_note_on_inv (st st' : AudioSynthPlaytune) (tgen note vol : Z)
    (tg' : tone_gen_t) :
  0 <= tgen < MAX_TGENS -> note < 128 ->
  tune_playnote tgen note vol st = Ret st' ->
  tone_gen st' !! Z.to_nat tgen = Some tg' ->
  seed st' = random_byte (seed st) /\
  tone_phase tg' = int32 (Z.shiftl (random_byte (seed st)) 23).
Proof.
  intros Htgen Hnote H Htg'. unfold tune_playnote in H.
  destruct (Z.ltb_spec tgen MAX_TGENS) as [_ | ?]; [| lia].
  destruct (index (tone_gen st) tgen) as [tg | |] eqn:Htg; cbn [bind] in H;
    try discriminate.
  destruct (Z.leb_spec 128 note) as [? | _]; [lia |].
  destruct (index instrument_waveforms (instrument_index tg)) as [iw | |];
    cbn [bind] in H; try discriminate.
  destruct (index freq4096 _) as [freq | |]; cbn [bind] in H;
    try discriminate.
  destruct (c_div _ _) as [incr | |]; cbn [bind] in H; try discriminate.
  injection H as <-. cbn [seed set_seed]. split; [reflexivity |].
  cbn [tone_gen set_seed set_tone_gen] in Htg'.
  apply index_Ret in Htg as [_ Htg].
  rewrite list_lookup_insert_eq in Htg'
    by (eapply lookup_lt_Some; exact Htg).
  injection Htg' as <-. reflexivity.
Qed.

(** Two melodic note-ons with [k < 254] draws of the generator between
    them start at different phases. *)
Lemma melodic_note_on_phases_differ
    (st1 st1' st2 st2' : AudioSynthPlaytune)
    (tgen1 note1 vol1 tgen2 note2 vol2 : Z) (tg1 tg2 : tone_gen_t)
    (k : nat) :
  seed_reachable (seed st1) ->
  0 <= tgen1 < MAX_TGENS -> note1 < 128 ->
  tune_playnote tgen1 note1 vol1 st1 = Ret st1' ->
  tone_gen st1' !! Z.to_nat tgen1 = Some tg1 ->
  (k < 254)%nat -> seed st2 = Nat.iter k random_byte (seed st1') ->
  0 <= tgen2 < MAX_TGENS -> note2 < 128 ->
  tune_playnote tgen2 note2 vol2 st2 = Ret st2' ->
  tone_gen st2' !! Z.to_nat tgen2 = Some tg2 ->
  tone_phase tg1 <> tone_phase tg2.
Proof.
  intros Hseed Ht1 Hn1 Hp1 Hl1 Hk Hs2 Ht2 Hn2 Hp2 Hl2 Heq.
  destruct (melodic_note_on_inv _ _ _ _ _ _ Ht1 Hn1 Hp1 Hl1) as [Hs1' Hph1].
  destruct (melodic_note_on_inv _ _ _ _ _ _ Ht2 Hn2 Hp2 Hl2) as [_ Hph2].
  pose proof (random_byte_nonzero _ (seed_reachable_nonzero _ Hseed)) as Hr1.
  rewrite <- Hs1' in Hph1, Hr1. rewrite Hs2 in Hph2.
  change (random_byte (Nat.iter k random_byte (seed st1')))
    with (Nat.iter (S k) random_byte (seed st1')) in Hph2.
  pose proof (random_byte_iter_nonzero (S k) _ Hr1) as Hr2.
  rewrite int32_small in Hph1 by (rewrite Z.shiftl_mul_pow2 by lia; lia).
  rewrite int32_small in Hph2 by (rewrite Z.shiftl_mul_pow2 by lia; lia).
  rewrite Hph1, Hph2 in Heq. apply phase_offset_injective in Heq.
  apply (random_byte_no_short_cycle (seed st1') (S k) Hr1); [lia |].
  symmetry. exact Heq.
Qed.

(** C8. The phase of a melodic note-on is a pseudo-random offset that is
    never zero. The seed, starting from 23, never becomes zero: the random
    byte generator maps 1..255 into 1..255, and starting a score, decoding
    its commands, rendering samples and stopping keep the seed among the
    values reached from 23. A melodic note-on on a generator with a valid
    instrument succeeds, draws the next random byte [r] and leaves the phase
    at [r << 23], which is strictly positive and below 2^31. And the
    offsets decorrelate the voices: since the generator does not repeat a
    value within 255 calls, a melodic note-on starts at a phase different
    from that of every earlier melodic note-on with fewer than 254 draws in
    between; in particular the notes of a chord all start at different
    phases. *)
Theorem melodic_note_on_phase_never_zero :
  (forall s : Z, seed_reachable s -> 0 < s < 256) /\
  (forall (st : AudioSynthPlaytune) (tgen note vol : Z) (tg : tone_gen_t)
          (iw : instrument_waveform_t),
     seed_reachable (seed st) ->
     0 <= tgen < MAX_TGENS -> note < 128 ->
     tone_gen st !! Z.to_nat tgen = Some tg ->
     index instrument_waveforms (instrument_index tg) = Ret iw ->
     uint64 (Qtrunc AUDIO_SAMPLE_RATE) <> 0 ->
     exists (st' : AudioSynthPlaytune) (tg' : tone_gen_t),
       tune_playnote tgen note vol st = Ret st' /\
       tone_gen st' !! Z.to_nat tgen = Some tg' /\
       seed st' = random_byte (seed st) /\
       seed_reachable (seed st') /\
       tone_phase tg' = Z.shiftl (seed st') 23 /\
       0 < tone_phase tg' < 2 ^ 31 /\
       playing tg' = true /\ percussion tg' = false) /\
  (forall (st1 st1' st2 st2' : AudioSynthPlaytune)
          (tgen1 note1 vol1 tgen2 note2 vol2 : Z) (tg1 tg2 : tone_gen_t)
          (k : nat),
     seed_reachable (seed st1) ->
     0 <= tgen1 < MAX_TGENS -> note1 < 128 ->
     tune_playnote tgen1 note1 vol1 st1 = Ret st1' ->
     tone_gen st1' !! Z.to_nat tgen1 = Some tg1 ->
     (k < 254)%nat -> seed st2 = Nat.iter k random_byte (seed st1') ->
     0 <= tgen2 < MAX_TGENS -> note2 < 128 ->
     tune_playnote tgen2 note2 vol2 st2 = Ret st2' ->
     tone_gen st2' !! Z.to_nat tgen2 = Some tg2 ->
     tone_phase tg1 <> tone_phase tg2) /\
  (forall (fuel : nat) (score n : Z) (st st' : AudioSynthPlaytune),
     play2 fuel score n st = Ret st' ->
     seed_reachable (seed st) -> seed_reachable (seed st')) /\
  (forall (fuel : nat) (st st' : AudioSynthPlaytune) (x : Z),
     update_sample fuel st = Ret (st', x) ->
     seed_reachable (seed st) -> seed_reachable (seed st')) /\
  (forall st st' : AudioSynthPlaytune,
     stop st = Ret st' -> seed st' = seed st).
Proof.
  split; [exact seed_reachable_nonzero |].
  split; [exact melodic_note_on_draws_phase |].
  split; [exact melodic_note_on_phases_differ |].
  split; [exact play2_seed |].
  split; [exact update_sample_seed | exact stop_seed].
Qed.

End Seed.

(** * The properties at concrete scores *)

(** ** Stopping (claim C1) *)

(** C1, counterexample. After [play(one_note_score)] and 100 samples the
    note on generator 0 is sounding; [stop()] then returns with playback
    inactive but generator 0 still active, in its release phase, and the
    next sample rendered is not silent. *)
Lemma stop_leaves_melodic_voice_playing :
  @play one_note_platform 10 0 idle_engine = Ret one_note_engine /\
  @render one_note_platform 10 100 one_note_engine
  = Ret (one_note_attack_engine,
         snd (result_get (idle_engine, [])
                (@render one_note_platform 10 100 one_note_engine))) /\
  playing (tgen_of 0 one_note_attack_engine) = true /\
  @stop one_note_platform one_note_attack_engine
  = Ret one_note_stopped_engine /\
  isPlaying one_note_stopped_engine = false /\
  playing (tgen_of 0 one_note_stopped_engine) = true /\
  env_state (tgen_of 0 one_note_stopped_engine) = ENV_RELEASE /\
  exists st' : AudioSynthPlaytune,
    @update_sample one_note_platform 10 one_note_stopped_engine
    = Ret (st', -1966).
Proof.
  repeat (split; [vm_compute; reflexivity |]).
  eexists. vm_compute. reflexivity.
Qed.

Lemma stop_halts_score_and_releases_voices_witness :
  @engine_ready one_note_platform one_note_attack_engine = true /\
  exists st' : AudioSynthPlaytune,
    @stop one_note_platform one_note_attack_engine = Ret st' /\
    isPlaying st' = false /\
    st' = set_tune_playing false
            (set_tone_gen (tone_gen st') one_note_attack_engine).
Proof.
  split; [vm_compute; reflexivity |].
  destruct (proj1 (@stop_halts_score_and_releases_voices one_note_platform)
              one_note_attack_engine) as (st' & H1 & H2 & H3 & _).
  - vm_compute. reflexivity.
  - exists st'. split; [exact H1 |]. split; [exact H2 | exact H3].
Defined.

(** ** Mixing (claim C2) *)

(** C2, at the failing input. With the header's two generators both
    striking a full-scale drum at maximum velocity, the level mixed for the
    first sample is 39318, above 32767; the value stored in the block is
    39318 - 65536 = -26218, not the clipped 32767. *)
Theorem mixed_level_wraps_around :
  @play two_drums_platform 10 0 idle_engine = Ret two_drums_engine /\
  (exists tgs : list tone_gen_t,
     @mix two_drums_platform 10 (amplitude_fraction two_drums_engine)
       (Z.to_nat (num_tgens_used two_drums_engine)) 0
       (tone_gen two_drums_engine) 0 = Ret (tgs, 39318)) /\
  (exists st' : AudioSynthPlaytune,
     @update_sample two_drums_platform 10 two_drums_engine
     = Ret (st', -26218)) /\
  int16 39318 = -26218 /\
  Z.max (-32768) (Z.min 32767 39318) = 32767.
Proof.
  split; [vm_compute; reflexivity |].
  split; [eexists; vm_compute; reflexivity |].
  split; [eexists; vm_compute; reflexivity |].
  split; reflexivity.
Qed.

(** ** The header (claim C3) and the restart command (claim C7) *)

Lemma play_reads_header_witness :
  @engine_ready header_platform idle_engine = true /\
  exists h : AudioSynthPlaytune,
    @tune_playscore_header header_platform 0 idle_engine = Ret h /\
    num_tgens_used h = 4 /\ volume_present h = true /\
    amplitude_fraction h = 26214 /\ score_cursor h = 0 + 6.
Proof.
  split; [vm_compute; reflexivity |].
  destruct (proj1 (@play_reads_header header_platform) 10%nat 0 16
              idle_engine) as (h & H1 & _ & _ & _ & _ & H2).
  - vm_compute. reflexivity.
  - exists h. split; [exact H1 |].
    apply H2; vm_compute; reflexivity.
Defined.

Lemma restart_only_resets_cursor_witness :
  Z.land (@pgm_read_byte restart_platform (score_cursor restart_engine)) 0xf0
  = CMD_RESTART /\
  @tune_stepscore_cmd restart_platform restart_engine
  = Ret (set_score_cursor (score_start restart_engine) restart_engine, true).
Proof.
  split; [vm_compute; reflexivity |].
  apply (@restart_only_resets_cursor restart_platform restart_engine).
  vm_compute. reflexivity.
Defined.

(** ** The envelope (claims C4 and C5) *)

(** C4, counterexample. The note of [one_note_score] is stopped 100 samples
    in, while its attack has the multiplier at 14800: the note-off sets the
    multiplier to the sustain level 39321 instead of ramping from 14800, and
    after the 2647 samples of the piano's release the multiplier is 2263,
    not 0, with the generator still active. *)
Lemma release_ramp_ignores_level_and_misses_zero :
  playing (tgen_of 0 one_note_attack_engine) = true /\
  percussion (tgen_of 0 one_note_attack_engine) = false /\
  env_state (tgen_of 0 one_note_attack_engine) = ENV_ATTACK /\
  env_mult (tgen_of 0 one_note_attack_engine) = 14800 /\
  @stop_tone_gen one_note_platform (tgen_of 0 one_note_attack_engine)
  = Ret (tgen_of 0 one_note_stopped_engine) /\
  env_mult (tgen_of 0 one_note_stopped_engine) = 39321 /\
  env_count (tgen_of 0 one_note_stopped_engine) = 2647 /\
  @update_tgen_n one_note_platform 10 6553 2647
    (tgen_of 0 one_note_stopped_engine) = Ret one_note_released /\
  env_mult one_note_released = 2263 /\
  playing one_note_released = true.
Proof.
  repeat (split; [vm_compute; reflexivity |]). vm_compute. reflexivity.
Qed.

Lemma note_off_release_ramp_witness :
  playing (tgen_of 0 one_note_attack_engine) = true /\
  percussion (tgen_of 0 one_note_attack_engine) = false /\
  exists tg1 : tone_gen_t,
    @stop_tone_gen one_note_platform (tgen_of 0 one_note_attack_engine)
    = Ret tg1 /\
    playing tg1 = true /\ env_state tg1 = ENV_RELEASE /\
    env_mult tg1 = 39321 /\ env_incr tg1 = - (39321 / 2647) /\
    env_count tg1 = 2647.
Proof.
  split; [vm_compute; reflexivity |]. split; [vm_compute; reflexivity |].
  destruct (@note_off_release_ramp one_note_platform 10%nat 6553
              (tgen_of 0 one_note_attack_engine)
              (instrument_entry teensy_rate waveform_piano_0013 60))
    as (tg1 & H1 & H2 & H3 & H4 & H5 & H6 & _).
  - lia.
  - vm_compute. reflexivity.
  - vm_compute. reflexivity.
  - vm_compute. reflexivity.
  - vm_compute. split; reflexivity.
  - vm_compute. split; [discriminate | reflexivity].
  - exists tg1. repeat (split; [assumption |]). assumption.
Defined.


(** ** Table bounds (claim C6) and the phase at a note-on (claim C8) *)

Lemma waveform_reads_stay_in_table_witness :
  @drums_fit one_note_platform = true /\
  playing (tgen_of 1 drum_on_engine) = true /\
  0 <= tone_phase (tgen_of 1 drum_on_engine) < 2 ^ 31 /\
  exists index1 index2 scale : Z,
    wave_index (tgen_of 1 drum_on_engine) = (index1, index2, scale) /\
    0 <= scale <= 0xFFFF.
Proof.
  split; [vm_compute; reflexivity |]. split; [vm_compute; reflexivity |].
  destruct (@waveform_reads_stay_in_table one_note_platform
              ltac:(vm_compute; reflexivity) (tgen_of 1 drum_on_engine))
    as (H1 & i1 & i2 & sc & H2 & H3 & _).
  - apply (@sounding_playnote one_note_platform 1 128 127 idle_engine
             drum_on_engine).
    + unfold MAX_TGENS. lia.
    + vm_compute. reflexivity.
    + vm_compute. reflexivity.
  - vm_compute. reflexivity.
  - split; [exact H1 |]. exists i1, i2, sc. split; [exact H2 | exact H3].
Defined.

Lemma melodic_note_on_phase_never_zero_witness :
  (exists (st' : AudioSynthPlaytune) (tg' : tone_gen_t),
     @tune_playnote one_note_platform 0 60 127 idle_engine = Ret st' /\
     tone_gen st' !! 0%nat = Some tg' /\
     0 < tone_phase tg' < 2 ^ 31) /\
  tone_phase (tgen_of 0 note_on_engine)
  <> tone_phase (tgen_of 1 chord_engine).
Proof.
  split.
  - destruct (proj1 (proj2 (@melodic_note_on_phase_never_zero
                                one_note_platform))
                idle_engine 0 60 127 idle_tone_gen
                (instrument_entry teensy_rate waveform_aguitar_0033 DF_RL))
      as (st' & tg' & H1 & H2 & _ & _ & _ & H3 & _).
    + apply seed_initial.
    + unfold MAX_TGENS. lia.
    + lia.
    + vm_compute. reflexivity.
    + vm_compute. reflexivity.
    + vm_compute. discriminate.
    + exists st', tg'. split; [exact H1 |]. split; [exact H2 | exact H3].
  - apply (proj1 (proj2 (proj2 (@melodic_note_on_phase_never_zero
                                  one_note_platform)))
             idle_engine note_on_engine note_on_engine chord_engine
             0 60 127 1 60 127 _ _ 0%nat).
    + apply seed_initial.
    + unfold MAX_TGENS. lia.
    + lia.
    + vm_compute. reflexivity.
    + vm_compute. reflexivity.
    + lia.
    + reflexivity.
    + unfold MAX_TGENS. lia.
    + lia.
    + vm_compute. reflexivity.
    + vm_compute. reflexivity.
Defined.

(** ** A wait of 0 ms (claim C9) *)

(** C9, counterexample. [zero_wait_score] starts a note and a drum and then
    waits 0 ms. After [play] both generators are sounding and the engine
    stalls at cursor 6; 2400 samples later the cursor is still 6, the note
    is held in its sustain, but the drum has played to its end and its
    generator is inactive: a sounding voice did not continue forever. *)
Lemma zero_wait_percussion_voice_ends :
  @play zero_wait_platform 10 0 idle_engine = Ret zero_wait_engine /\
  tune_playing zero_wait_engine = true /\
  scorewait_samples zero_wait_engine = 0 /\
  score_cursor zero_wait_engine = 6 /\
  playing (tgen_of 0 zero_wait_engine) = true /\
  playing (tgen_of 1 zero_wait_engine) = true /\
  percussion (tgen_of 1 zero_wait_engine) = true /\
  @render zero_wait_platform 10 2400 zero_wait_engine
  = Ret (zero_wait_later_engine,
         snd (result_get (idle_engine, [])
                (@render zero_wait_platform 10 2400 zero_wait_engine))) /\
  score_cursor zero_wait_later_engine = 6 /\
  playing (tgen_of 0 zero_wait_later_engine) = true /\
  playing (tgen_of 1 zero_wait_later_engine) = false.
Proof.
  repeat (split; [vm_compute; reflexivity |]). vm_compute. reflexivity.
Qed.

Lemma zero_wait_stalls_score_witness :
  @engine_ready zero_wait_platform zero_wait_engine = true /\
  tune_playing zero_wait_engine = true /\
  scorewait_samples zero_wait_engine = 0 /\
  exists (st' : AudioSynthPlaytune) (xs : list Z),
    @render zero_wait_platform 10 100 zero_wait_engine = Ret (st', xs) /\
    tune_playing st' = true /\ scorewait_samples st' = 0 /\
    score_cursor st' = score_cursor zero_wait_engine.
Proof.
  repeat (split; [vm_compute; reflexivity |]).
  destruct (proj2 (@zero_wait_stalls_score zero_wait_platform) 10%nat 100%nat
              zero_wait_engine) as (st' & xs & H1 & H2 & H3 & H4 & _).
  - lia.
  - vm_compute. reflexivity.
  - vm_compute. split; discriminate.
  - vm_compute. reflexivity.
  - vm_compute. reflexivity.
  - exists st', xs. repeat (split; [assumption |]). assumption.
Defined.

(** * Further properties of the engine *)

(** ** The random byte generator *)

(** X1. The generator has the full period its header comment states: from
    any seed in 1..255 it comes back to that seed after exactly 255 calls
    and not before; 0 is a fixed point, which is why the seed must not be
    0. *)
Theorem random_byte_full_period :
  random_byte 0 = 0 /\
  forall s : Z,
    0 < s < 256 ->
    Nat.iter 255 random_byte s = s /\
    forall k : nat, (0 < k < 255)%nat -> Nat.iter k random_byte s <> s.
Proof.
  split; [reflexivity |]. intros s Hs.
  assert (Hall : forallb
            (fun n => let s := Z.of_nat n in
                      let l := random_bytes 255 s in
                      match l !! 254%nat with
                      | Some r => r =? s
                      | None => false
                      end
                      && forallb (fun r => negb (r =? s)) (take 254 l))
            (seq 1 255) = true) by (vm_compute; reflexivity).
  rewrite forallb_forall in Hall. specialize (Hall (Z.to_nat s)).
  rewrite Z2Nat.id in Hall by lia. cbv zeta in Hall.
  assert (Hin : In (Z.to_nat s) (seq 1 255)) by (apply in_seq; lia).
  apply Hall in Hin. apply andb_prop in Hin as [Hlast Hfirst]. split.
  - rewrite (random_bytes_lookup 255 s 254) in Hlast by lia.
    apply Z.eqb_eq in Hlast. exact Hlast.
  - intros k Hk Heq. rewrite forallb_forall in Hfirst.
    specialize (Hfirst (Nat.iter k random_byte s)).
    rewrite Heq in Hfirst at 2. rewrite Z.eqb_refl in Hfirst.
    assert (Hmem : In (Nat.iter k random_byte s)
                     (take 254 (random_bytes 255 s))).
    { apply list_elem_of_In. apply (list_elem_of_lookup_2 _ (k - 1)).
      rewrite lookup_take_lt by lia.
      rewrite random_bytes_lookup by lia.
      replace (S (k - 1)) with k by lia. reflexivity. }
    apply Hfirst in Hmem. discriminate Hmem.
Qed.

Lemma random_byte_full_period_witness :
  0 < 23 < 256 /\ Nat.iter 255 random_byte 23 = 23.
Proof.
  split; [lia |].
  apply (proj2 random_byte_full_period 23). lia.
Defined.

(** ** Note-on *)

Lemma drum_patch_map_valid (k : Z) :
  0 <= k < 128 ->
  exists d : Z, index drum_patch_map k = Ret d /\ 0 <= d < 6.
Proof.
  intros Hk.
  assert (Hall : forallb
            (fun n => match index drum_patch_map (Z.of_nat n) with
                      | Ret d => (0 <=? d) && (d <? 6)
                      | _ => false
                      end) (seq 0 128) = true) by (vm_compute; reflexivity).
  rewrite forallb_forall in Hall. specialize (Hall (Z.to_nat k)).
  rewrite Z2Nat.id in Hall by lia.
  assert (Hin : In (Z.to_nat k) (seq 0 128)) by (apply in_seq; lia).
  apply Hall in Hin.
  destruct (index drum_patch_map k) as [d | |]; try discriminate.
  apply andb_prop in Hin as [H1 H2]. exists d. split; [reflexivity | lia].
Qed.

Lemma drum_tables_valid (d : Z) :
  0 <= d < 6 ->
  exists (w : waveform) (freq : Z),
    index drum_waveforms d = Ret (Some w) /\
    index drum_waveform_frequencies d = Ret freq.
Proof.
  intros Hd.
  assert (Hcases : d = 0 \/ d = 1 \/ d = 2 \/ d = 3 \/ d = 4 \/ d = 5) by lia.
  destruct Hcases as [-> | [-> | [-> | [-> | [-> | ->]]]]];
    eexists _, _; split; reflexivity.
Qed.

Section NoteOnMore.
Context `{P : Platform}.

(** X2. A note-on that returns leaves the addressed generator active with
    [volume_frac = ((vol mod 128) + 1) * 512]: the top bit of the velocity
    byte is ignored, velocities 0..127 map linearly (so strictly
    increasingly) onto 512..65536, and 127 is exactly unity, 0x10000. *)
Theorem note_on_sets_volume :
  forall (st st' : AudioSynthPlaytune) (tgen note vol : Z),
    0 <= tgen < MAX_TGENS ->
    tune_playnote tgen note vol st = Ret st' ->
    exists tg' : tone_gen_t,
      tone_gen st' !! Z.to_nat tgen = Some tg' /\
      playing tg' = true /\
      volume_frac tg' = (vol mod 128 + 1) * 512 /\
      512 <= volume_frac tg' <= 65536.
Proof.
  intros st st' tgen note vol Htgen H. unfold tune_playnote in H.
  destruct (Z.ltb_spec tgen MAX_TGENS); [| lia].
  destruct (index (tone_gen st) tgen) as [tg0 | |] eqn:Etg0;
    cbn [bind] in H; try discriminate.
  apply index_Ret in Etg0 as [_ Etg0]. apply lookup_lt_Some in Etg0.
  match type of H with
  | bind ?m _ = _ => destruct m as [[[tg1 vol1] seed1] | |] eqn:Hnote
  end; cbn [bind] in H; try discriminate.
  injection H as <-. eexists. split.
  { cbn [tone_gen set_seed set_tone_gen].
    apply list_lookup_insert_eq. exact Etg0. }
  assert (Hvol : vol1 = vol).
  { destruct (128 <=? note); bind_inv Hnote; injection Hnote as _ Hv _;
      symmetry; exact Hv. }
  subst vol1. cbn [playing volume_frac set_playing set_volume_frac].
  assert (Hland : Z.land vol 0x7f = vol mod 128)
    by (apply (Z.land_ones vol 7); lia).
  pose proof (Z.mod_pos_bound vol 128 ltac:(lia)) as Hmod.
  rewrite Hland, Z.shiftl_mul_pow2 by lia. change (2 ^ 9) with 512.
  rewrite int32_small by lia.
  split; [reflexivity |]. split; [reflexivity | lia].
Qed.

(** X3. Melodic notes outside the piano range sound at its ends: a note
    number below 21 gives exactly the note-on of 21, and one from 109 to
    127 exactly that of 108. *)
Theorem note_on_clamps_to_piano_range :
  forall (st : AudioSynthPlaytune) (tgen note vol : Z),
    (note < MIN_NOTE ->
     tune_playnote tgen note vol st = tune_playnote tgen MIN_NOTE vol st) /\
    (MAX_NOTE < note < 128 ->
     tune_playnote tgen note vol st = tune_playnote tgen MAX_NOTE vol st).
Proof.
  intros st tgen note vol. unfold tune_playnote, MIN_NOTE, MAX_NOTE.
  split; intros Hnote; destruct (tgen <? MAX_TGENS); try reflexivity;
    destruct (index (tone_gen st) tgen) as [tg | |]; cbn [bind];
    try reflexivity.
  - replace (128 <=? note) with false by (symmetry; apply Z.leb_gt; lia).
    replace (note <? 21) with true by (symmetry; apply Z.ltb_lt; lia).
    reflexivity.
  - replace (128 <=? note) with false by (symmetry; apply Z.leb_gt; lia).
    replace (note <? 21) with false by (symmetry; apply Z.ltb_ge; lia).
    replace (108 <? note) with true by (symmetry; apply Z.ltb_lt; lia).
    reflexivity.
Qed.

(** X4. Every percussion note (128..255) on a valid generator starts a drum:
    given a sample rate other than 0 and sizes for the six drums, the
    note-on returns, changes nothing but that generator (the seed is not
    advanced), and leaves it active as percussion at phase 0 with the
    envelope at unity and constant, playing one of the six drum tables (never
    the NULL stopper) up to that table's last index. The generator keeps its
    instrument. *)
Theorem percussion_note_on_starts_drum :
  forall (st : AudioSynthPlaytune) (tgen note vol : Z) (tg : tone_gen_t),
    0 <= tgen < MAX_TGENS -> 128 <= note < 256 ->
    tone_gen st !! Z.to_nat tgen = Some tg ->
    Qeq_bool AUDIO_SAMPLE_RATE 0 = false ->
    (6 <= length drum_waveform_size)%nat ->
    exists (tg' : tone_gen_t) (drum_enum size : Z),
      tune_playnote tgen note vol st
      = Ret (set_tone_gen (<[Z.to_nat tgen := tg']> (tone_gen st)) st) /\
      index drum_patch_map (note - 128) = Ret drum_enum /\
      0 <= drum_enum < 6 /\
      index drum_waveforms drum_enum = Ret (Some (waveform_array tg')) /\
      index drum_waveform_size drum_enum = Ret size /\
      drum_ending_sample_index tg' = uint16 (size - 1) /\
      percussion tg' = true /\ playing tg' = true /\
      tone_phase tg' = 0 /\ env_mult tg' = 0x10000 /\ env_incr tg' = 0 /\
      instrument_index tg' = instrument_index tg.
Proof.
  intros st tgen note vol tg Htgen Hnote Htg Hrate Hsizes.
  destruct (drum_patch_map_valid (note - 128)) as (d & Hd & Hdr); [lia |].
  destruct (drum_tables_valid d Hdr) as (w & freq & Hw & Hfreq).
  destruct (index_in_range drum_waveform_size d) as [size Hsize]; [lia |].
  unfold tune_playnote.
  destruct (Z.ltb_spec tgen MAX_TGENS); [| lia].
  rewrite (index_lookup _ _ _ (proj1 Htgen) Htg). cbn [bind].
  destruct (Z.leb_spec 128 note); [| lia].
  rewrite Hd. cbn [bind]. rewrite Hw. cbn [bind]. rewrite Hfreq. cbn [bind].
  rewrite Hrate. cbn [bind]. rewrite Hsize. cbn [bind].
  eexists _, d, size. split; [reflexivity |].
  cbn. repeat split; try assumption; try reflexivity; lia.
Qed.

End NoteOnMore.

Lemma note_on_sets_volume_witness :
  exists tg' : tone_gen_t,
    tone_gen note_on_engine !! Z.to_nat 0 = Some tg' /\
    playing tg' = true /\
    volume_frac tg' = (127 mod 128 + 1) * 512 /\
    512 <= volume_frac tg' <= 65536.
Proof.
  apply (@note_on_sets_volume one_note_platform idle_engine note_on_engine
           0 60 127).
  - unfold MAX_TGENS. lia.
  - vm_compute. reflexivity.
Defined.

Lemma note_on_clamps_to_piano_range_witness :
  5 < MIN_NOTE /\
  @tune_playnote one_note_platform 0 5 127 idle_engine
  = @tune_playnote one_note_platform 0 MIN_NOTE 127 idle_engine.
Proof.
  split; [unfold MIN_NOTE; lia |].
  apply (proj1 (@note_on_clamps_to_piano_range one_note_platform idle_engine
                  0 5 127)).
  unfold MIN_NOTE. lia.
Defined.

Lemma percussion_note_on_starts_drum_witness :
  exists (tg' : tone_gen_t) (drum_enum size : Z),
    @tune_playnote one_note_platform 1 128 127 idle_engine
    = Ret (set_tone_gen (<[Z.to_nat 1 := tg']> (tone_gen idle_engine))
             idle_engine) /\
    index drum_patch_map (128 - 128) = Ret drum_enum /\
    0 <= drum_enum < 6 /\
    index drum_waveforms drum_enum = Ret (Some (waveform_array tg')) /\
    index (@drum_waveform_size one_note_platform) drum_enum = Ret size.
Proof.
  destruct (@percussion_note_on_starts_drum one_note_platform idle_engine
              1 128 127 idle_tone_gen)
    as (tg' & d & size & H1 & H2 & H3 & H4 & H5 & _).
  - unfold MAX_TGENS. lia.
  - lia.
  - vm_compute. reflexivity.
  - vm_compute. reflexivity.
  - vm_compute. lia.
  - exists tg', d, size. repeat (split; [assumption |]). assumption.
Defined.

(** ** Note-off and stop, repeated *)

Section StopMore.
Context `{P : Platform}.

Lemma stop_tone_gen_idempotent (tg tg' : tone_gen_t) :
  stop_tone_gen tg = Ret tg' -> stop_tone_gen tg' = Ret tg'.
Proof.
  intros H. unfold stop_tone_gen in H.
  destruct (playing tg) eqn:Hplay.
  - destruct (percussion tg) eqn:Hperc; cbn [negb] in H.
    + injection H as <-. reflexivity.
    + destruct (index instrument_waveforms (instrument_index tg))
        as [iw | |] eqn:Hiw; cbn [bind] in H; try discriminate.
      destruct (c_div (int32 (- sustain_level iw)) (release iw))
        as [incr | |] eqn:Hincr; cbn [bind] in H; try discriminate.
      injection H as <-. unfold stop_tone_gen.
      cbn [playing percussion instrument_index set_env].
      rewrite Hplay, Hperc, Hiw. cbn [negb bind]. rewrite Hincr.
      reflexivity.
  - injection H as <-. unfold stop_tone_gen. rewrite Hplay. reflexivity.
Qed.

Lemma stop_tone_gen_instrument (tg tg' : tone_gen_t) :
  stop_tone_gen tg = Ret tg' -> instrument_index tg' = instrument_index tg.
Proof.
  unfold stop_tone_gen. intros H.
  destruct (playing tg); [| injection H as <-; reflexivity].
  destruct (percussion tg); cbn [negb] in H.
  - injection H as <-. reflexivity.
  - bind_inv H. injection H as <-. reflexivity.
Qed.

Lemma update_tgen_fields (fuel : nat) (amplitude : Z) (tg tg' : tone_gen_t)
    (our : Z) :
  update_tgen fuel amplitude tg = Ret (tg', our) ->
  instrument_index tg' = instrument_index tg /\
  percussion tg' = percussion tg /\
  waveform_array tg' = waveform_array tg /\
  tone_incr tg' = tone_incr tg /\
  drum_ending_sample_index tg' = drum_ending_sample_index tg.
Proof.
  unfold update_tgen. intros H.
  destruct (playing tg); [| injection H as <- _; repeat split].
  destruct (wave_index tg) as [[index1 index2] scale].
  destruct (percussion tg) eqn:Hperc; cbn [bind] in H.
  - injection H as <- _.
    destruct (drum_ending_sample_index tg <=? index2); cbn;
      repeat split; try reflexivity; exact Hperc.
  - destruct (envelope fuel tg) as [tg1 | |] eqn:Henv; cbn [bind] in H;
      try discriminate.
    apply envelope_fields in Henv as (_ & H2 & H3 & H4 & H5 & H6).
    injection H as <- _. cbn. rewrite <- Hperc. repeat split; assumption.
Qed.

Lemma update_tgen_n_fields (fuel : nat) (amplitude : Z) (n : nat) :
  forall tg tg' : tone_gen_t,
    update_tgen_n fuel amplitude n tg = Ret tg' ->
    instrument_index tg' = instrument_index tg /\
    percussion tg' = percussion tg /\
    waveform_array tg' = waveform_array tg /\
    tone_incr tg' = tone_incr tg /\
    drum_ending_sample_index tg' = drum_ending_sample_index tg.
Proof.
  induction n as [| n IH]; intros tg tg' H; cbn [update_tgen_n] in H.
  - injection H as <-. repeat split.
  - destruct (update_tgen fuel amplitude tg) as [[tg1 our] | |] eqn:Hupd;
      cbn [bind] in H; try discriminate.
    apply update_tgen_fields in Hupd as (A1 & A2 & A3 & A4 & A5).
    apply IH in H as (B1 & B2 & B3 & B4 & B5).
    repeat split; congruence.
Qed.

(** X5. Stopping is idempotent: a note-off that returns can be repeated at
    once without any further effect, and so can [stop()] on a well-formed
    engine. *)
Theorem stop_is_idempotent :
  (forall (tgen : Z) (st st' : AudioSynthPlaytune),
     tune_stopnote tgen st = Ret st' -> tune_stopnote tgen st' = Ret st') /\
  (forall st : AudioSynthPlaytune,
     engine_ready st = true ->
     exists st' : AudioSynthPlaytune,
       stop st = Ret st' /\ stop st' = Ret st').
Proof.
  split.
  - intros tgen st st' H. unfold tune_stopnote in *.
    destruct (tgen <? MAX_TGENS); [| injection H as <-; reflexivity].
    destruct (index (tone_gen st) tgen) as [tg | |] eqn:Htg;
      cbn [bind] in H; try discriminate.
    destruct (stop_tone_gen tg) as [tg' | |] eqn:Hstop; cbn [bind] in H;
      try discriminate.
    injection H as <-. cbn [tone_gen set_tone_gen].
    apply index_Ret in Htg as [Hpos Htg].
    rewrite (index_lookup _ tgen tg' Hpos)
      by (apply list_lookup_insert_eq; eapply lookup_lt_Some; exact Htg).
    cbn [bind]. rewrite (stop_tone_gen_idempotent _ _ Hstop). cbn [bind].
    rewrite list_insert_insert_eq. reflexivity.
  - intros st Hst.
    destruct (stop_ready st Hst) as (st1 & Hstop1 & Hplay1 & Hframe1 & Hr1
                                     & Hall1).
    exists st1. split; [exact Hstop1 |].
    destruct (stop_ready st1 Hr1) as (st2 & Hstop2 & Hplay2 & Hframe2 & Hr2
                                      & Hall2).
    rewrite Hstop2. f_equal.
    assert (Hgens : tone_gen st2 = tone_gen st1).
    { apply list_eq. intros i.
      destruct (tone_gen st1 !! i) as [tg1 |] eqn:Htg1.
      - destruct (Hall2 i tg1 Htg1) as (tg2 & Htg2 & Hs2).
        rewrite Htg2. f_equal.
        destruct (lookup_lt_is_Some_2 (tone_gen st) i) as [tg Htg].
        { rewrite (engine_ready_length _ Hst),
            <- (engine_ready_length _ Hr1).
          eapply lookup_lt_Some. exact Htg1. }
        destruct (Hall1 i tg Htg) as (tg1' & Htg1' & Hs1).
        assert (tg1' = tg1) by congruence. subst tg1'.
        apply stop_tone_gen_idempotent in Hs1. congruence.
      - apply lookup_ge_None. apply lookup_ge_None in Htg1.
        rewrite (engine_ready_length _ Hr2).
        rewrite (engine_ready_length _ Hr1) in Htg1. exact Htg1. }
    rewrite Hframe2, Hgens. unfold isPlaying in Hplay1. clear - Hplay1.
    destruct st1. cbn in *. subst. reflexivity.
Qed.

(** X6. A note-off repeated during the release starts the release over: [k]
    samples into the release of a melodic note (with [k] at most the release
    count), another note-off puts the multiplier back to the sustain level
    and the count back to the full release count, with the same decrement. *)
Theorem second_note_off_restarts_release :
  forall (fuel : nat) (amplitude : Z) (k : nat) (tg tg1 tgk : tone_gen_t)
         (iw : instrument_waveform_t),
    playing tg = true -> percussion tg = false ->
    index instrument_waveforms (instrument_index tg) = Ret iw ->
    0 < release iw < 2 ^ 31 -> 0 <= sustain_level iw < 2 ^ 31 ->
    stop_tone_gen tg = Ret tg1 ->
    Z.of_nat k <= release iw ->
    update_tgen_n fuel amplitude k tg1 = Ret tgk ->
    env_mult tgk
    = sustain_level iw - Z.of_nat k * (sustain_level iw / release iw) /\
    env_count tgk = release iw - Z.of_nat k /\
    exists tg2 : tone_gen_t,
      stop_tone_gen tgk = Ret tg2 /\
      playing tg2 = true /\ env_state tg2 = ENV_RELEASE /\
      env_mult tg2 = sustain_level iw /\ env_count tg2 = release iw /\
      env_incr tg2 = env_incr tg1.
Proof.
  intros fuel amplitude k tg tg1 tgk iw Hplay Hperc Hiw HR HS Hstop Hk Hupd.
  destruct (stop_tone_gen_release tg iw Hplay Hperc Hiw) as (tg1' & Hstop' & Hrel);
    [lia | lia |].
  assert (tg1' = tg1) by congruence. subst tg1'.
  set (sus := sustain_level iw) in *. set (rel := release iw) in *.
  assert (Hd : 0 <= sus / rel) by (apply Z.div_pos; lia).
  assert (Hmod : sus = rel * (sus / rel) + sus mod rel)
    by (apply Z.div_mod; lia).
  assert (Hmodr : 0 <= sus mod rel < rel) by (apply Z.mod_pos_bound; lia).
  destruct (releasing_samples fuel amplitude (sus / rel) k tg1 sus rel)
    as (tgk' & Hupd' & Hrelk); try lia; try exact Hrel; try nia.
  assert (tgk' = tgk) by congruence. subst tgk'.
  pose proof Hrelk as (Hpk & Hqk & _ & Hmk & _ & Hck).
  split; [exact Hmk |]. split; [exact Hck |].
  assert (Hindex : instrument_index tgk = instrument_index tg).
  { apply update_tgen_n_fields in Hupd as (Hi & _).
    rewrite Hi. eapply stop_tone_gen_instrument. exact Hstop. }
  destruct (stop_tone_gen_release tgk iw Hpk Hqk) as (tg2 & Hstop2 & Hrel2);
    [rewrite Hindex; exact Hiw | lia | lia |].
  exists tg2. split; [exact Hstop2 |].
  destruct Hrel2 as (H1 & _ & H3 & H4 & H5 & H6).
  destruct Hrel as (_ & _ & _ & _ & H5' & _).
  repeat split; try assumption. rewrite H5, H5'. reflexivity.
Qed.

End StopMore.

Lemma stop_is_idempotent_witness :
  @engine_ready one_note_platform one_note_attack_engine = true /\
  exists st' : AudioSynthPlaytune,
    @stop one_note_platform one_note_attack_engine = Ret st' /\
    @stop one_note_platform st' = Ret st'.
Proof.
  split; [vm_compute; reflexivity |].
  apply (proj2 (@stop_is_idempotent one_note_platform)).
  vm_compute. reflexivity.
Defined.

Lemma second_note_off_restarts_release_witness :
  exists tg2 : tone_gen_t,
    @stop_tone_gen one_note_platform one_note_released = Ret tg2 /\
    playing tg2 = true /\ env_state tg2 = ENV_RELEASE /\
    env_mult tg2 = 39321 /\ env_count tg2 = 2647.
Proof.
  destruct (@second_note_off_restarts_release one_note_platform 10%nat 6553
              2647%nat (tgen_of 0 one_note_attack_engine)
              (tgen_of 0 one_note_stopped_engine) one_note_released
              (instrument_entry teensy_rate waveform_piano_0013 60))
    as (_ & _ & tg2 & H1 & H2 & H3 & H4 & H5 & _).
  - vm_compute. reflexivity.
  - vm_compute. reflexivity.
  - vm_compute. reflexivity.
  - vm_compute. split; reflexivity.
  - vm_compute. split; [discriminate | reflexivity].
  - vm_compute. reflexivity.
  - vm_compute. discriminate.
  - vm_compute. reflexivity.
  - exists tg2. repeat (split; [assumption |]). assumption.
Defined.

(** ** The score decoder *)

Lemma wait_msec_value (cmd lo : Z) :
  0 <= cmd < 128 -> 0 <= lo < 256 ->
  Z.lor (Z.shiftl cmd 8) lo = 256 * cmd + lo.
Proof.
  intros Hcmd Hlo.
  pose proof (byte_cases
                (fun c => (128 <=? c)
                          || forallb (fun n => Z.lor (Z.shiftl c 8) (Z.of_nat n)
                                               =? 256 * c + Z.of_nat n)
                               (seq 0 256))
                ltac:(vm_compute; reflexivity) cmd ltac:(lia)) as H.
  cbv beta in H. destruct (Z.leb_spec 128 cmd); [lia |]. cbn [orb] in H.
  rewrite forallb_forall in H. specialize (H (Z.to_nat lo)).
  rewrite Z2Nat.id in H by lia. apply Z.eqb_eq. apply H. apply in_seq. lia.
Qed.

Section Decoder.
Context `{P : Platform}.

Lemma tune_stopnote_cursor (tgen : Z) (st st' : AudioSynthPlaytune) :
  tune_stopnote tgen st = Ret st' ->
  score_cursor st' = score_cursor st /\
  scorewait_samples st' = scorewait_samples st /\
  tune_playing st' = tune_playing st.
Proof.
  unfold tune_stopnote. intros H.
  destruct (tgen <? MAX_TGENS); [| injection H as <-; repeat split].
  bind_inv H. injection H as <-. repeat split.
Qed.

Lemma tune_playnote_cursor (tgen note vol : Z) (st st' : AudioSynthPlaytune) :
  tune_playnote tgen note vol st = Ret st' ->
  score_cursor st' = score_cursor st /\
  scorewait_samples st' = scorewait_samples st /\
  tune_playing st' = tune_playing st.
Proof.
  unfold tune_playnote. intros H.
  destruct (tgen <? MAX_TGENS); [| injection H as <-; repeat split].
  bind_inv H. injection H as <-. repeat split.
Qed.

Lemma tune_setinstrument_cursor (tgen i : Z) (st st' : AudioSynthPlaytune) :
  tune_setinstrument tgen i st = Ret st' ->
  score_cursor st' = score_cursor st /\
  scorewait_samples st' = scorewait_samples st /\
  tune_playing st' = tune_playing st.
Proof.
  unfold tune_setinstrument. intros H. bind_inv H. injection H as <-.
  repeat split.
Qed.

Lemma for_each_stopnote_cursor (n : nat) :
  forall (i : Z) (st st' : AudioSynthPlaytune),
    for_each n i tune_stopnote st = Ret st' ->
    score_cursor st' = score_cursor st /\
    scorewait_samples st' = scorewait_samples st.
Proof.
  induction n as [| n IH]; intros i st st' H; cbn [for_each] in H.
  - injection H as <-. split; reflexivity.
  - bind_inv H. apply IH in H as [H1 H2].
    apply tune_stopnote_cursor in E as (E1 & E2 & _).
    split; congruence.
Qed.

Lemma stop_cursor (st st' : AudioSynthPlaytune) :
  stop st = Ret st' ->
  score_cursor st' = score_cursor st /\
  scorewait_samples st' = scorewait_samples st.
Proof.
  unfold stop, tune_stopscore. intros H. bind_inv H. injection H as <-.
  apply for_each_stopnote_cursor in E. exact E.
Qed.

(** X7. How far each score command moves the cursor, and whether decoding
    goes on after it. A wait takes 2 bytes and ends the decoding; a
    note-off takes 1 byte; a note-on 2 bytes, or 3 when velocity bytes are
    present; an instrument change 2; a restart moves the cursor to
    [score_start]; a stop takes 1 byte and ends the decoding. The opcodes
    0xA0, 0xB0 and 0xD0, which the format does not define, are skipped as
    one byte with no other effect at all. *)
Theorem command_lengths :
  forall (st st' : AudioSynthPlaytune) (again : bool),
    tune_stepscore_cmd st = Ret (st', again) ->
    (pgm_read_byte (score_cursor st) < 0x80 ->
     score_cursor st' = score_cursor st + 2 /\ again = false) /\
    (Z.land (pgm_read_byte (score_cursor st)) 0xf0 = CMD_STOPNOTE ->
     score_cursor st' = score_cursor st + 1 /\ again = true) /\
    (Z.land (pgm_read_byte (score_cursor st)) 0xf0 = CMD_PLAYNOTE ->
     score_cursor st'
     = score_cursor st + (if volume_present st then 3 else 2) /\
     again = true) /\
    (Z.land (pgm_read_byte (score_cursor st)) 0xf0 = CMD_INSTRUMENT ->
     score_cursor st' = score_cursor st + 2 /\ again = true) /\
    (Z.land (pgm_read_byte (score_cursor st)) 0xf0 = CMD_RESTART ->
     score_cursor st' = score_start st /\ again = true) /\
    (Z.land (pgm_read_byte (score_cursor st)) 0xf0 = CMD_STOP ->
     score_cursor st' = score_cursor st + 1 /\ again = false) /\
    (Z.land (pgm_read_byte (score_cursor st)) 0xf0 = 0xa0 \/
     Z.land (pgm_read_byte (score_cursor st)) 0xf0 = 0xb0 \/
     Z.land (pgm_read_byte (score_cursor st)) 0xf0 = 0xd0 ->
     st' = set_score_cursor (score_cursor st + 1) st /\ again = true).
Proof.
  intros st st' again H. unfold tune_stepscore_cmd in H.
  pose proof (pgm_read_byte_range (score_cursor st)) as Hbyte.
  set (cmd := pgm_read_byte (score_cursor st)) in *.
  assert (Hhigh : forall op, 0x80 <= op -> Z.land cmd 0xf0 = op ->
                             (cmd <? 0x80) = false)
    by (intros op; apply command_byte_high_bit; exact Hbyte).
  split; [| split; [| split; [| split; [| split; [| split]]]]].
  - intros Hwait.
    destruct (Z.ltb_spec cmd 0x80); [| lia].
    injection H as <- <-. cbn. split; [ring | reflexivity].
  - intros Hop. rewrite (Hhigh CMD_STOPNOTE ltac:(unfold CMD_STOPNOTE; lia) Hop) in H.
    rewrite Hop in H. change (CMD_STOPNOTE =? CMD_STOPNOTE) with true in H.
    cbv iota in H. bind_inv H. injection H as <- <-.
    apply tune_stopnote_cursor in E as (E & _). rewrite E.
    split; reflexivity.
  - intros Hop. rewrite (Hhigh CMD_PLAYNOTE ltac:(unfold CMD_PLAYNOTE; lia) Hop) in H.
    rewrite Hop in H. change (CMD_PLAYNOTE =? CMD_STOPNOTE) with false in H.
    change (CMD_PLAYNOTE =? CMD_PLAYNOTE) with true in H. cbv iota in H.
    bind_inv H. injection H as <- <-.
    apply tune_playnote_cursor in E as (E & _). rewrite E.
    cbn [volume_present score_cursor set_score_cursor].
    destruct (volume_present st); cbn [score_cursor set_score_cursor];
      (split; [lia | reflexivity]).
  - intros Hop. rewrite (Hhigh CMD_INSTRUMENT ltac:(unfold CMD_INSTRUMENT; lia) Hop) in H.
    rewrite Hop in H. change (CMD_INSTRUMENT =? CMD_STOPNOTE) with false in H.
    change (CMD_INSTRUMENT =? CMD_PLAYNOTE) with false in H.
    change (CMD_INSTRUMENT =? CMD_INSTRUMENT) with true in H. cbv iota in H.
    bind_inv H. injection H as <- <-.
    apply tune_setinstrument_cursor in E0 as (E0 & _). rewrite E0.
    cbn. split; [lia | reflexivity].
  - intros Hop. rewrite (Hhigh CMD_RESTART ltac:(unfold CMD_RESTART; lia) Hop) in H.
    rewrite Hop in H. change (CMD_RESTART =? CMD_STOPNOTE) with false in H.
    change (CMD_RESTART =? CMD_PLAYNOTE) with false in H.
    change (CMD_RESTART =? CMD_INSTRUMENT) with false in H.
    change (CMD_RESTART =? CMD_RESTART) with true in H. cbv iota in H.
    injection H as <- <-. split; reflexivity.
  - intros Hop. rewrite (Hhigh CMD_STOP ltac:(unfold CMD_STOP; lia) Hop) in H.
    rewrite Hop in H. change (CMD_STOP =? CMD_STOPNOTE) with false in H.
    change (CMD_STOP =? CMD_PLAYNOTE) with false in H.
    change (CMD_STOP =? CMD_INSTRUMENT) with false in H.
    change (CMD_STOP =? CMD_RESTART) with false in H.
    change (CMD_STOP =? CMD_STOP) with true in H. cbv iota in H.
    bind_inv H. injection H as <- <-.
    apply stop_cursor in E as (E & _). rewrite E. split; reflexivity.
  - intros Hop.
    assert (Hcmd : (cmd <? 0x80) = false)
      by (destruct Hop as [Hop | [Hop | Hop]]; eapply Hhigh; try exact Hop;
          lia).
    rewrite Hcmd in H.
    destruct Hop as [Hop | [Hop | Hop]]; rewrite Hop in H;
      cbn [Z.eqb Pos.eqb CMD_STOPNOTE CMD_PLAYNOTE CMD_INSTRUMENT
           CMD_RESTART CMD_STOP] in H;
      injection H as <- <-; split; reflexivity.
Qed.

(** X8. The wait command: a byte [hi < 0x80] and the byte [lo] after it wait
    for [256 * hi + lo] milliseconds, which, for a sample rate that rounds to
    [R] with [0 <= R <= 1000000], sets [scorewait_samples] to
    [(256 * hi + lo) * 1000 * R / 1000000] (rounded down) and changes nothing
    else but the cursor. *)
Theorem wait_command_sets_sample_count :
  forall st : AudioSynthPlaytune,
    pgm_read_byte (score_cursor st) < 0x80 ->
    0 <= Qtrunc (AUDIO_SAMPLE_RATE + (1 # 2)) <= 1000000 ->
    tune_stepscore_cmd st
    = Ret (set_scorewait_samples
             ((256 * pgm_read_byte (score_cursor st)
               + pgm_read_byte (score_cursor st + 1)) * 1000
              * Qtrunc (AUDIO_SAMPLE_RATE + (1 # 2)) / 1000000)
             (set_score_cursor (score_cursor st + 2) st), false).
Proof.
  intros st Hcmd HR. unfold tune_stepscore_cmd.
  pose proof (pgm_read_byte_range (score_cursor st)) as Hhi.
  pose proof (pgm_read_byte_range (score_cursor st + 1)) as Hlo.
  destruct (Z.ltb_spec (pgm_read_byte (score_cursor st)) 0x80); [| lia].
  cbn [score_cursor set_score_cursor].
  set (hi := pgm_read_byte (score_cursor st)) in *.
  set (lo := pgm_read_byte (score_cursor st + 1)) in *.
  set (R := Qtrunc (AUDIO_SAMPLE_RATE + (1 # 2))) in *.
  assert (Hshift : uint32 (Z.shiftl hi 8) = Z.shiftl hi 8).
  { apply uint_small. rewrite Z.shiftl_mul_pow2 by lia. lia. }
  rewrite Hshift, wait_msec_value by lia.
  rewrite (int32_small (256 * hi + lo)) by lia.
  rewrite (int32_small ((256 * hi + lo) * 1000)) by lia.
  unfold uint64.
  rewrite (uint_small 64 ((256 * hi + lo) * 1000)) by lia.
  rewrite (uint_small 64 R) by lia.
  assert (Hprod : 0 <= (256 * hi + lo) * 1000 * R <= 32767000 * 1000000)
    by nia.
  rewrite (uint_small 64 ((256 * hi + lo) * 1000 * R)) by lia.
  rewrite Z.quot_div_nonneg by lia.
  assert (Hq : 0 <= (256 * hi + lo) * 1000 * R / 1000000 <= 32767000).
  { split; [apply Z.div_pos; lia |].
    apply Z.div_le_upper_bound; lia. }
  unfold uint32. rewrite uint_small by lia.
  replace (score_cursor st + 1 + 1) with (score_cursor st + 2) by lia.
  reflexivity.
Qed.

End Decoder.

Lemma command_lengths_witness :
  Z.land (@pgm_read_byte one_note_platform (score_cursor idle_engine)) 0xf0
  = CMD_PLAYNOTE /\
  exists st' : AudioSynthPlaytune,
    @tune_stepscore_cmd one_note_platform idle_engine = Ret (st', true) /\
    score_cursor st'
    = score_cursor idle_engine
      + (if volume_present idle_engine then 3 else 2).
Proof.
  split; [vm_compute; reflexivity |].
  exists (fst (result_get (idle_engine, false)
                 (@tune_stepscore_cmd one_note_platform idle_engine))).
  assert (H : @tune_stepscore_cmd one_note_platform idle_engine
              = Ret (fst (result_get (idle_engine, false)
                            (@tune_stepscore_cmd one_note_platform
                               idle_engine)), true))
    by (vm_compute; reflexivity).
  split; [exact H |].
  apply (proj1 (proj1 (proj2 (proj2
                  (@command_lengths one_note_platform _ _ _ H)))
                  ltac:(vm_compute; reflexivity))).
Defined.

Lemma wait_command_sets_sample_count_witness :
  @tune_stepscore_cmd one_note_platform (set_score_cursor 2 idle_engine)
  = Ret (set_scorewait_samples 4411 (set_score_cursor 4 idle_engine), false).
Proof.
  etransitivity.
  - apply (@wait_command_sets_sample_count one_note_platform).
    + vm_compute. reflexivity.
    + vm_compute. split; discriminate.
  - vm_compute. reflexivity.
Defined.

(** ** Rendering *)

Section Rendering.
Context `{P : Platform}.

(** A sample that does not step the score: only the wait count and the
    generators move. *)
Lemma update_sample_quiet (fuel : nat) (st : AudioSynthPlaytune) :
  decodes_now st = false ->
  update_sample fuel st
  = (do '(tgs, level) <- mix fuel (amplitude_fraction st)
                            (Z.to_nat (num_tgens_used st)) 0 (tone_gen st) 0;
     Ret (set_tone_gen tgs (set_scorewait_samples (scorewait_after st) st),
          int16 level)).
Proof.
  unfold decodes_now, scorewait_after, update_sample. intros H.
  destruct (tune_playing st && negb (scorewait_samples st =? 0)).
  - cbn [andb] in H. cbn [scorewait_samples set_scorewait_samples].
    rewrite H. reflexivity.
  - cbn [bind].
    destruct (mix fuel (amplitude_fraction st) (Z.to_nat (num_tgens_used st))
                0 (tone_gen st) 0) as [[tgs level] | |]; reflexivity.
Qed.

Lemma update_tgen_inactive (fuel : nat) (amplitude : Z) (tg : tone_gen_t) :
  playing tg = false -> update_tgen fuel amplitude tg = Ret (tg, 0).
Proof. intros H. unfold update_tgen. rewrite H. reflexivity. Qed.

Lemma mix_frame (fuel : nat) (amplitude : Z) (n : nat) :
  forall (i : nat) (tgs tgs' : list tone_gen_t) (level level' : Z),
    mix fuel amplitude n (Z.of_nat i) tgs level = Ret (tgs', level') ->
    length tgs' = length tgs /\
    forall j : nat, (j < i \/ i + n <= j)%nat -> tgs' !! j = tgs !! j.
Proof.
  induction n as [| n IH]; intros i tgs tgs' level level' H; cbn [mix] in H.
  - injection H as <- _. split; reflexivity.
  - destruct (index tgs (Z.of_nat i)) as [tg | |]; cbn [bind] in H;
      try discriminate.
    destruct (update_tgen fuel amplitude tg) as [[tg' our] | |];
      cbn [bind] in H; try discriminate.
    replace (Z.of_nat i + 1) with (Z.of_nat (S i)) in H by lia.
    apply IH in H as [Hlen Hrest]. rewrite Nat2Z.id in *.
    rewrite length_insert in Hlen. split; [exact Hlen |].
    intros j Hj. rewrite Hrest by lia.
    apply list_lookup_insert_ne. lia.
Qed.

Lemma mix_silent (fuel : nat) (amplitude : Z) (n : nat) :
  forall (i : nat) (tgs : list tone_gen_t),
    (i + n <= length tgs)%nat ->
    Forall (fun tg => playing tg = false) tgs ->
    mix fuel amplitude n (Z.of_nat i) tgs 0 = Ret (tgs, 0).
Proof.
  induction n as [| n IH]; intros i tgs Hlen Hall; [reflexivity |].
  cbn [mix].
  destruct (lookup_lt_is_Some_2 tgs i) as [tg Htg]; [lia |].
  rewrite (index_lookup tgs (Z.of_nat i) tg)
    by (first [lia | rewrite Nat2Z.id; exact Htg]).
  cbn [bind]. rewrite update_tgen_inactive.
  2:{ rewrite Forall_forall in Hall. apply Hall.
      eapply list_elem_of_lookup_2. exact Htg. }
  cbn [bind]. rewrite Nat2Z.id, (list_insert_id _ _ _ Htg).
  change (int32 (0 + 0)) with 0.
  replace (Z.of_nat i + 1) with (Z.of_nat (S i)) by lia.
  apply IH; [lia | exact Hall].
Qed.

Lemma int16_range (x : Z) : -32768 <= int16 x <= 32767.
Proof. pose proof (sint_range 16 x ltac:(lia)) as H. unfold int16. lia. Qed.

Lemma update_sample_range (fuel : nat) (st st' : AudioSynthPlaytune) (x : Z) :
  update_sample fuel st = Ret (st', x) -> -32768 <= x <= 32767.
Proof.
  intros H. unfold update_sample in H.
  match type of H with bind ?m _ = _ => destruct m as [a | |] end;
    cbn [bind] in H; try discriminate.
  bind_inv H. injection H as _ <-. apply int16_range.
Qed.

Lemma render_range (fuel n : nat) :
  forall (st st' : AudioSynthPlaytune) (xs : list Z),
    render fuel n st = Ret (st', xs) ->
    length xs = n /\ Forall (fun x => -32768 <= x <= 32767) xs.
Proof.
  induction n as [| n IH]; intros st st' xs H; cbn [render] in H.
  - injection H as _ <-. split; [reflexivity | constructor].
  - destruct (update_sample fuel st) as [[st1 x] | |] eqn:Hupd;
      cbn [bind] in H; try discriminate.
    destruct (render fuel n st1) as [[st2 xs2] | |] eqn:Hrest;
      cbn [bind] in H; try discriminate.
    injection H as _ <-. apply IH in Hrest as [Hlen Hall].
    split; [cbn; lia |]. constructor; [| exact Hall].
    eapply update_sample_range. exact Hupd.
Qed.

(** X10. Generators at or above [num_tgens_used] are never rendered: a
    sample that does not step the score leaves each of them exactly as it
    was (so a note started there is neither heard nor ever ended by
    [update]), and leaves the list of generators at its length. *)
Theorem generators_beyond_count_untouched :
  forall (fuel : nat) (st st' : AudioSynthPlaytune) (x : Z),
    decodes_now st = false ->
    update_sample fuel st = Ret (st', x) ->
    length (tone_gen st') = length (tone_gen st) /\
    forall j : nat,
      (Z.to_nat (num_tgens_used st) <= j)%nat ->
      tone_gen st' !! j = tone_gen st !! j.
Proof.
  intros fuel st st' x Hquiet H. rewrite update_sample_quiet in H by exact Hquiet.
  destruct (mix fuel (amplitude_fraction st) (Z.to_nat (num_tgens_used st))
              0 (tone_gen st) 0) as [[tgs level] | |] eqn:Hmix;
    cbn [bind] in H; try discriminate.
  injection H as <- _. cbn [tone_gen set_tone_gen].
  apply (mix_frame _ _ _ 0%nat) in Hmix as [Hlen Hrest].
  split; [exact Hlen |]. intros j Hj. apply Hrest. lia.
Qed.

(** X11. An engine that is not playing a score and has no active generator
    renders silence and is left exactly as it is, for any number of
    samples. *)
Theorem idle_engine_renders_silence :
  forall (fuel n : nat) (st : AudioSynthPlaytune),
    tune_playing st = false ->
    (Z.to_nat (num_tgens_used st) <= length (tone_gen st))%nat ->
    Forall (fun tg => playing tg = false) (tone_gen st) ->
    render fuel n st = Ret (st, replicate n 0).
Proof.
  intros fuel n st Hplay Hlen Hall.
  assert (Hone : update_sample fuel st = Ret (st, 0)).
  { rewrite update_sample_quiet
      by (unfold decodes_now; rewrite Hplay; reflexivity).
    rewrite (mix_silent _ _ _ 0%nat) by (first [lia | exact Hall]).
    cbn [bind]. unfold scorewait_after. rewrite Hplay. cbn [andb].
    destruct st; reflexivity. }
  induction n as [| n IH]; [reflexivity |].
  cbn [render]. rewrite Hone. cbn [bind]. rewrite IH. reflexivity.
Qed.

End Rendering.

Lemma generators_beyond_count_untouched_witness :
  num_tgens_used two_drums_engine = 2 /\
  tone_gen (fst (result_get (idle_engine, 0)
                   (@update_sample two_drums_platform 10 two_drums_engine)))
    !! 5%nat
  = tone_gen two_drums_engine !! 5%nat.
Proof.
  split; [vm_compute; reflexivity |].
  apply (proj2 (@generators_beyond_count_untouched two_drums_platform 10%nat
                  two_drums_engine
                  (fst (result_get (idle_engine, 0)
                          (@update_sample two_drums_platform 10
                             two_drums_engine)))
                  (snd (result_get (idle_engine, 0)
                          (@update_sample two_drums_platform 10
                             two_drums_engine)))
                  ltac:(vm_compute; reflexivity)
                  ltac:(vm_compute; reflexivity))).
  vm_compute. lia.
Defined.

Lemma idle_engine_renders_silence_witness :
  @render one_note_platform 10 128 idle_engine
  = Ret (idle_engine, replicate 128 0).
Proof.
  apply (@idle_engine_renders_silence one_note_platform).
  - reflexivity.
  - vm_compute. lia.
  - unfold idle_engine. cbn [tone_gen]. apply Forall_replicate. reflexivity.
Defined.

(** ** Waiting and stopped engines *)

Section Waiting.
Context `{P : Platform}.

Lemma update_sample_no_decode (fuel : nat) (st : AudioSynthPlaytune) :
  (2 <= fuel)%nat -> engine_ready st = true ->
  0 <= num_tgens_used st <= MAX_TGENS ->
  decodes_now st = false ->
  exists (st' : AudioSynthPlaytune) (x : Z),
    update_sample fuel st = Ret (st', x) /\
    st' = set_tone_gen (tone_gen st')
            (set_scorewait_samples (scorewait_after st) st) /\
    engine_ready st' = true /\
    Forall2 persists (tone_gen st) (tone_gen st').
Proof.
  intros Hfuel Hst Hn Hquiet. rewrite update_sample_quiet by exact Hquiet.
  destruct (mix_ready fuel (amplitude_fraction st)
              (Z.to_nat (num_tgens_used st)) Hfuel 0 (tone_gen st) 0)
    as (tgs & level & Hmix & Hpers).
  { rewrite (engine_ready_length _ Hst). unfold MAX_TGENS in Hn. lia. }
  { apply engine_ready_Forall. exact Hst. }
  change (Z.of_nat 0) with 0 in Hmix. rewrite Hmix. cbn [bind].
  eexists _, _. split; [reflexivity |].
  cbn [tone_gen set_tone_gen]. split; [reflexivity |]. split; [| exact Hpers].
  apply engine_ready_intro; cbn [tone_gen set_tone_gen].
  - rewrite <- (Forall2_length _ _ _ Hpers). apply engine_ready_length.
    exact Hst.
  - intros i tg' Htg'.
    destruct (Forall2_lookup_r _ _ _ _ _ Hpers Htg') as (tg & _ & [Hr _]).
    exact Hr.
Qed.

Lemma render_counting (fuel : nat) (k : nat) :
  (2 <= fuel)%nat ->
  forall (st : AudioSynthPlaytune) (n : Z),
    engine_ready st = true ->
    0 <= num_tgens_used st <= MAX_TGENS ->
    tune_playing st = true -> scorewait_samples st = n ->
    Z.of_nat k < n < 2 ^ 32 ->
    exists (st' : AudioSynthPlaytune) (xs : list Z),
      render fuel k st = Ret (st', xs) /\
      st' = set_tone_gen (tone_gen st')
              (set_scorewait_samples (n - Z.of_nat k) st) /\
      engine_ready st' = true.
Proof.
  intros Hfuel. induction k as [| k IH]; intros st n Hst Hnum Hplay Hwait Hk.
  - exists st, []. split; [reflexivity |]. split; [| exact Hst].
    replace (n - Z.of_nat 0) with n by lia. rewrite <- Hwait.
    destruct st; reflexivity.
  - assert (Hafter : scorewait_after st = n - 1).
    { unfold scorewait_after. rewrite Hplay, Hwait.
      destruct (Z.eqb_spec n 0); [lia |]. cbn [andb negb].
      apply uint_small. lia. }
    assert (Hquiet : decodes_now st = false).
    { unfold decodes_now. unfold scorewait_after in Hafter.
      rewrite Hplay, Hwait in *.
      destruct (Z.eqb_spec n 0); [lia |]. cbn [andb negb] in *.
      rewrite Hafter. apply Z.eqb_neq. lia. }
    destruct (update_sample_no_decode fuel st Hfuel Hst Hnum Hquiet)
      as (st1 & x & Hupd & Hst1 & Hr1 & _).
    rewrite Hafter in Hst1.
    destruct (IH st1 (n - 1) Hr1) as (st2 & xs & Hrender & Hst2 & Hr2).
    { rewrite Hst1. exact Hnum. }
    { rewrite Hst1. exact Hplay. }
    { rewrite Hst1. reflexivity. }
    { lia. }
    cbn [render]. rewrite Hupd. cbn [bind]. rewrite Hrender. cbn [bind].
    exists st2, (x :: xs). split; [reflexivity |]. split; [| exact Hr2].
    rewrite Hst2 at 1. rewrite Hst1.
    replace (n - 1 - Z.of_nat k) with (n - Z.of_nat (S k)) by lia.
    reflexivity.
Qed.

(** X12. A wait counts samples: with [scorewait_samples = n], the next [k]
    samples for any [k < n] only count it down to [n - k], without decoding
    a command (cursor, settings and playing flag as they were); the sample
    rendered at [scorewait_samples = 1] is the one that decodes the next
    commands, before it mixes. *)
Theorem wait_counts_samples :
  (forall (fuel k : nat) (st : AudioSynthPlaytune) (n : Z),
     (2 <= fuel)%nat -> engine_ready st = true ->
     0 <= num_tgens_used st <= MAX_TGENS ->
     tune_playing st = true -> scorewait_samples st = n ->
     Z.of_nat k < n < 2 ^ 32 ->
     exists (st' : AudioSynthPlaytune) (xs : list Z),
       render fuel k st = Ret (st', xs) /\
       st' = set_tone_gen (tone_gen st')
               (set_scorewait_samples (n - Z.of_nat k) st)) /\
  (forall (fuel : nat) (st : AudioSynthPlaytune),
     tune_playing st = true -> scorewait_samples st = 1 ->
     update_sample fuel st
     = (do st1 <- tune_stepscore fuel (set_scorewait_samples 0 st);
        do '(tgs, level) <- mix fuel (amplitude_fraction st1)
                               (Z.to_nat (num_tgens_used st1)) 0
                               (tone_gen st1) 0;
        Ret (set_tone_gen tgs st1, int16 level))).
Proof.
  split.
  - intros fuel k st n Hfuel Hst Hnum Hplay Hwait Hk.
    destruct (render_counting fuel k Hfuel st n Hst Hnum Hplay Hwait Hk)
      as (st' & xs & H1 & H2 & _).
    exists st', xs. split; assumption.
  - intros fuel st Hplay Hwait. unfold update_sample.
    rewrite Hplay, Hwait. reflexivity.
Qed.

Lemma render_stopped (fuel : nat) (n : nat) :
  (2 <= fuel)%nat ->
  forall st : AudioSynthPlaytune,
    engine_ready st = true ->
    0 <= num_tgens_used st <= MAX_TGENS ->
    tune_playing st = false ->
    exists (st' : AudioSynthPlaytune) (xs : list Z),
      render fuel n st = Ret (st', xs) /\
      st' = set_tone_gen (tone_gen st') st /\
      engine_ready st' = true.
Proof.
  intros Hfuel. induction n as [| n IH]; intros st Hst Hnum Hplay.
  - exists st, []. split; [reflexivity |].
    split; [destruct st; reflexivity | exact Hst].
  - assert (Hquiet : decodes_now st = false)
      by (unfold decodes_now; rewrite Hplay; reflexivity).
    destruct (update_sample_no_decode fuel st Hfuel Hst Hnum Hquiet)
      as (st1 & x & Hupd & Hst1 & Hr1 & _).
    assert (Hsame : set_scorewait_samples (scorewait_after st) st = st).
    { unfold scorewait_after. rewrite Hplay. cbn [andb].
      destruct st; reflexivity. }
    rewrite Hsame in Hst1.
    destruct (IH st1 Hr1) as (st2 & xs & Hrender & Hst2 & Hr2).
    { rewrite Hst1. exact Hnum. }
    { rewrite Hst1. exact Hplay. }
    cbn [render]. rewrite Hupd. cbn [bind]. rewrite Hrender. cbn [bind].
    exists st2, (x :: xs). split; [reflexivity |]. split; [| exact Hr2].
    rewrite Hst2 at 1. rewrite Hst1. reflexivity.
Qed.

(** X13. After [stop()] the score stays where it is: on a well-formed
    engine [stop()] returns, and however many samples are rendered
    afterwards, they are rendered without decoding a command; the engine
    still reports not playing, and cursor, wait count and settings are those
    at the time of the stop. Only the generators move. *)
Theorem stopped_engine_never_steps_score :
  forall (fuel n : nat) (st : AudioSynthPlaytune),
    (2 <= fuel)%nat -> engine_ready st = true ->
    0 <= num_tgens_used st <= MAX_TGENS ->
    exists (st1 st' : AudioSynthPlaytune) (xs : list Z),
      stop st = Ret st1 /\
      render fuel n st1 = Ret (st', xs) /\
      st' = set_tune_playing false (set_tone_gen (tone_gen st') st) /\
      isPlaying st' = false.
Proof.
  intros fuel n st Hfuel Hst Hnum.
  destruct (stop_ready st Hst) as (st1 & Hstop & Hplay & Hframe & Hr1 & _).
  destruct (render_stopped fuel n Hfuel st1 Hr1) as (st' & xs & Hrender & Hst'
                                                     & _).
  { rewrite Hframe. exact Hnum. }
  { exact Hplay. }
  exists st1, st', xs. split; [exact Hstop |]. split; [exact Hrender |].
  split.
  - rewrite Hst' at 1. rewrite Hframe. reflexivity.
  - rewrite Hst'. exact Hplay.
Qed.

End Waiting.

Lemma wait_counts_samples_witness :
  exists (st' : AudioSynthPlaytune) (xs : list Z),
    @render one_note_platform 10 100 one_note_engine = Ret (st', xs) /\
    st' = set_tone_gen (tone_gen st')
            (set_scorewait_samples (4411 - Z.of_nat 100) one_note_engine).
Proof.
  apply (proj1 (@wait_counts_samples one_note_platform) 10%nat 100%nat
           one_note_engine 4411).
  - lia.
  - vm_compute. reflexivity.
  - vm_compute. split; discriminate.
  - vm_compute. reflexivity.
  - vm_compute. reflexivity.
  - lia.
Defined.

Lemma stopped_engine_never_steps_score_witness :
  exists (st1 st' : AudioSynthPlaytune) (xs : list Z),
    @stop one_note_platform one_note_attack_engine = Ret st1 /\
    @render one_note_platform 10 128 st1 = Ret (st', xs) /\
    st' = set_tune_playing false
            (set_tone_gen (tone_gen st') one_note_attack_engine) /\
    isPlaying st' = false.
Proof.
  apply (@stopped_engine_never_steps_score one_note_platform).
  - lia.
  - vm_compute. reflexivity.
  - vm_compute. split; discriminate.
Defined.

(** ** Whole blocks *)

Section Blocks.
Context `{P : Platform}.

(** X9. [update] transmits a whole block or nothing. When [allocate()]
    gives no block, [update] leaves the engine exactly as it is: no sample
    is computed and a pending wait is not counted down, so the score is
    held up for the length of that block. When there is a block and the
    score is not due within it (the engine is not playing, the wait count
    is 0, or it exceeds [AUDIO_BLOCK_SAMPLES]), [update] on a well-formed
    engine returns and transmits exactly [AUDIO_BLOCK_SAMPLES] values, each
    a signed 16-bit number; a running wait is shorter by
    [AUDIO_BLOCK_SAMPLES] afterwards, and nothing else but the generators
    has changed. *)
Theorem update_transmits_whole_block_or_nothing :
  (forall (fuel : nat) (st : AudioSynthPlaytune),
     update fuel false st = Ret (st, None)) /\
  (forall (fuel : nat) (st : AudioSynthPlaytune),
     (2 <= fuel)%nat -> engine_ready st = true ->
     0 <= num_tgens_used st <= MAX_TGENS ->
     (tune_playing st = false \/ scorewait_samples st = 0 \/
      Z.of_nat AUDIO_BLOCK_SAMPLES < scorewait_samples st < 2 ^ 32) ->
     exists (st' : AudioSynthPlaytune) (xs : list Z),
       update fuel true st = Ret (st', Some xs) /\
       length xs = AUDIO_BLOCK_SAMPLES /\
       Forall (fun x => -32768 <= x <= 32767) xs /\
       st' = set_tone_gen (tone_gen st')
               (set_scorewait_samples
                  (if tune_playing st && negb (scorewait_samples st =? 0)
                   then scorewait_samples st - Z.of_nat AUDIO_BLOCK_SAMPLES
                   else scorewait_samples st) st)).
Proof.
  split; [reflexivity |].
  intros fuel st Hfuel Hst Hnum Hcase.
  assert (Hrender : exists (st' : AudioSynthPlaytune) (xs : list Z),
             render fuel AUDIO_BLOCK_SAMPLES st = Ret (st', xs) /\
             st' = set_tone_gen (tone_gen st')
                     (set_scorewait_samples
                        (if tune_playing st
                            && negb (scorewait_samples st =? 0)
                         then scorewait_samples st
                              - Z.of_nat AUDIO_BLOCK_SAMPLES
                         else scorewait_samples st) st)).
  { destruct (tune_playing st) eqn:Hplay.
    - destruct (Z.eqb_spec (scorewait_samples st) 0) as [Hzero | Hwait].
      + destruct (render_stalled fuel AUDIO_BLOCK_SAMPLES Hfuel st Hst Hnum
                    Hzero) as (st' & xs & Hr & Hf & _).
        exists st', xs. split; [exact Hr |]. cbn [andb negb].
        etransitivity; [exact Hf |]. destruct st; reflexivity.
      + destruct Hcase as [Hc | [Hc | Hc]]; [discriminate | contradiction |].
        destruct (render_counting fuel AUDIO_BLOCK_SAMPLES Hfuel st
                    (scorewait_samples st) Hst Hnum Hplay eq_refl Hc)
          as (st' & xs & Hr & Hf & _).
        exists st', xs. split; [exact Hr | exact Hf].
    - destruct (render_stopped fuel AUDIO_BLOCK_SAMPLES Hfuel st Hst Hnum
                  Hplay) as (st' & xs & Hr & Hf & _).
      exists st', xs. split; [exact Hr |]. cbn [andb].
      etransitivity; [exact Hf |]. destruct st; reflexivity. }
  destruct Hrender as (st' & xs & Hr & Hf).
  destruct (render_range _ _ _ _ _ Hr) as [Hlen Hall].
  exists st', xs. unfold update. rewrite Hr. cbn [bind].
  split; [reflexivity |]. split; [exact Hlen |]. split; [exact Hall |].
  exact Hf.
Qed.

End Blocks.

Lemma update_transmits_whole_block_or_nothing_witness :
  exists (st' : AudioSynthPlaytune) (xs : list Z),
    @update one_note_platform 10 true one_note_engine = Ret (st', Some xs) /\
    length xs = @AUDIO_BLOCK_SAMPLES one_note_platform /\
    Forall (fun x => -32768 <= x <= 32767) xs /\
    st' = set_tone_gen (tone_gen st')
            (set_scorewait_samples
               (if tune_playing one_note_engine
                   && negb (scorewait_samples one_note_engine =? 0)
                then scorewait_samples one_note_engine
                     - Z.of_nat (@AUDIO_BLOCK_SAMPLES one_note_platform)
                else scorewait_samples one_note_engine) one_note_engine).
Proof.
  apply (proj2 (@update_transmits_whole_block_or_nothing one_note_platform)
           10%nat one_note_engine).
  - lia.
  - vm_compute. reflexivity.
  - vm_compute. split; discriminate.
  - right. right. vm_compute. split; reflexivity.
Defined.

(** ** The length of a drum strike *)

Section Drum.
Context `{P : Platform}.

Lemma update_tgen_drum (fuel : nat) (amplitude : Z) (tg : tone_gen_t) :
  playing tg = true -> percussion tg = true ->
  0 <= tone_phase tg < 2 ^ 31 ->
  0 <= tone_phase tg + tone_incr tg < 2 ^ 31 ->
  exists (tg' : tone_gen_t) (our : Z),
    update_tgen fuel amplitude tg = Ret (tg', our) /\
    percussion tg' = true /\
    tone_incr tg' = tone_incr tg /\
    drum_ending_sample_index tg' = drum_ending_sample_index tg /\
    tone_phase tg' = tone_phase tg + tone_incr tg /\
    playing tg'
    = negb (drum_ending_sample_index tg <=? Z.shiftr (tone_phase tg) 17 + 1).
Proof.
  intros Hplay Hperc Hphase Hnext. unfold update_tgen.
  destruct (wave_index_percussion tg Hperc Hphase) as [Hw _].
  rewrite Hplay, Hw, Hperc. cbn [bind].
  eexists _, _. split; [reflexivity |].
  cbn [percussion tone_incr drum_ending_sample_index tone_phase playing
       set_env_mult set_env set_tone_phase].
  assert (Hmask : forall p i, 0 <= p + i < 2 ^ 31 ->
                              Z.land (int32 (p + i)) 0x7fffffff = p + i).
  { intros p i Hpi. rewrite land_phase_mask, int32_mod_pow2_31.
    apply Z.mod_small. exact Hpi. }
  destruct (drum_ending_sample_index tg <=? Z.shiftr (tone_phase tg) 17 + 1);
    cbn [percussion tone_incr drum_ending_sample_index tone_phase playing
         set_playing negb];
    rewrite Hmask by exact Hnext; repeat split; assumption.
Qed.

Lemma drum_samples (fuel : nat) (amplitude : Z) (n : nat) :
  forall tg : tone_gen_t,
    playing tg = true -> percussion tg = true -> tone_phase tg = 0 ->
    0 < tone_incr tg <= 2 ^ 17 ->
    1 <= drum_ending_sample_index tg <= 16383 ->
    (n = 0%nat \/
     (Z.of_nat n - 1) * tone_incr tg
     < (drum_ending_sample_index tg - 1) * 2 ^ 17) ->
    exists tgn : tone_gen_t,
      update_tgen_n fuel amplitude n tg = Ret tgn /\
      playing tgn = true /\ percussion tgn = true /\
      tone_incr tgn = tone_incr tg /\
      drum_ending_sample_index tgn = drum_ending_sample_index tg /\
      tone_phase tgn = Z.of_nat n * tone_incr tg.
Proof.
  intros tg Hplay Hperc Hphase Hincr Hend.
  assert (Hsnoc : forall m tga,
             update_tgen_n fuel amplitude m tg = Ret tga ->
             forall tgb our,
               update_tgen fuel amplitude tga = Ret (tgb, our) ->
               update_tgen_n fuel amplitude (S m) tg = Ret tgb).
  { intros m. generalize tg. induction m as [| m IHm]; intros t tga Ha tgb our Hb.
    - cbn [update_tgen_n] in *. injection Ha as <-. rewrite Hb. reflexivity.
    - cbn [update_tgen_n] in Ha.
      destruct (update_tgen fuel amplitude t) as [[t1 o1] | |] eqn:Ht;
        cbn [bind] in Ha; try discriminate.
      change (update_tgen_n fuel amplitude (S (S m)) t)
        with (do '(tg', _) <- update_tgen fuel amplitude t;
              update_tgen_n fuel amplitude (S m) tg').
      rewrite Ht. cbn [bind]. eapply IHm; eassumption. }
  induction n as [| n IH]; intros Hn.
  - exists tg. split; [reflexivity |]. rewrite Hphase.
    repeat split; try assumption; lia.
  - assert (Hlt : Z.of_nat n * tone_incr tg
                  < (drum_ending_sample_index tg - 1) * 2 ^ 17)
      by (destruct Hn as [Hn | Hn]; [lia |];
          replace (Z.of_nat (S n) - 1) with (Z.of_nat n) in Hn by lia;
          exact Hn).
    destruct IH as (tgn & Hrun & Hp & Hq & Hi & He & Hph).
    { destruct n as [| n]; [left; reflexivity | right].
      replace (Z.of_nat (S n) - 1) with (Z.of_nat n) by lia.
      assert (Z.of_nat n * tone_incr tg <= Z.of_nat (S n) * tone_incr tg)
        by nia.
      lia. }
    destruct (update_tgen_drum fuel amplitude tgn Hp Hq)
      as (tg' & our & Hupd & Hq' & Hi' & He' & Hph' & Hp').
    { rewrite Hph. nia. }
    { rewrite Hph, Hi. nia. }
    exists tg'. split; [eapply Hsnoc; eassumption |].
    split.
    { rewrite Hp', He, Hph. apply negb_true_iff. apply Z.leb_gt.
      rewrite Z.shiftr_div_pow2 by lia.
      assert (Z.of_nat n * tone_incr tg / 2 ^ 17
              < drum_ending_sample_index tg - 1)
        by (apply Z.div_lt_upper_bound; lia).
      lia. }
    split; [exact Hq' |]. split; [congruence |]. split; [congruence |].
    rewrite Hph', Hph, Hi. lia.
Qed.

(** X14. A drum strike ends by itself, after a number of samples fixed by
    its table and its rate. For a percussion generator started at phase 0
    with increment [0 < i <= 2^17] and last index [1 <= e <= 16383], let [n]
    be the first number with [n * i >= (e - 1) * 2^17]: the generator is
    still active after [n] samples, at phase [n * i], and the next sample
    deactivates it, so that it sounds for exactly [n + 1] samples. *)
Theorem drum_strike_ends :
  forall (fuel : nat) (amplitude : Z) (n : nat) (tg : tone_gen_t),
    playing tg = true -> percussion tg = true -> tone_phase tg = 0 ->
    0 < tone_incr tg <= 2 ^ 17 ->
    1 <= drum_ending_sample_index tg <= 16383 ->
    (n = 0%nat \/
     (Z.of_nat n - 1) * tone_incr tg
     < (drum_ending_sample_index tg - 1) * 2 ^ 17) ->
    (drum_ending_sample_index tg - 1) * 2 ^ 17 <= Z.of_nat n * tone_incr tg ->
    exists (tgn tg' : tone_gen_t) (our : Z),
      update_tgen_n fuel amplitude n tg = Ret tgn /\
      playing tgn = true /\
      tone_phase tgn = Z.of_nat n * tone_incr tg /\
      update_tgen fuel amplitude tgn = Ret (tg', our) /\
      playing tg' = false.
Proof.
  intros fuel amplitude n tg Hplay Hperc Hphase Hincr Hend Hn Hreach.
  destruct (drum_samples fuel amplitude n tg Hplay Hperc Hphase Hincr Hend Hn)
    as (tgn & Hrun & Hp & Hq & Hi & He & Hph).
  assert (Hbound : Z.of_nat n * tone_incr tg
                   < drum_ending_sample_index tg * 2 ^ 17).
  { destruct Hn as [-> | Hn]; [lia | nia]. }
  destruct (update_tgen_drum fuel amplitude tgn Hp Hq)
    as (tg' & our & Hupd & _ & _ & _ & _ & Hp').
  { rewrite Hph. nia. }
  { rewrite Hph, Hi. nia. }
  exists tgn, tg', our. split; [exact Hrun |]. split; [exact Hp |].
  split; [exact Hph |]. split; [exact Hupd |].
  rewrite Hp', He, Hph. apply negb_false_iff. apply Z.leb_le.
  rewrite Z.shiftr_div_pow2 by lia.
  assert (drum_ending_sample_index tg - 1
          <= Z.of_nat n * tone_incr tg / 2 ^ 17)
    by (apply Z.div_le_lower_bound; lia).
  lia.
Qed.

End Drum.

Lemma drum_strike_ends_witness :
  exists (tgn tg' : tone_gen_t) (our : Z),
    @update_tgen_n one_note_platform 10 65536 2184 (tgen_of 1 drum_on_engine)
    = Ret tgn /\
    playing tgn = true /\
    tone_phase tgn = Z.of_nat 2184 * tone_incr (tgen_of 1 drum_on_engine) /\
    @update_tgen one_note_platform 10 65536 tgn = Ret (tg', our) /\
    playing tg' = false.
Proof.
  apply (@drum_strike_ends one_note_platform).
  - vm_compute. reflexivity.
  - vm_compute. reflexivity.
  - vm_compute. reflexivity.
  - vm_compute. split; [reflexivity | discriminate].
  - vm_compute. split; discriminate.
  - right. vm_compute. reflexivity.
  - vm_compute. discriminate.
Defined.

(** ** Silence after a stop *)

Section Silence.
Context `{P : Platform}.

Lemma update_tgen_n_app (fuel : nat) (amplitude : Z) (a b : nat) :
  forall tg : tone_gen_t,
    update_tgen_n fuel amplitude (a + b) tg
    = (do t <- update_tgen_n fuel amplitude a tg;
       update_tgen_n fuel amplitude b t).
Proof.
  induction a as [| a IH]; intros tg; [reflexivity |].
  cbn [update_tgen_n Nat.add].
  destruct (update_tgen fuel amplitude tg) as [[tg1 our] | |]; cbn [bind];
    try reflexivity.
  apply IH.
Qed.

Lemma update_tgen_n_inactive (fuel : nat) (amplitude : Z) (n : nat)
    (tg : tone_gen_t) :
  playing tg = false -> update_tgen_n fuel amplitude n tg = Ret tg.
Proof.
  intros H. induction n as [| n IH]; [reflexivity |].
  cbn [update_tgen_n]. rewrite update_tgen_inactive by exact H.
  cbn [bind]. exact IH.
Qed.

Lemma releases_within_instrument (rmax i : Z) (iw : instrument_waveform_t) :
  releases_within rmax = true ->
  index instrument_waveforms i = Ret iw ->
  0 < release iw <= rmax /\ 0 <= sustain_level iw < 2 ^ 31.
Proof.
  unfold releases_within. intros Hall Hiw.
  apply index_Ret in Hiw as [_ Hiw].
  apply list_elem_of_lookup_2 in Hiw. apply list_elem_of_In in Hiw.
  rewrite forallb_forall in Hall. apply Hall in Hiw.
  apply andb_prop in Hiw as [Hiw H4]. apply andb_prop in Hiw as [Hiw H3].
  apply andb_prop in Hiw as [H1 H2]. lia.
Qed.

Lemma voice_ends_after_stop (fuel : nat) (amplitude rmax : Z) (n : nat)
    (tg tg1 : tone_gen_t) :
  (2 <= fuel)%nat -> voice_ready tg = true ->
  releases_within rmax = true -> rmax < 2 ^ 31 ->
  stop_tone_gen tg = Ret tg1 ->
  rmax + 1 <= Z.of_nat n ->
  exists tgn : tone_gen_t,
    update_tgen_n fuel amplitude n tg1 = Ret tgn /\ playing tgn = false.
Proof.
  intros Hfuel Hr Hrel Hrmax Hstop Hn.
  destruct (stop_tone_gen_ready tg Hr) as (tg1' & Hstop' & _ & Hdesc).
  assert (tg1' = tg1) by congruence. subst tg1'.
  destruct (playing tg) eqn:Hplay.
  - destruct (percussion tg) eqn:Hperc.
    + exists tg1. subst tg1. split; [| reflexivity].
      apply update_tgen_n_inactive. reflexivity.
    + destruct Hdesc as (iw & Hiw & _).
      destruct (releases_within_instrument rmax _ iw Hrel Hiw) as [HR HS].
      destruct (stop_tone_gen_release tg iw Hplay Hperc Hiw)
        as (tg1' & Hstop1 & Hrel1); [lia | lia |].
      assert (tg1' = tg1) by congruence. subst tg1'.
      set (sus := sustain_level iw) in *. set (rel := release iw) in *.
      assert (Hd : 0 <= sus / rel) by (apply Z.div_pos; lia).
      assert (Hmod : sus = rel * (sus / rel) + sus mod rel)
        by (apply Z.div_mod; lia).
      assert (Hmodr : 0 <= sus mod rel < rel)
        by (apply Z.mod_pos_bound; lia).
      destruct (releasing_samples fuel amplitude (sus / rel) (Z.to_nat rel)
                  tg1 sus rel) as (tgR & HrunR & HrelR);
        try lia; try exact Hrel1; try nia.
      rewrite Z2Nat.id in HrelR by lia.
      replace (rel - rel) with 0 in HrelR by lia.
      destruct (release_ends fuel amplitude _ _ tgR Hfuel HrelR)
        as (tgE & our & HupdE & HplayE & _).
      exists tgE. split; [| exact HplayE].
      replace n with (Z.to_nat rel + (1 + (n - Z.to_nat rel - 1)))%nat
        by lia.
      rewrite update_tgen_n_app, HrunR. cbn [bind].
      rewrite update_tgen_n_app. cbn [update_tgen_n].
      rewrite HupdE. cbn [bind].
      apply update_tgen_n_inactive. exact HplayE.
  - exists tg1. subst tg1. split; [| exact Hplay].
    apply update_tgen_n_inactive. exact Hplay.
Qed.

Lemma mix_pointwise (fuel : nat) (amplitude : Z) (n : nat) :
  forall (i : nat) (tgs tgs' : list tone_gen_t) (level level' : Z),
    mix fuel amplitude n (Z.of_nat i) tgs level = Ret (tgs', level') ->
    forall (j : nat) (tg : tone_gen_t),
      (i <= j < i + n)%nat -> tgs !! j = Some tg ->
      exists (tg' : tone_gen_t) (our : Z),
        update_tgen fuel amplitude tg = Ret (tg', our) /\
        tgs' !! j = Some tg'.
Proof.
  induction n as [| n IH]; intros i tgs tgs' level level' H j tg Hj Htg;
    [lia |].
  cbn [mix] in H.
  destruct (index tgs (Z.of_nat i)) as [tgi | |] eqn:Htgi; cbn [bind] in H;
    try discriminate.
  destruct (update_tgen fuel amplitude tgi) as [[tgi' our] | |] eqn:Hupd;
    cbn [bind] in H; try discriminate.
  replace (Z.of_nat i + 1) with (Z.of_nat (S i)) in H by lia.
  rewrite Nat2Z.id in H. apply index_Ret in Htgi as [_ Htgi].
  rewrite Nat2Z.id in Htgi.
  destruct (Nat.eq_dec j i) as [-> | Hne].
  - assert (tgi = tg) by congruence. subst tgi.
    exists tgi', our. split; [exact Hupd |].
    apply mix_frame in H as [_ Hrest]. rewrite Hrest by lia.
    apply list_lookup_insert_eq. eapply lookup_lt_Some. exact Htg.
  - eapply IH; [exact H | lia |].
    rewrite list_lookup_insert_ne by lia. exact Htg.
Qed.

Lemma render_stopped_pointwise (fuel : nat) (n : nat) :
  forall (st st' : AudioSynthPlaytune) (xs : list Z),
    tune_playing st = false ->
    render fuel n st = Ret (st', xs) ->
    forall (j : nat) (tg : tone_gen_t),
      (j < Z.to_nat (num_tgens_used st))%nat ->
      tone_gen st !! j = Some tg ->
      exists tg' : tone_gen_t,
        update_tgen_n fuel (amplitude_fraction st) n tg = Ret tg' /\
        tone_gen st' !! j = Some tg'.
Proof.
  induction n as [| n IH]; intros st st' xs Hplay H j tg Hj Htg;
    cbn [render] in H.
  - injection H as <- _. exists tg. split; [reflexivity | exact Htg].
  - destruct (update_sample fuel st) as [[st1 x] | |] eqn:Hupd;
      cbn [bind] in H; try discriminate.
    destruct (render fuel n st1) as [[st2 xs2] | |] eqn:Hrest;
      cbn [bind] in H; try discriminate.
    injection H as <- _.
    rewrite update_sample_quiet in Hupd
      by (unfold decodes_now; rewrite Hplay; reflexivity).
    destruct (mix fuel (amplitude_fraction st) (Z.to_nat (num_tgens_used st))
                0 (tone_gen st) 0) as [[tgs level] | |] eqn:Hmix;
      cbn [bind] in Hupd; try discriminate.
    injection Hupd as <- _.
    destruct (mix_pointwise _ _ _ 0%nat _ _ _ _ Hmix j tg ltac:(lia) Htg)
      as (tg1 & our & Hone & Htg1).
    destruct (IH (set_tone_gen tgs
                    (set_scorewait_samples (scorewait_after st) st))
                _ _ Hplay Hrest j tg1 Hj Htg1) as (tg' & Hmany & Htg').
    exists tg'. split; [| exact Htg'].
    cbn [update_tgen_n]. rewrite Hone. cbn [bind]. exact Hmany.
Qed.

(** X15. [stop()] silences the engine within a bounded time. If every
    instrument releases within [rmax] samples, then on a well-formed engine
    [stop()] returns, any [n >= rmax + 1] samples can be rendered after it,
    and after them none of the [num_tgens_used] generators that are mixed
    is active any more. *)
Theorem stop_silences_within_release :
  forall (fuel n : nat) (rmax : Z) (st : AudioSynthPlaytune),
    (2 <= fuel)%nat -> engine_ready st = true ->
    0 <= num_tgens_used st <= MAX_TGENS ->
    releases_within rmax = true -> rmax < 2 ^ 31 ->
    rmax + 1 <= Z.of_nat n ->
    exists (st1 st' : AudioSynthPlaytune) (xs : list Z),
      stop st = Ret st1 /\
      render fuel n st1 = Ret (st', xs) /\
      forall (j : nat) (tg' : tone_gen_t),
        (j < Z.to_nat (num_tgens_used st))%nat ->
        tone_gen st' !! j = Some tg' -> playing tg' = false.
Proof.
  intros fuel n rmax st Hfuel Hst Hnum Hrel Hrmax Hn.
  destruct (stop_ready st Hst) as (st1 & Hstop & Hplay & Hframe & Hr1 & Hall).
  assert (Hnum1 : num_tgens_used st1 = num_tgens_used st)
    by (rewrite Hframe; reflexivity).
  destruct (render_stopped fuel n Hfuel st1 Hr1) as (st' & xs & Hrender & _).
  { rewrite Hnum1. exact Hnum. }
  { exact Hplay. }
  exists st1, st', xs. split; [exact Hstop |]. split; [exact Hrender |].
  intros j tg' Hj Htg'.
  destruct (lookup_lt_is_Some_2 (tone_gen st) j) as [tg Htg].
  { rewrite (engine_ready_length _ Hst). unfold MAX_TGENS in Hnum. lia. }
  destruct (Hall j tg Htg) as (tg1 & Htg1 & Hstop1).
  destruct (render_stopped_pointwise fuel n st1 st' xs Hplay Hrender j tg1)
    as (tg2 & Hrun & Htg2); [rewrite Hnum1; exact Hj | exact Htg1 |].
  destruct (voice_ends_after_stop fuel (amplitude_fraction st1) rmax n tg tg1
              Hfuel (engine_ready_voice _ _ _ Hst Htg) Hrel Hrmax Hstop1 Hn)
    as (tgn & Hrun' & Hoff).
  congruence.
Qed.

End Silence.

Lemma stop_silences_within_release_witness :
  exists (st1 st' : AudioSynthPlaytune) (xs : list Z),
    @stop one_note_platform one_note_attack_engine = Ret st1 /\
    @render one_note_platform 10 2648 st1 = Ret (st', xs) /\
    forall (j : nat) (tg' : tone_gen_t),
      (j < Z.to_nat (num_tgens_used one_note_attack_engine))%nat ->
      tone_gen st' !! j = Some tg' -> playing tg' = false.
Proof.
  apply (@stop_silences_within_release one_note_platform 10%nat 2648%nat
           2647).
  - lia.
  - vm_compute. reflexivity.
  - vm_compute. split; discriminate.
  - vm_compute. reflexivity.
  - lia.
  - lia.
Defined.

(** ** Decoding without undefined behaviour *)

Lemma instrument_patch_map_valid (i : Z) :
  0 <= i < 128 ->
  exists instr : Z, index instrument_patch_map i = Ret instr /\ 0 <= instr < 15.
Proof.
  intros Hi.
  assert (Hall : forallb
            (fun n => match index instrument_patch_map (Z.of_nat n) with
                      | Ret d => (0 <=? d) && (d <? 15)
                      | _ => false
                      end) (seq 0 128) = true) by (vm_compute; reflexivity).
  rewrite forallb_forall in Hall. specialize (Hall (Z.to_nat i)).
  rewrite Z2Nat.id in Hall by lia.
  assert (Hin : In (Z.to_nat i) (seq 0 128)) by (apply in_seq; lia).
  apply Hall in Hin.
  destruct (index instrument_patch_map i) as [d | |]; try discriminate.
  exists d. split; [reflexivity |]. apply andb_prop in Hin as [H1 H2]. lia.
Qed.

Lemma instrument_patch_map_end (i : Z) :
  128 <= i -> index instrument_patch_map i = Undefined.
Proof.
  intros Hi. unfold index. destruct (Z.ltb_spec i 0); [reflexivity |].
  rewrite lookup_ge_None_2; [reflexivity |].
  change (length instrument_patch_map) with 128%nat. lia.
Qed.

Lemma generator_number_range (c : Z) :
  0 <= c < 256 -> 0 <= Z.land c 0x0f < MAX_TGENS.
Proof.
  intros Hc.
  pose proof (byte_cases
                (fun c => (0 <=? Z.land c 0x0f) && (Z.land c 0x0f <? 16))
                ltac:(vm_compute; reflexivity) c Hc) as H.
  cbv beta in H. apply andb_prop in H as [H1 H2]. unfold MAX_TGENS. lia.
Qed.

Section Safety.
Context `{P : Platform}.

Lemma platform_ready_instrument (instr : Z) :
  platform_ready = true -> 0 <= instr < 15 ->
  exists iw : instrument_waveform_t,
    index instrument_waveforms instr = Ret iw /\ instrument_ready iw = true.
Proof.
  unfold platform_ready. intros H Hi.
  apply andb_prop in H as [H Hall]. apply andb_prop in H as [_ Hlen].
  apply Nat.leb_le in Hlen.
  destruct (lookup_lt_is_Some_2 instrument_waveforms (Z.to_nat instr))
    as [iw Hiw]; [lia |].
  exists iw. split; [apply index_lookup; [lia | exact Hiw] |].
  rewrite forallb_forall in Hall. apply Hall. apply list_elem_of_In.
  apply (list_elem_of_lookup_2 _ (Z.to_nat instr)).
  rewrite lookup_take_lt by lia. exact Hiw.
Qed.

Lemma engine_ready_insert (st st' : AudioSynthPlaytune) (k : nat)
    (tg' : tone_gen_t) :
  engine_ready st = true -> voice_ready tg' = true ->
  tone_gen st' = <[k := tg']> (tone_gen st) ->
  engine_ready st' = true.
Proof.
  intros Hst Htg' Hgens. apply engine_ready_intro.
  - rewrite Hgens, length_insert. apply engine_ready_length. exact Hst.
  - intros i tg Hi. rewrite Hgens in Hi.
    destruct (Nat.eq_dec i k) as [-> | Hne].
    + destruct (lookup_lt_is_Some_2 (tone_gen st) k) as [old Hold].
      { apply lookup_lt_Some in Hi. rewrite length_insert in Hi. exact Hi. }
      rewrite list_lookup_insert_eq in Hi
        by (eapply lookup_lt_Some; exact Hold).
      congruence.
    + rewrite list_lookup_insert_ne in Hi by congruence.
      eapply engine_ready_voice; eassumption.
Qed.

Lemma tune_playnote_ready (st : AudioSynthPlaytune) (tgen note vol : Z) :
  platform_ready = true -> engine_ready st = true ->
  0 <= tgen -> 0 <= note < 256 ->
  exists st' : AudioSynthPlaytune,
    tune_playnote tgen note vol st = Ret st' /\ engine_ready st' = true.
Proof.
  intros Hp Hst Htgen Hnote. unfold tune_playnote.
  destruct (Z.ltb_spec tgen MAX_TGENS) as [Hlt | _]; [| eauto].
  destruct (lookup_lt_is_Some_2 (tone_gen st) (Z.to_nat tgen)) as [tg Htg].
  { rewrite (engine_ready_length _ Hst). unfold MAX_TGENS in Hlt. lia. }
  rewrite (index_lookup _ _ _ Htgen Htg). cbn [bind].
  pose proof (engine_ready_voice _ _ _ Hst Htg) as Hr.
  pose proof Hp as Hp'. unfold platform_ready in Hp'.
  apply andb_prop in Hp' as [Hp' _]. apply andb_prop in Hp' as [Hp' _].
  apply andb_prop in Hp' as [Hp' Hsizes]. apply andb_prop in Hp' as [Hq Hrate].
  apply negb_true_iff in Hq. apply negb_true_iff in Hrate.
  apply Nat.leb_le in Hsizes.
  destruct (Z.leb_spec 128 note) as [Hdrum | Hmel].
  - destruct (drum_patch_map_valid (note - 128)) as (d & Hd & Hdr); [lia |].
    destruct (drum_tables_valid d Hdr) as (w & freq & Hw & Hfreq).
    destruct (index_in_range drum_waveform_size d) as [size Hsize]; [lia |].
    rewrite Hd. cbn [bind]. rewrite Hw. cbn [bind]. rewrite Hfreq.
    cbn [bind]. rewrite Hq. cbn [bind]. rewrite Hsize. cbn [bind].
    eexists. split; [reflexivity |].
    eapply (engine_ready_insert st); [exact Hst | | reflexivity].
    rewrite <- Hr. apply voice_ready_same_instrument. reflexivity.
  - destruct (voice_ready_instrument _ Hr) as (iw & Hiw & _).
    destruct (clamped_note_frequency note) as [freq Hfreq]. cbv zeta in Hfreq.
    rewrite Hiw. cbn [bind]. rewrite Hfreq. cbn [bind].
    unfold c_div. rewrite Hrate. cbn [bind].
    eexists. split; [reflexivity |].
    eapply (engine_ready_insert st); [exact Hst | | reflexivity].
    rewrite <- Hr. apply voice_ready_same_instrument. reflexivity.
Qed.

Lemma tune_stopnote_ready (st : AudioSynthPlaytune) (tgen : Z) :
  engine_ready st = true -> 0 <= tgen ->
  exists st' : AudioSynthPlaytune,
    tune_stopnote tgen st = Ret st' /\ engine_ready st' = true.
Proof.
  intros Hst Htgen. unfold tune_stopnote.
  destruct (Z.ltb_spec tgen MAX_TGENS) as [Hlt | _]; [| eauto].
  destruct (lookup_lt_is_Some_2 (tone_gen st) (Z.to_nat tgen)) as [tg Htg].
  { rewrite (engine_ready_length _ Hst). unfold MAX_TGENS in Hlt. lia. }
  rewrite (index_lookup _ _ _ Htgen Htg). cbn [bind].
  destruct (stop_tone_gen_ready tg (engine_ready_voice _ _ _ Hst Htg))
    as (tg' & Hstop & Hr' & _).
  rewrite Hstop. cbn [bind]. eexists. split; [reflexivity |].
  eapply (engine_ready_insert st); [exact Hst | exact Hr' | reflexivity].
Qed.

Lemma instrument_command (st : AudioSynthPlaytune) :
  Z.land (pgm_read_byte (score_cursor st)) 0xf0 = CMD_INSTRUMENT ->
  tune_stepscore_cmd st
  = (do instrument <- index instrument_patch_map
                        (pgm_read_byte (score_cursor st + 1));
     do st' <- tune_setinstrument
                 (Z.land (pgm_read_byte (score_cursor st)) 0x0f) instrument
                 (set_score_cursor (score_cursor st + 2) st);
     Ret (st', true)).
Proof.
  intros Hcmd. unfold tune_stepscore_cmd.
  rewrite (command_byte_high_bit _ CMD_INSTRUMENT (pgm_read_byte_range _)
             ltac:(unfold CMD_INSTRUMENT; lia) Hcmd).
  rewrite Hcmd.
  cbn [Z.eqb CMD_PLAYNOTE CMD_STOPNOTE CMD_INSTRUMENT Pos.eqb].
  cbn [score_cursor set_score_cursor].
  replace (score_cursor st + 1 + 1) with (score_cursor st + 2) by lia.
  reflexivity.
Qed.

(** X16. The instrument change command (opcode 0xC0) indexes the 128-entry
    [instrument_patch_map] with the byte that follows it. A byte of 128 or
    more reads past the end of that table, which is undefined. A byte below
    128 selects one of the fifteen instruments for the generator named in
    the command, takes two bytes of score and changes nothing else: a note
    sounding on that generator is not touched, only its instrument index
    is. *)
Theorem instrument_command_selects_patch :
  forall st : AudioSynthPlaytune,
    length (tone_gen st) = 16%nat ->
    Z.land (pgm_read_byte (score_cursor st)) 0xf0 = CMD_INSTRUMENT ->
    (128 <= pgm_read_byte (score_cursor st + 1) ->
     tune_stepscore_cmd st = Undefined) /\
    (pgm_read_byte (score_cursor st + 1) < 128 ->
     exists (instr : Z) (tg : tone_gen_t),
       index instrument_patch_map (pgm_read_byte (score_cursor st + 1))
       = Ret instr /\
       0 <= instr < 15 /\
       tone_gen st
         !! Z.to_nat (Z.land (pgm_read_byte (score_cursor st)) 0x0f)
       = Some tg /\
       tune_stepscore_cmd st
       = Ret (set_tone_gen
                (<[Z.to_nat (Z.land (pgm_read_byte (score_cursor st)) 0x0f)
                   := set_instrument_index instr tg]> (tone_gen st))
                (set_score_cursor (score_cursor st + 2) st), true)).
Proof.
  intros st Hlen Hcmd. rewrite (instrument_command st Hcmd). split.
  - intros Hi. rewrite instrument_patch_map_end by exact Hi. reflexivity.
  - intros Hi.
    pose proof (pgm_read_byte_range (score_cursor st + 1)) as Hbyte.
    destruct (instrument_patch_map_valid _ (conj (proj1 Hbyte) Hi))
      as (instr & Hinstr & Hrange).
    pose proof (generator_number_range _
                  (pgm_read_byte_range (score_cursor st))) as Htgen.
    set (tgen := Z.land (pgm_read_byte (score_cursor st)) 0x0f) in *.
    destruct (lookup_lt_is_Some_2 (tone_gen st) (Z.to_nat tgen)) as [tg Htg].
    { rewrite Hlen. unfold MAX_TGENS in Htgen. lia. }
    exists instr, tg. split; [exact Hinstr |]. split; [exact Hrange |].
    split; [exact Htg |].
    rewrite Hinstr. cbn [bind]. unfold tune_setinstrument.
    cbn [tone_gen set_score_cursor].
    rewrite (index_lookup _ _ _ (proj1 Htgen) Htg). reflexivity.
Qed.

(** X17. Decoding is safe on a well-formed engine. If the platform has a
    sample rate that does not truncate to 0, sizes for the six drums and
    fifteen instruments with nonzero attack, decay and release counts, and
    every generator refers to such an instrument, then the command at the
    cursor, whatever its bytes, is decoded without an out-of-range read or a
    division by zero, and leaves the engine well-formed again; the one
    exception is an instrument change with a selector byte of 128 or
    more. *)
Theorem commands_decode_safely :
  forall st : AudioSynthPlaytune,
    platform_ready = true -> engine_ready st = true ->
    (Z.land (pgm_read_byte (score_cursor st)) 0xf0 = CMD_INSTRUMENT ->
     pgm_read_byte (score_cursor st + 1) < 128) ->
    exists (st' : AudioSynthPlaytune) (again : bool),
      tune_stepscore_cmd st = Ret (st', again) /\ engine_ready st' = true.
Proof.
  intros st Hp Hst Hsel.
  pose proof (pgm_read_byte_range (score_cursor st)) as Hbyte.
  pose proof (generator_number_range _ Hbyte) as Htgen.
  destruct (Z.eqb_spec (Z.land (pgm_read_byte (score_cursor st)) 0xf0)
              CMD_INSTRUMENT) as [Hinstr | Hother].
  - rewrite (instrument_command st Hinstr).
    pose proof (pgm_read_byte_range (score_cursor st + 1)) as Hbyte1.
    destruct (instrument_patch_map_valid _ (conj (proj1 Hbyte1) (Hsel Hinstr)))
      as (instr & Hi & Hrange).
    rewrite Hi. cbn [bind]. unfold tune_setinstrument.
    cbn [tone_gen set_score_cursor].
    destruct (lookup_lt_is_Some_2 (tone_gen st)
                (Z.to_nat (Z.land (pgm_read_byte (score_cursor st)) 0x0f)))
      as [tg Htg].
    { rewrite (engine_ready_length _ Hst). unfold MAX_TGENS in Htgen. lia. }
    rewrite (index_lookup _ _ _ (proj1 Htgen) Htg). cbn [bind].
    eexists _, _. split; [reflexivity |].
    eapply (engine_ready_insert st); [exact Hst | | reflexivity].
    unfold voice_ready. cbn [instrument_index set_instrument_index].
    destruct (platform_ready_instrument instr Hp Hrange) as (iw & Hiw & Hready).
    rewrite Hiw. exact Hready.
  - unfold tune_stepscore_cmd.
    destruct (Z.ltb_spec (pgm_read_byte (score_cursor st)) 0x80).
    { eexists _, _. split; [reflexivity | exact Hst]. }
    cbn [score_cursor set_score_cursor volume_present].
    destruct (Z.eqb_spec (Z.land (pgm_read_byte (score_cursor st)) 0xf0)
                CMD_STOPNOTE).
    { destruct (tune_stopnote_ready
                  (set_score_cursor (score_cursor st + 1) st)
                  (Z.land (pgm_read_byte (score_cursor st)) 0x0f) Hst
                  (proj1 Htgen)) as (st' & Hstop & Hst').
      rewrite Hstop. cbn [bind]. eauto. }
    destruct (Z.eqb_spec (Z.land (pgm_read_byte (score_cursor st)) 0xf0)
                CMD_PLAYNOTE).
    { match goal with
      | |- context [tune_playnote ?t ?n ?v ?s] =>
          destruct (tune_playnote_ready s t n v Hp) as (st' & Hplay & Hst')
      end.
      - destruct (volume_present st); exact Hst.
      - exact (proj1 Htgen).
      - apply pgm_read_byte_range.
      - rewrite Hplay. cbn [bind]. eauto. }
    destruct (Z.eqb_spec (Z.land (pgm_read_byte (score_cursor st)) 0xf0)
                CMD_INSTRUMENT); [contradiction |].
    destruct (Z.eqb_spec (Z.land (pgm_read_byte (score_cursor st)) 0xf0)
                CMD_RESTART).
    { eexists _, _. split; [reflexivity | exact Hst]. }
    destruct (Z.eqb_spec (Z.land (pgm_read_byte (score_cursor st)) 0xf0)
                CMD_STOP).
    { destruct (stop_ready (set_score_cursor (score_cursor st + 1) st) Hst)
        as (st' & Hstop & _ & _ & Hst' & _).
      rewrite Hstop. cbn [bind]. eauto. }
    eexists _, _. split; [reflexivity | exact Hst].
Qed.

End Safety.

Lemma instrument_command_selects_patch_witness :
  exists (instr : Z) (tg : tone_gen_t),
    index instrument_patch_map
      (@pgm_read_byte instrument_platform (score_cursor idle_engine + 1))
    = Ret instr /\
    0 <= instr < 15 /\
    tone_gen idle_engine
      !! Z.to_nat (Z.land (@pgm_read_byte instrument_platform
                             (score_cursor idle_engine)) 0x0f)
    = Some tg /\
    @tune_stepscore_cmd instrument_platform idle_engine
    = Ret (set_tone_gen
             (<[Z.to_nat (Z.land (@pgm_read_byte instrument_platform
                                    (score_cursor idle_engine)) 0x0f)
                := set_instrument_index instr tg]> (tone_gen idle_engine))
             (set_score_cursor (score_cursor idle_engine + 2) idle_engine),
           true).
Proof.
  apply (proj2 (@instrument_command_selects_patch instrument_platform
                  idle_engine ltac:(reflexivity)
                  ltac:(vm_compute; reflexivity))).
  vm_compute. reflexivity.
Defined.

Lemma commands_decode_safely_witness :
  exists (st' : AudioSynthPlaytune) (again : bool),
    @tune_stepscore_cmd instrument_platform idle_engine = Ret (st', again) /\
    @engine_ready instrument_platform st' = true.
Proof.
  apply (@commands_decode_safely instrument_platform idle_engine).
  - vm_compute. reflexivity.
  - vm_compute. reflexivity.
  - intros _. vm_compute. reflexivity.
Defined.

(** ** The envelope of a held note *)

Section Envelope.
Context `{P : Platform}.

Lemma update_tgen_after_envelope (fuel : nat) (amplitude : Z)
    (tg tg1 : tone_gen_t) (s : env_state_t) (i m c : Z) :
  playing tg = true -> percussion tg = false ->
  envelope fuel tg = Ret tg1 -> ramping s i tg1 m c ->
  exists (tg' : tone_gen_t) (our : Z),
    update_tgen fuel amplitude tg = Ret (tg', our) /\
    ramping s i tg' (int32 (m + i)) (int32 (c - 1)) /\
    instrument_index tg' = instrument_index tg1.
Proof.
  intros Hplay Hperc Henv (H1 & H2 & H3 & H4 & H5 & H6).
  unfold update_tgen, wave_index. rewrite Hplay, Hperc, Henv. cbn [bind].
  eexists _, _. split; [reflexivity |]. unfold ramping. cbn.
  rewrite H4, H5, H6. repeat split; assumption || reflexivity.
Qed.

Lemma ramping_samples (fuel : nat) (amplitude : Z) (s : env_state_t) (i : Z)
    (k : nat) :
  forall (tg : tone_gen_t) (m c : Z),
    ramping s i tg m c -> Z.of_nat k <= c -> c < 2 ^ 31 ->
    (forall j, 0 <= j <= Z.of_nat k -> - 2 ^ 31 <= m + j * i < 2 ^ 31) ->
    exists tgk : tone_gen_t,
      update_tgen_n fuel amplitude k tg = Ret tgk /\
      ramping s i tgk (m + Z.of_nat k * i) (c - Z.of_nat k) /\
      instrument_index tgk = instrument_index tg.
Proof.
  induction k as [| k IH]; intros tg m c Hr Hk Hc Hm.
  - exists tg. split; [reflexivity |].
    replace (m + Z.of_nat 0 * i) with m by lia.
    replace (c - Z.of_nat 0) with c by lia. split; [exact Hr | reflexivity].
  - pose proof Hr as (Hplay & Hperc & _ & _ & _ & Hcount).
    destruct (update_tgen_after_envelope fuel amplitude tg tg s i m c
                Hplay Hperc) as (tg' & our & Hupd & Hr' & Hi');
      [apply envelope_counting; lia | exact Hr |].
    rewrite (int32_small (m + i)) in Hr'
      by (specialize (Hm 1); replace (m + 1 * i) with (m + i) in Hm by lia;
          apply Hm; lia).
    rewrite (int32_small (c - 1)) in Hr' by lia.
    destruct (IH tg' (m + i) (c - 1) Hr') as (tgk & Hrun & Hrk & Hik);
      [lia | lia | |].
    { intros j Hj. specialize (Hm (j + 1)).
      replace (m + (j + 1) * i) with (m + i + j * i) in Hm by ring.
      apply Hm. lia. }
    exists tgk. cbn [update_tgen_n]. rewrite Hupd. cbn [bind].
    split; [exact Hrun |]. split; [| congruence].
    replace (m + Z.of_nat (S k) * i) with (m + i + Z.of_nat k * i)
      by (rewrite Nat2Z.inj_succ; ring).
    replace (c - Z.of_nat (S k)) with (c - 1 - Z.of_nat k) by lia.
    exact Hrk.
Qed.

(** The samples of one envelope state, from the sample that enters it. *)
Lemma phase_runs (fuel : nat) (amplitude : Z) (tg tg1 : tone_gen_t)
    (s : env_state_t) (i m c : Z) :
  playing tg = true -> percussion tg = false ->
  envelope fuel tg = Ret tg1 -> ramping s i tg1 m c ->
  0 < c < 2 ^ 31 ->
  (forall j, 0 <= j <= c -> - 2 ^ 31 <= m + j * i < 2 ^ 31) ->
  exists tgk : tone_gen_t,
    update_tgen_n fuel amplitude (Z.to_nat c) tg = Ret tgk /\
    ramping s i tgk (m + c * i) 0 /\
    instrument_index tgk = instrument_index tg1.
Proof.
  intros Hplay Hperc Henv Hr Hc Hm.
  destruct (update_tgen_after_envelope fuel amplitude tg tg1 s i m c
              Hplay Hperc Henv Hr) as (tg' & our & Hupd & Hr' & Hi').
  rewrite (int32_small (m + i)) in Hr'
    by (specialize (Hm 1); replace (m + 1 * i) with (m + i) in Hm by lia;
        apply Hm; lia).
  rewrite (int32_small (c - 1)) in Hr' by lia.
  destruct (ramping_samples fuel amplitude s i (Z.to_nat (c - 1)) tg'
              (m + i) (c - 1) Hr') as (tgk & Hrun & Hrk & Hik);
    [lia | lia | |].
  { intros j Hj. specialize (Hm (j + 1)).
    replace (m + (j + 1) * i) with (m + i + j * i) in Hm by ring.
    apply Hm. lia. }
  exists tgk. replace (Z.to_nat c) with (S (Z.to_nat (c - 1))) by lia.
  cbn [update_tgen_n]. rewrite Hupd. cbn [bind].
  split; [exact Hrun |]. split; [| congruence].
  rewrite Z2Nat.id in Hrk by lia.
  replace (m + c * i) with (m + i + (c - 1) * i) by ring.
  replace (c - 1 - (c - 1)) with 0 in Hrk by lia. exact Hrk.
Qed.

Lemma envelope_leaves_delay (fuel : nat) (tg : tone_gen_t)
    (iw : instrument_waveform_t) (i m : Z) :
  (1 <= fuel)%nat -> ramping ENV_DELAY i tg m 0 ->
  index instrument_waveforms (instrument_index tg) = Ret iw ->
  attack iw <> 0 ->
  exists tg1 : tone_gen_t,
    envelope fuel tg = Ret tg1 /\
    ramping ENV_ATTACK (Z.quot 0x10000 (attack iw)) tg1 m (attack iw) /\
    instrument_index tg1 = instrument_index tg.
Proof.
  intros Hfuel (H1 & H2 & H3 & H4 & H5 & H6) Hiw Ha.
  destruct fuel as [| fuel]; [lia |].
  cbn [envelope]. rewrite H6. cbn [Z.eqb].
  unfold envelope_switch, c_div. rewrite H3, Hiw. cbn [bind].
  destruct (Z.eqb_spec (attack iw) 0); [contradiction |]. cbn [bind].
  rewrite envelope_counting by (cbn; assumption).
  eexists. split; [reflexivity |]. unfold ramping. cbn.
  repeat split; assumption || reflexivity.
Qed.

Lemma envelope_leaves_hold (fuel : nat) (tg : tone_gen_t)
    (iw : instrument_waveform_t) (i m : Z) :
  (1 <= fuel)%nat -> ramping ENV_HOLD i tg m 0 ->
  index instrument_waveforms (instrument_index tg) = Ret iw ->
  decay iw <> 0 ->
  exists tg1 : tone_gen_t,
    envelope fuel tg = Ret tg1 /\
    ramping ENV_DECAY
      (int32 (Z.quot (int32 (sustain_level iw - 0x10000)) (decay iw)))
      tg1 0x10000 (decay iw) /\
    instrument_index tg1 = instrument_index tg.
Proof.
  intros Hfuel (H1 & H2 & H3 & H4 & H5 & H6) Hiw Hd.
  destruct fuel as [| fuel]; [lia |].
  cbn [envelope]. rewrite H6. cbn [Z.eqb].
  unfold envelope_switch, c_div. rewrite H3, Hiw. cbn [bind].
  destruct (Z.eqb_spec (decay iw) 0); [contradiction |]. cbn [bind].
  rewrite envelope_counting by (cbn; assumption).
  eexists. split; [reflexivity |]. unfold ramping. cbn.
  repeat split; assumption || reflexivity.
Qed.

Lemma envelope_leaves_attack (fuel : nat) (tg : tone_gen_t)
    (iw : instrument_waveform_t) (i m : Z) :
  (2 <= fuel)%nat -> ramping ENV_ATTACK i tg m 0 ->
  index instrument_waveforms (instrument_index tg) = Ret iw ->
  decay iw <> 0 ->
  exists tg1 : tone_gen_t,
    envelope fuel tg = Ret tg1 /\
    instrument_index tg1 = instrument_index tg /\
    if hold iw =? 0
    then ramping ENV_DECAY
           (int32 (Z.quot (int32 (sustain_level iw - 0x10000)) (decay iw)))
           tg1 0x10000 (decay iw)
    else ramping ENV_HOLD 0 tg1 0x10000 (hold iw).
Proof.
  intros Hfuel (H1 & H2 & H3 & H4 & H5 & H6) Hiw Hd.
  destruct fuel as [| fuel]; [lia |].
  cbn [envelope]. rewrite H6. cbn [Z.eqb].
  unfold envelope_switch at 1. rewrite H3, Hiw. cbn [bind].
  destruct (Z.eqb_spec (hold iw) 0) as [Hh | Hh].
  - destruct (envelope_leaves_hold fuel
                (set_env ENV_HOLD 0x10000 0 (hold iw) tg) iw 0 0x10000)
      as (tg1 & Henv & Hr & Hi); [lia | | exact Hiw | exact Hd |].
    { unfold ramping. cbn. repeat split; assumption || reflexivity. }
    exists tg1. split; [exact Henv |]. split; [exact Hi | exact Hr].
  - rewrite envelope_counting by (cbn; assumption).
    eexists. split; [reflexivity |]. split; [reflexivity |].
    unfold ramping. cbn. repeat split; assumption || reflexivity.
Qed.

Lemma envelope_leaves_decay (fuel : nat) (tg : tone_gen_t)
    (iw : instrument_waveform_t) (i m : Z) :
  (1 <= fuel)%nat -> ramping ENV_DECAY i tg m 0 ->
  index instrument_waveforms (instrument_index tg) = Ret iw ->
  exists tg1 : tone_gen_t,
    envelope fuel tg = Ret tg1 /\
    ramping ENV_SUSTAIN 0 tg1 (sustain_level iw) INT_MAX /\
    instrument_index tg1 = instrument_index tg.
Proof.
  intros Hfuel (H1 & H2 & H3 & H4 & H5 & H6) Hiw.
  destruct fuel as [| fuel]; [lia |].
  cbn [envelope]. rewrite H6. cbn [Z.eqb].
  unfold envelope_switch. rewrite H3, Hiw. cbn [bind].
  rewrite envelope_counting by (cbn; unfold INT_MAX; lia).
  eexists. split; [reflexivity |]. unfold ramping. cbn.
  repeat split; assumption || reflexivity.
Qed.

Lemma update_tgen_n_then (fuel : nat) (amplitude : Z) (a b : nat)
    (tg t1 t2 : tone_gen_t) :
  update_tgen_n fuel amplitude a tg = Ret t1 ->
  update_tgen_n fuel amplitude b t1 = Ret t2 ->
  update_tgen_n fuel amplitude (a + b) tg = Ret t2.
Proof.
  intros Ha Hb. rewrite update_tgen_n_app, Ha. cbn [bind]. exact Hb.
Qed.

Lemma decay_increment (sus dec : Z) :
  0 <= sus <= 0x10000 -> 0 < dec ->
  exists e : Z,
    int32 (Z.quot (int32 (sus - 0x10000)) dec) = - e /\
    0 <= e /\ dec * e <= 0x10000 - sus.
Proof.
  intros Hs Hd. exists ((0x10000 - sus) / dec).
  rewrite (int32_small (sus - 0x10000)) by lia.
  replace (sus - 0x10000) with (- (0x10000 - sus)) by lia.
  rewrite Z.quot_opp_l by lia.
  rewrite Z.quot_div_nonneg by lia.
  assert (He : 0 <= (0x10000 - sus) / dec) by (apply Z.div_pos; lia).
  assert (Hle : dec * ((0x10000 - sus) / dec) <= 0x10000 - sus)
    by (apply Z.mul_div_le; lia).
  split; [| split; assumption].
  apply int32_small. nia.
Qed.

(** From the sample that enters the decay to the first sample of the
    sustain. *)
Lemma decay_reaches_sustain (fuel : nat) (amplitude : Z)
    (tg tg1 : tone_gen_t) (iw : instrument_waveform_t) :
  (1 <= fuel)%nat ->
  playing tg = true -> percussion tg = false ->
  envelope fuel tg = Ret tg1 ->
  ramping ENV_DECAY
    (int32 (Z.quot (int32 (sustain_level iw - 0x10000)) (decay iw)))
    tg1 0x10000 (decay iw) ->
  index instrument_waveforms (instrument_index tg1) = Ret iw ->
  0 < decay iw < 2 ^ 31 -> 0 <= sustain_level iw <= 0x10000 ->
  exists tgs : tone_gen_t,
    update_tgen_n fuel amplitude (Z.to_nat (decay iw) + 1) tg = Ret tgs /\
    ramping ENV_SUSTAIN 0 tgs (sustain_level iw) (INT_MAX - 1).
Proof.
  intros Hfuel Hplay Hperc Henv Hr Hiw Hd Hs.
  destruct (decay_increment (sustain_level iw) (decay iw) Hs (proj1 Hd))
    as (e & He & He0 & Hle).
  rewrite He in Hr.
  destruct (phase_runs fuel amplitude tg tg1 ENV_DECAY (- e) 0x10000
              (decay iw) Hplay Hperc Henv Hr Hd) as (tgd & Hrun & Hrd & Hid).
  { intros j Hj. nia. }
  pose proof Hrd as (Hplayd & Hpercd & _).
  destruct (envelope_leaves_decay fuel tgd iw _ _ Hfuel Hrd)
    as (tg2 & Henv2 & Hr2 & _); [congruence |].
  destruct (update_tgen_after_envelope fuel amplitude tgd tg2 _ _ _ _
              Hplayd Hpercd Henv2 Hr2) as (tgs & our & Hupd & Hrs & _).
  rewrite (int32_small (sustain_level iw + 0)) in Hrs by lia.
  rewrite (int32_small (INT_MAX - 1)) in Hrs by (unfold INT_MAX; lia).
  replace (sustain_level iw + 0) with (sustain_level iw) in Hrs by lia.
  exists tgs. split; [| exact Hrs].
  eapply update_tgen_n_then; [exact Hrun |].
  cbn [update_tgen_n]. rewrite Hupd. reflexivity.
Qed.

(** X18. The envelope of a held note, from the state a melodic note-on
    leaves the generator in: the delay state with multiplier and increment
    0 and the instrument's delay as count. For an instrument with delay [D],
    attack [A > 0], hold [H], decay [C > 0] and sustain level [S] at most
    0x10000, the attack ends after [D + A] samples with the multiplier at
    [A * (0x10000 / A)] (it reaches 0x10000 exactly only when [A] divides
    it; the hold state then sets it), and after [D + A + H + C + 1] samples
    the generator is in the sustain state at exactly [S], still active and
    with increment 0. States of length 0 (delay, hold) are passed through
    within one sample. *)
Theorem held_note_reaches_sustain :
  forall (fuel : nat) (amplitude : Z) (tg : tone_gen_t)
         (iw : instrument_waveform_t),
    (2 <= fuel)%nat ->
    ramping ENV_DELAY 0 tg 0 (delay iw) ->
    index instrument_waveforms (instrument_index tg) = Ret iw ->
    0 <= delay iw < 2 ^ 31 -> 0 < attack iw < 2 ^ 31 ->
    0 <= hold iw < 2 ^ 31 -> 0 < decay iw < 2 ^ 31 ->
    0 <= sustain_level iw <= 0x10000 ->
    exists tga tgs : tone_gen_t,
      update_tgen_n fuel amplitude (Z.to_nat (delay iw + attack iw)) tg
      = Ret tga /\
      ramping ENV_ATTACK (0x10000 / attack iw) tga
        (attack iw * (0x10000 / attack iw)) 0 /\
      update_tgen_n fuel amplitude (Z.to_nat (hold iw + decay iw + 1)) tga
      = Ret tgs /\
      update_tgen_n fuel amplitude
        (Z.to_nat (delay iw + attack iw + hold iw + decay iw + 1)) tg
      = Ret tgs /\
      ramping ENV_SUSTAIN 0 tgs (sustain_level iw) (INT_MAX - 1).
Proof.
  intros fuel amplitude tg iw Hfuel Hr Hiw HD HA HH HC HS.
  (* delay *)
  destruct (ramping_samples fuel amplitude ENV_DELAY 0 (Z.to_nat (delay iw))
              tg 0 (delay iw) Hr) as (tgd & Hrund & Hrd & Hid);
    [lia | lia | intros j Hj; lia |].
  rewrite Z2Nat.id in Hrd by lia.
  replace (0 + delay iw * 0) with 0 in Hrd by lia.
  replace (delay iw - delay iw) with 0 in Hrd by lia.
  pose proof Hrd as (Hplayd & Hpercd & _).
  (* attack *)
  destruct (envelope_leaves_delay fuel tgd iw 0 0 ltac:(lia) Hrd)
    as (tg1 & Henv1 & Hr1 & Hi1); [congruence | lia |].
  rewrite Z.quot_div_nonneg in Hr1 by lia.
  assert (Hq : 0 <= 0x10000 / attack iw) by (apply Z.div_pos; lia).
  assert (Hqa : attack iw * (0x10000 / attack iw) <= 0x10000)
    by (apply Z.mul_div_le; lia).
  destruct (phase_runs fuel amplitude tgd tg1 ENV_ATTACK
              (0x10000 / attack iw) 0 (attack iw) Hplayd Hpercd Henv1 Hr1 HA)
    as (tga & Hruna & Hra & Hia).
  { intros j Hj. nia. }
  replace (0 + attack iw * (0x10000 / attack iw))
    with (attack iw * (0x10000 / attack iw)) in Hra by lia.
  pose proof Hra as (Hplaya & Hperca & _).
  assert (Hiwa : index instrument_waveforms (instrument_index tga) = Ret iw)
    by congruence.
  (* hold and decay *)
  assert (Hrest : exists tgs : tone_gen_t,
             update_tgen_n fuel amplitude
               (Z.to_nat (hold iw) + (Z.to_nat (decay iw) + 1)) tga
             = Ret tgs /\
             ramping ENV_SUSTAIN 0 tgs (sustain_level iw) (INT_MAX - 1)).
  { destruct (envelope_leaves_attack fuel tga iw _ _ Hfuel Hra Hiwa)
      as (tg2 & Henv2 & Hi2 & Hr2); [lia |].
    destruct (Z.eqb_spec (hold iw) 0) as [Hh | Hh].
    - rewrite Hh. cbn [Z.to_nat Nat.add].
      apply (decay_reaches_sustain fuel amplitude tga tg2 iw);
        try assumption; try lia. congruence.
    - destruct (phase_runs fuel amplitude tga tg2 ENV_HOLD 0 0x10000
                  (hold iw) Hplaya Hperca Henv2 Hr2)
        as (tgh & Hrunh & Hrh & Hih); [lia | intros j Hj; lia |].
      pose proof Hrh as (Hplayh & Hperch & _).
      assert (Hiwh : index instrument_waveforms (instrument_index tgh)
                     = Ret iw) by congruence.
      destruct (envelope_leaves_hold fuel tgh iw _ _ ltac:(lia) Hrh Hiwh)
        as (tg3 & Henv3 & Hr3 & Hi3); [lia |].
      destruct (decay_reaches_sustain fuel amplitude tgh tg3 iw)
        as (tgs & Hruns & Hrs); try assumption; try lia; [congruence |].
      exists tgs. split; [| exact Hrs].
      eapply update_tgen_n_then; eassumption. }
  destruct Hrest as (tgs & Hruns & Hrs).
  assert (Hrunda : update_tgen_n fuel amplitude
                     (Z.to_nat (delay iw + attack iw)) tg = Ret tga).
  { replace (Z.to_nat (delay iw + attack iw))
      with (Z.to_nat (delay iw) + Z.to_nat (attack iw))%nat by lia.
    eapply update_tgen_n_then; eassumption. }
  replace (Z.to_nat (hold iw) + (Z.to_nat (decay iw) + 1))%nat
    with (Z.to_nat (hold iw + decay iw + 1)) in Hruns by lia.
  exists tga, tgs. split; [exact Hrunda |]. split; [exact Hra |].
  split; [exact Hruns |]. split; [| exact Hrs].
  replace (Z.to_nat (delay iw + attack iw + hold iw + decay iw + 1))
    with (Z.to_nat (delay iw + attack iw)
          + Z.to_nat (hold iw + decay iw + 1))%nat by lia.
  eapply update_tgen_n_then; eassumption.
Qed.

End Envelope.

Lemma held_note_reaches_sustain_witness :
  exists tga tgs : tone_gen_t,
    @update_tgen_n one_note_platform 10 65536 (Z.to_nat (0 + 441))
      (tgen_of 0 note_on_engine) = Ret tga /\
    ramping ENV_ATTACK 148 tga 65268 0 /\
    @update_tgen_n one_note_platform 10 65536 (Z.to_nat (88 + 1323 + 1)) tga
    = Ret tgs /\
    @update_tgen_n one_note_platform 10 65536
      (Z.to_nat (0 + 441 + 88 + 1323 + 1)) (tgen_of 0 note_on_engine)
    = Ret tgs /\
    ramping ENV_SUSTAIN 0 tgs 39321 (INT_MAX - 1).
Proof.
  apply (@held_note_reaches_sustain one_note_platform 10%nat 65536
           (tgen_of 0 note_on_engine)
           (instrument_entry teensy_rate waveform_aguitar_0033 DF_RL)).
  - lia.
  - vm_compute. repeat split; reflexivity.
  - vm_compute. reflexivity.
  - vm_compute. split; [discriminate | reflexivity].
  - vm_compute. split; reflexivity.
  - vm_compute. split; [discriminate | reflexivity].
  - vm_compute. split; reflexivity.
  - vm_compute. split; discriminate.
Defined.

(** ** Starting a score *)

Section PlayMore.
Context `{P : Platform}.

Lemma setinstrument_loop_ready (i : Z) (st : AudioSynthPlaytune) :
  platform_ready = true -> 0 <= i < 15 -> engine_ready st = true ->
  exists st' : AudioSynthPlaytune,
    for_each (Z.to_nat MAX_TGENS) 0
      (fun tgen s => tune_setinstrument tgen i s) st = Ret st' /\
    st' = set_tone_gen (tone_gen st') st /\
    engine_ready st' = true /\
    Forall (fun tg => instrument_index tg = i) (tone_gen st').
Proof.
  intros Hp Hi Hst.
  destruct (platform_ready_instrument i Hp Hi) as (iw & Hiw & Hready).
  destruct (for_each_invariant
              (fun k s => s = set_tone_gen (tone_gen s) st /\
                          engine_ready s = true /\
                          forall j tg, (j < k)%nat ->
                                       tone_gen s !! j = Some tg ->
                                       instrument_index tg = i)
              (fun tgen s => tune_setinstrument tgen i s)
              (Z.to_nat MAX_TGENS) 0 st) as (st' & Hloop & Hframe & Hr & Hall).
  - split; [destruct st; reflexivity |]. split; [exact Hst |].
    intros j tg Hj. lia.
  - intros k s Hk (Hs & Hrs & Hbelow).
    change (Z.to_nat MAX_TGENS) with 16%nat in Hk.
    unfold tune_setinstrument.
    destruct (lookup_lt_is_Some_2 (tone_gen s) k) as [tg Htg].
    { rewrite (engine_ready_length _ Hrs). exact Hk. }
    rewrite (index_lookup (tone_gen s) (0 + Z.of_nat k) tg)
      by (first [lia | replace (Z.to_nat (0 + Z.of_nat k)) with k by lia;
                       exact Htg]).
    cbn [bind]. replace (Z.to_nat (0 + Z.of_nat k)) with k by lia.
    eexists. split; [reflexivity |]. cbn [tone_gen set_tone_gen].
    split; [rewrite Hs at 2; reflexivity |]. split.
    + eapply (engine_ready_insert s); [exact Hrs | | reflexivity].
      unfold voice_ready. cbn [instrument_index set_instrument_index].
      rewrite Hiw. exact Hready.
    + intros j tgj Hj Htgj. destruct (Nat.eq_dec j k) as [-> | Hne].
      * rewrite list_lookup_insert_eq in Htgj
          by (eapply lookup_lt_Some; exact Htg).
        injection Htgj as <-. reflexivity.
      * rewrite list_lookup_insert_ne in Htgj by congruence.
        apply (Hbelow j); [lia | exact Htgj].
  - exists st'. split; [exact Hloop |]. split; [exact Hframe |].
    split; [exact Hr |]. apply Forall_forall. intros tg Hin.
    apply list_elem_of_lookup_1 in Hin as [j Hj].
    apply (Hall j); [| exact Hj].
    apply lookup_lt_Some in Hj. rewrite (engine_ready_length _ Hr) in Hj.
    exact Hj.
Qed.

Lemma tune_playscore_header_engine (score : Z) (st : AudioSynthPlaytune) :
  platform_ready = true -> engine_ready st = true ->
  exists h : AudioSynthPlaytune,
    tune_playscore_header score st = Ret h /\
    engine_ready h = true /\
    scorewait_samples h = scorewait_samples st /\
    score_cursor h = score_start h /\
    1 <= num_tgens_used h <= MAX_TGENS /\
    Forall (fun tg => instrument_index tg = I_PIANO) (tone_gen h) /\
    ((pgm_read_byte score =? 0x50) && (pgm_read_byte (score + 1) =? 0x74)
     = false -> score_start h = score).
Proof.
  intros Hp Hst. unfold tune_playscore_header.
  assert (Hstop : exists st1,
             (if tune_playing st then stop st else Ret st) = Ret st1 /\
             engine_ready st1 = true /\
             scorewait_samples st1 = scorewait_samples st).
  { destruct (tune_playing st).
    - destruct (stop_ready st Hst) as (st1 & H1 & _ & Hf & Hr & _).
      exists st1. split; [exact H1 |]. split; [exact Hr |].
      rewrite Hf. reflexivity.
    - exists st. split; [reflexivity |]. split; [exact Hst | reflexivity]. }
  destruct Hstop as (st1 & -> & Hr1 & Hw1). cbn [bind].
  match goal with
  | |- context [for_each _ _ _ ?s] =>
      destruct (setinstrument_loop_ready I_PIANO s Hp
                  ltac:(unfold I_PIANO; lia) Hr1)
        as (st3 & -> & Hst3 & Hr3 & Hall3)
  end.
  cbn [bind]. cbn [id1 id2 f1 hdr_length num_tgens].
  destruct ((pgm_read_byte score =? 0x50) && (pgm_read_byte (score + 1) =? 0x74)).
  - cbn [num_tgens_used set_num_tgens_used set_score_start
         set_volume_present set_file_header].
    destruct (mixer_level_exists (pgm_read_byte (score + 5))) as [a Ha].
    rewrite Ha. cbn [bind]. eexists. split; [reflexivity |].
    split; [exact Hr3 |]. split.
    { cbn. rewrite Hst3. cbn. exact Hw1. }
    split; [reflexivity |]. split; [cbn; unfold MAX_TGENS; lia |].
    split; [exact Hall3 | discriminate].
  - rewrite Hst3.
    cbn [num_tgens_used set_num_tgens_used set_score_start
         set_volume_present set_file_header set_tone_gen].
    destruct (mixer_level_exists 16) as [a Ha].
    change (Z.max 1 (Z.min MAX_TGENS 16)) with MAX_TGENS in Ha.
    rewrite Ha. cbn [bind]. eexists. split; [reflexivity |].
    split.
    { unfold engine_ready in *. cbn. cbn in Hr3. exact Hr3. }
    split; [cbn; exact Hw1 |].
    split; [reflexivity |]. split; [cbn; unfold MAX_TGENS; lia |].
    split; [cbn; exact Hall3 | reflexivity].
Qed.

Lemma stop_command (st : AudioSynthPlaytune) :
  Z.land (pgm_read_byte (score_cursor st)) 0xf0 = CMD_STOP ->
  tune_stepscore_cmd st
  = (do st' <- stop (set_score_cursor (score_cursor st + 1) st);
     Ret (st', false)).
Proof.
  intros Hcmd. unfold tune_stepscore_cmd.
  rewrite (command_byte_high_bit _ CMD_STOP (pgm_read_byte_range _)
             ltac:(unfold CMD_STOP; lia) Hcmd).
  rewrite Hcmd. reflexivity.
Qed.

(** X19. A score that is over before its first wait. If the first command
    of a headerless score is a stop, [play()] on a well-formed engine
    returns with [isPlaying()] true, although the score is over:
    [tune_playscore] sets [tune_playing] after the decoder has cleared it.
    The cursor is behind the stop command, every generator is set to the
    piano, and [scorewait_samples] is what it was before the call, since
    nothing resets it. If that was 0, rendering never decodes again:
    after any number of samples [isPlaying()] is still true and the cursor
    has not moved. *)
Theorem score_without_wait_keeps_playing_flag :
  forall (fuel : nat) (score : Z) (st : AudioSynthPlaytune),
    (1 <= fuel)%nat -> platform_ready = true -> engine_ready st = true ->
    Z.land (pgm_read_byte score) 0xf0 = CMD_STOP ->
    exists st' : AudioSynthPlaytune,
      play fuel score st = Ret st' /\
      isPlaying st' = true /\
      score_cursor st' = score + 1 /\
      scorewait_samples st' = scorewait_samples st /\
      Forall (fun tg => instrument_index tg = I_PIANO) (tone_gen st') /\
      (scorewait_samples st = 0 ->
       forall fuel' n : nat,
         (2 <= fuel')%nat ->
         exists (st'' : AudioSynthPlaytune) (xs : list Z),
           render fuel' n st' = Ret (st'', xs) /\
           isPlaying st'' = true /\ score_cursor st'' = score + 1).
Proof.
  intros fuel score st Hfuel Hp Hst Hcmd.
  assert (Hnohdr : (pgm_read_byte score =? 0x50)
                   && (pgm_read_byte (score + 1) =? 0x74) = false).
  { destruct (Z.eqb_spec (pgm_read_byte score) 0x50) as [E | _];
      [| reflexivity].
    rewrite E in Hcmd. vm_compute in Hcmd. discriminate. }
  destruct (tune_playscore_header_engine score st Hp Hst)
    as (h & Hh & Hrh & Hwh & Hch & Hnh & Hallh & Hstart).
  specialize (Hstart Hnohdr). rewrite Hstart in Hch.
  destruct (stop_ready (set_score_cursor (score_cursor h + 1) h) Hrh)
    as (st2 & Hstop & _ & Hf2 & Hr2 & Hgens).
  assert (Hplay : play fuel score st = Ret (set_tune_playing true st2)).
  { unfold play, play2, tune_playscore.
    rewrite tune_playscore_header_num_tgens_used, Hh. cbn [bind].
    destruct fuel as [| fuel]; [lia |]. cbn [tune_stepscore].
    rewrite stop_command by (rewrite Hch; exact Hcmd).
    rewrite Hstop. reflexivity. }
  assert (Hall2 : Forall (fun tg => instrument_index tg = I_PIANO)
                    (tone_gen st2)).
  { apply Forall_forall. intros tg' Hin.
    apply list_elem_of_lookup_1 in Hin as [j Hj].
    destruct (lookup_lt_is_Some_2 (tone_gen h) j) as [tg Htg].
    { apply lookup_lt_Some in Hj. rewrite (engine_ready_length _ Hr2) in Hj.
      rewrite (engine_ready_length _ Hrh). exact Hj. }
    destruct (Hgens j tg Htg) as (tg2 & Htg2 & Hstop2).
    assert (tg2 = tg') by congruence. subst tg2.
    rewrite (stop_tone_gen_instrument _ _ Hstop2).
    rewrite Forall_forall in Hallh. apply Hallh.
    eapply list_elem_of_lookup_2. exact Htg. }
  assert (Hcur2 : score_cursor st2 = score + 1)
    by (rewrite Hf2; cbn; rewrite Hch; reflexivity).
  assert (Hwait2 : scorewait_samples st2 = scorewait_samples st)
    by (rewrite Hf2; cbn; exact Hwh).
  assert (Hnum2 : num_tgens_used st2 = num_tgens_used h)
    by (rewrite Hf2; reflexivity).
  exists (set_tune_playing true st2). split; [exact Hplay |].
  split; [reflexivity |]. split; [exact Hcur2 |]. split; [exact Hwait2 |].
  split; [exact Hall2 |].
  intros Hzero fuel' n Hfuel'.
  destruct (render_stalled fuel' n Hfuel' (set_tune_playing true st2))
    as (st3 & xs & Hrender & Hf3 & _).
  - exact Hr2.
  - cbn [num_tgens_used set_tune_playing]. rewrite Hnum2. lia.
  - cbn [scorewait_samples set_tune_playing]. congruence.
  - exists st3, xs. split; [exact Hrender |].
    rewrite Hf3. split; [reflexivity | exact Hcur2].
Qed.

End PlayMore.

Lemma score_without_wait_keeps_playing_flag_witness :
  exists st' : AudioSynthPlaytune,
    @play no_wait_platform 10 0 idle_engine = Ret st' /\
    isPlaying st' = true /\
    score_cursor st' = 0 + 1 /\
    scorewait_samples st' = scorewait_samples idle_engine /\
    Forall (fun tg => instrument_index tg = I_PIANO) (tone_gen st') /\
    (scorewait_samples idle_engine = 0 ->
     forall fuel' n : nat,
       (2 <= fuel')%nat ->
       exists (st'' : AudioSynthPlaytune) (xs : list Z),
         @render no_wait_platform fuel' n st' = Ret (st'', xs) /\
         isPlaying st'' = true /\ score_cursor st'' = 0 + 1).
Proof.
  apply (@score_without_wait_keeps_playing_flag no_wait_platform 10%nat 0
           idle_engine).
  - lia.
  - vm_compute. reflexivity.
  - vm_compute. reflexivity.
  - vm_compute. reflexivity.
Defined.
